(* Verification development for the transcription worker of transcribe-app:
   backend/workers/tasks.py (job pipeline, artifact writers, timestamp
   formatting), backend/asr/engine.py (segment postprocessing, confidence
   normalisation, diarization), backend/db/models.py (job record and status
   enum), backend/workers/celery_app.py (optional Celery application),
   backend/asr/diarization.py and the text passes of backend/asr/postprocess
   (normalize_th.py, punct_restore.py, itn_th.py, dialect_map.py).

   Modelling conventions.
   - A Python [str] is a Rocq [string] holding its UTF-8 bytes; [len] counts
     code points and [strip] removes every code point for which Python's
     [str.isspace] holds.
   - A finite Python [float] is its exact value, a rational number; the IEEE
     operations used by the code ([-], [/]) round to the nearest binary64
     value (ties to even) and [fmod] is exact, as in C.
   - Python exceptions are the constructors of [exn]; a computation returns
     an [outcome].
   - In the text passes of backend/asr/postprocess a [str] is its list of
     code points ([ustring]), and the [re] patterns they use are run by a
     backtracking matcher over code points.
   - The dicts of dialect_map.py are objects in a store shared by every
     mapper, so that aliasing between them is visible. *)

From Stdlib Require Import String Ascii List Bool ZArith QArith Qround Qabs Lia Lqa.
From Stdlib Require Import DecimalString DecimalN.

Import ListNotations.
Open Scope nat_scope.
Open Scope string_scope.

(* ------------------------------------------------------------------------ *)
(** * Python exceptions and outcomes *)

Inductive exn : Type :=
| AttributeError (name : string)
| FileNotFoundError (msg : string)
| OSError (path : string)
| RuntimeError (msg : string)
| ValueError
| UnicodeDecodeError
| OverflowError
| TypeError
| OperationalError
| EngineError (msg : string)
| Retry (countdown : nat)
| MaxRetriesExceededError.

(** [str(exc)]. *)
Definition exn_str (e : exn) : string :=
  match e with
  | AttributeError name => name
  | FileNotFoundError msg | RuntimeError msg | EngineError msg => msg
  | OSError path => path
  | ValueError => "ValueError"
  | UnicodeDecodeError => "UnicodeDecodeError"
  | OverflowError => "math range error"
  | TypeError => "TypeError"
  | OperationalError => "OperationalError"
  | Retry _ => "Retry"
  | MaxRetriesExceededError => "MaxRetriesExceededError"
  end.

Inductive outcome (A : Type) : Type :=
| Ok (a : A)
| Raise (e : exn).
Arguments Ok {A} a.
Arguments Raise {A} e.

Definition obind {A B} (m : outcome A) (k : A -> outcome B) : outcome B :=
  match m with Ok a => k a | Raise e => Raise e end.

(* ------------------------------------------------------------------------ *)
(** * Python string operations *)

Definition nl : string := String "010"%char EmptyString.

(** Python's [str.isspace] code points, as UTF-8 byte sequences. *)
Definition py_whitespace : list (list ascii) :=
  [ ["009"%char]; ["010"%char]; ["011"%char]; ["012"%char]; ["013"%char];
    ["028"%char]; ["029"%char]; ["030"%char]; ["031"%char]; [" "%char];
    ["194"%char; "133"%char];                       (* U+0085 *)
    ["194"%char; "160"%char];                       (* U+00A0 *)
    ["225"%char; "154"%char; "128"%char] ]          (* U+1680 *)
  ++ map (fun c => ["226"%char; "128"%char; ascii_of_nat c])
         (seq 128 11 ++ [168; 169; 175])            (* U+2000..200A, 2028, 2029, 202F *)
  ++ [ ["226"%char; "129"%char; "159"%char];        (* U+205F *)
       ["227"%char; "128"%char; "128"%char] ].      (* U+3000 *)

Fixpoint list_prefixb (p l : list ascii) : bool :=
  match p, l with
  | [], _ => true
  | a :: p', b :: l' => Ascii.eqb a b && list_prefixb p' l'
  | _ :: _, [] => false
  end.

(** Drop leading whitespace code points, at most [fuel] of them. *)
Fixpoint lstrip_bytes (ws : list (list ascii)) (fuel : nat) (l : list ascii) : list ascii :=
  match fuel with
  | O => l
  | S fuel' =>
      match find (fun w => list_prefixb w l) ws with
      | Some w => lstrip_bytes ws fuel' (skipn (length w) l)
      | None => l
      end
  end.

Definition py_lstrip (s : string) : string :=
  let l := list_ascii_of_string s in
  string_of_list_ascii (lstrip_bytes py_whitespace (length l) l).

Definition py_rstrip (s : string) : string :=
  let l := rev (list_ascii_of_string s) in
  string_of_list_ascii (rev (lstrip_bytes (map (@rev ascii) py_whitespace) (length l) l)).

Definition py_strip (s : string) : string := py_rstrip (py_lstrip s).

(** [len]: the number of code points, i.e. of bytes that are not UTF-8
    continuation bytes. *)
Definition py_len (s : string) : nat :=
  length (filter (fun c => negb (Nat.eqb (nat_of_ascii c / 64) 2)) (list_ascii_of_string s)).

(** [str.lower] restricted to the ASCII letters.  The code only tests the
    lowered string for membership in a set of ASCII words, and no non-ASCII
    code point lowers to a string made of the letters of those words. *)
Definition lower_char (c : ascii) : ascii :=
  let n := nat_of_ascii c in
  if ((65 <=? n) && (n <=? 90))%nat then ascii_of_nat (n + 32) else c.

Definition py_lower (s : string) : string :=
  string_of_list_ascii (map lower_char (list_ascii_of_string s)).

Fixpoint py_join (sep : string) (l : list string) : string :=
  match l with
  | [] => ""
  | [x] => x
  | x :: l' => x ++ sep ++ py_join sep l'
  end.

(** [s.replace(a, b)] for one-character [a] and [b]. *)
Fixpoint replace_char (a b : ascii) (s : string) : string :=
  match s with
  | EmptyString => EmptyString
  | String c s' => String (if Ascii.eqb c a then b else c) (replace_char a b s')
  end.

(** Truthiness of a string: non-empty. *)
Definition str_truthy (s : string) : bool :=
  match s with EmptyString => false | _ => true end.

(** Decimal digits of a natural number, as [str(n)]. *)
Definition digits_N (n : N) : string := NilEmpty.string_of_uint (N.to_uint n).

Definition str_nat (n : nat) : string := digits_N (N.of_nat n).

Fixpoint zeros (k : nat) : string :=
  match k with O => EmptyString | S k' => String "0" (zeros k') end.

(** Zero padding on the left to width [w]. *)
Definition pad_left0 (w : nat) (s : string) : string := zeros (w - String.length s) ++ s.

(** [f"{n:0wd}"] for an integer [n]. *)
Definition fmt_int0 (w : nat) (z : Z) : string :=
  if (z <? 0)%Z then "-" ++ pad_left0 (w - 1) (digits_N (Z.to_N (- z)))
  else pad_left0 w (digits_N (Z.to_N z)).

(* ------------------------------------------------------------------------ *)
(** * Python floats *)

Section PyFloats.
Local Open Scope Q_scope.

(** A Python [float]: a finite value (its exact rational value), an infinity
    or NaN. *)
Inductive pyfloat : Type :=
| PyFin (q : Q)
| PyInf (negative : bool)
| PyNaN.

(** [2 ^ e] for an integer exponent. *)
Definition pow2Q (e : Z) : Q :=
  if (0 <=? e)%Z then inject_Z (2 ^ e) else 1 # Z.to_pos (2 ^ (- e)).

(** [floor (log2 q)] for [q > 0]. *)
Definition Qlog2_floor (q : Q) : Z :=
  let k := (Z.log2 (Qnum q) - Z.log2 (Zpos (Qden q)))%Z in
  if Qle_bool (pow2Q k) q then k else (k - 1)%Z.

(** Rounding half to even to an integer. *)
Definition round_half_even (q : Q) : Z :=
  let f := Qfloor q in
  let r := q - inject_Z f in
  if Qlt_le_dec r (1 # 2) then f
  else if Qeq_bool r (1 # 2) then (if Z.even f then f else f + 1)%Z
  else (f + 1)%Z.

(** Rounding a positive rational to the nearest binary64 value (53-bit
    significand, least exponent -1074), ties to even. *)
Definition round_pos (q : Q) : Q :=
  let e := Z.max (-1074) (Qlog2_floor q - 52) in
  inject_Z (round_half_even (q * pow2Q (- e))) * pow2Q e.

Definition round_double (q : Q) : Q :=
  let q := Qred q in
  match Qnum q with
  | Z0 => 0
  | Zpos _ => round_pos q
  | Zneg _ => - round_pos (- q)
  end.

Definition Qlt_bool (x y : Q) : bool := negb (Qle_bool y x).

(** C's [trunc] and [fmod] (exact). *)
Definition Qtrunc (q : Q) : Z :=
  if Qle_bool 0 q then Qfloor q else (- Qfloor (- q))%Z.

Definition c_fmod (x y : Q) : Q := x - y * inject_Z (Qtrunc (x / y)).

(** CPython's [_float_div_mod] (Objects/floatobject.c) on finite operands,
    [wx] non-zero: the pair (floor quotient, remainder). *)
Definition float_div_mod (vx wx : Q) : Q * Q :=
  let m := c_fmod vx wx in
  let div := round_double (round_double (vx - m) / wx) in
  let '(m, div) :=
    if Qeq_bool m 0 then (0, div)
    else if negb (Bool.eqb (Qlt_bool wx 0) (Qlt_bool m 0))
         then (round_double (m + wx), round_double (div - 1))
         else (m, div) in
  let floordiv :=
    if Qeq_bool div 0 then 0
    else let f := inject_Z (Qfloor div) in
         if Qlt_bool (1 # 2) (round_double (div - f)) then f + 1 else f in
  (floordiv, m).

(** [x // y] and [x % y] on Python floats, [y] a non-zero finite value.
    On an infinite or NaN operand CPython's [fmod] yields NaN and so do both
    results. *)
Definition py_floordiv (x : pyfloat) (y : Q) : pyfloat :=
  match x with PyFin vx => PyFin (fst (float_div_mod vx y)) | _ => PyNaN end.

Definition py_mod (x : pyfloat) (y : Q) : pyfloat :=
  match x with PyFin vx => PyFin (snd (float_div_mod vx y)) | _ => PyNaN end.

(** [int(x)] for a float: truncation; [ValueError] on NaN and
    [OverflowError] on an infinity. *)
Definition py_int (x : pyfloat) : outcome Z :=
  match x with
  | PyFin q => Ok (Qtrunc q)
  | PyInf _ => Raise OverflowError
  | PyNaN => Raise ValueError
  end.

(** [f"{x:06.3f}"]: the exact value rounded half to even to three decimals,
    [int.frac] with three fraction digits, zero padded on the left (after
    the sign) to width 6.  NaN and infinities print as [nan]/[inf]. *)
Definition fmt_fixed3_06 (x : pyfloat) : string :=
  match x with
  | PyFin q =>
      let n := round_half_even (q * inject_Z 1000) in
      let neg := Qlt_bool q 0 in
      let a := Z.to_N (Z.abs n) in
      let body := digits_N (a / 1000)%N ++ "." ++ pad_left0 3 (digits_N (a mod 1000)%N) in
      if neg then "-" ++ pad_left0 5 body else pad_left0 6 body
  | PyInf false => "   inf"
  | PyInf true => "  -inf"
  | PyNaN => "   nan"
  end.

End PyFloats.

(* ------------------------------------------------------------------------ *)
(** * Segments and the artifact encoders (backend/asr/types.py,
      backend/workers/tasks.py) *)

Record Segment : Type := {
  start : pyfloat;
  end_ : pyfloat;
  text : string;
  confidence : pyfloat;
  speaker : option string;
  language : option string;
  words : list (list (string * pyfloat));
}.

(** [f"{segment.speaker}: " if segment.speaker else ""] *)
Definition speaker_prefix (seg : Segment) : string :=
  match speaker seg with
  | Some s => if str_truthy s then s ++ ": " else ""
  | None => ""
  end.

(** tasks.py, [_format_timestamp]. *)
Definition _format_timestamp (seconds : pyfloat) : outcome string :=
  obind (py_int (py_floordiv seconds 3600)) (fun hours =>
  obind (py_int (py_floordiv (py_mod seconds 3600) 60)) (fun minutes =>
  let secs := py_mod seconds 60 in
  Ok (replace_char "." "," (fmt_int0 2 hours ++ ":" ++ fmt_int0 2 minutes ++ ":"
                            ++ fmt_fixed3_06 secs)))).

(** The lines appended by the loop of [_to_srt], [index] counting from [start=1]. *)
Fixpoint srt_lines (index : nat) (segments : list Segment) : outcome (list string) :=
  match segments with
  | [] => Ok []
  | segment :: rest =>
      obind (_format_timestamp (start segment)) (fun start =>
      obind (_format_timestamp (end_ segment)) (fun end_ =>
      obind (srt_lines (S index) rest) (fun lines =>
      Ok (app [str_nat index; start ++ " --> " ++ end_;
               speaker_prefix segment ++ text segment; ""] lines))))
  end.

(** tasks.py, [_to_srt]: [return "\n".join(lines).strip()]. *)
Definition _to_srt (segments : list Segment) : outcome string :=
  obind (srt_lines 1 segments) (fun lines => Ok (py_strip (py_join nl lines))).

Fixpoint vtt_lines (segments : list Segment) : outcome (list string) :=
  match segments with
  | [] => Ok []
  | segment :: rest =>
      obind (_format_timestamp (start segment)) (fun start =>
      obind (_format_timestamp (end_ segment)) (fun end_ =>
      obind (vtt_lines rest) (fun lines =>
      Ok (app [replace_char "," "." start ++ " --> " ++ replace_char "," "." end_;
               speaker_prefix segment ++ text segment; ""] lines))))
  end.

(** tasks.py, [_to_vtt]. *)
Definition _to_vtt (segments : list Segment) : outcome string :=
  obind (vtt_lines segments) (fun lines => Ok (py_strip (py_join nl (app ["WEBVTT"; ""] lines)))).

(** [str.split] on one character. *)
Fixpoint split_char (c : ascii) (s : string) : list string :=
  match s with
  | EmptyString => [""]
  | String d s' =>
      if Ascii.eqb d c then "" :: split_char c s'
      else match split_char c s' with
           | x :: r => String d x :: r
           | [] => [String d ""]
           end
  end.

Definition parse_uint (s : string) : option N :=
  match NilEmpty.uint_of_string s with Some d => Some (N.of_uint d) | None => None end.

(** The reverse of the SRT timestamp formatter, following the spec's
    [HH:MM:SS,mmm]: the value in seconds, exactly. *)
Definition spec_parse_timestamp (s : string) : option Q :=
  match split_char ":" s with
  | [h; m; r] =>
      match split_char "," r with
      | [sec; ms] =>
          match parse_uint h, parse_uint m, parse_uint sec, parse_uint ms with
          | Some hn, Some mn, Some sn, Some msn =>
              Some (inject_Z (Z.of_N hn * 3600 + Z.of_N mn * 60 + Z.of_N sn)
                    + inject_Z (Z.of_N msn) / inject_Z (10 ^ Z.of_nat (String.length ms)))%Q
          | _, _, _, _ => None
          end
      | _ => None
      end
  | _ => None
  end.

(** Whether a character occurs in a string. *)
Fixpoint has_char (c : ascii) (s : string) : bool :=
  match s with
  | EmptyString => false
  | String d s' => Ascii.eqb d c || has_char c s'
  end.

(* ------------------------------------------------------------------------ *)
(** * The job record (backend/db/models.py) *)

Inductive JobStatus : Type := pending | processing | finished | failed.

(** Attribute access [JobStatus.<name>] on the enum class: the four members,
    [AttributeError] for any other name. *)
Definition JobStatus_attr (name : string) : outcome JobStatus :=
  if String.eqb name "pending" then Ok pending
  else if String.eqb name "processing" then Ok processing
  else if String.eqb name "finished" then Ok finished
  else if String.eqb name "failed" then Ok failed
  else Raise (AttributeError name).

(** The columns of [TranscriptionJob] the worker touches ([options],
    [created_at], [updated_at] and the relationships are left out; the
    worker never reads them and [touch] only moves [updated_at]). *)
Module TranscriptionJob.
Record t : Type := mk {
  id : string;                      (* the canonical UUID string *)
  filename : string;
  status : JobStatus;
  model_size : string;
  error : option string;
  text : option string;
  output_txt_path : option string;
  output_srt_path : option string;
  output_vtt_path : option string;
  output_jsonl_path : option string;
}.

Definition set_status (st : JobStatus) (j : t) : t :=
  mk (id j) (filename j) st (model_size j) (error j) (text j)
     (output_txt_path j) (output_srt_path j) (output_vtt_path j) (output_jsonl_path j).

Definition set_outputs (txt : option string) (txt_p srt_p vtt_p jsonl_p : option string)
  (j : t) : t :=
  mk (id j) (filename j) (status j) (model_size j) (error j) txt txt_p srt_p vtt_p jsonl_p.

(** Reading a string attribute of a job object: the string columns, and
    [AttributeError] for a name that is not an attribute of the model. *)
Definition getattr (j : t) (name : string) : outcome string :=
  if String.eqb name "id" then Ok (id j)
  else if String.eqb name "filename" then Ok (filename j)
  else if String.eqb name "model_size" then Ok (model_size j)
  else Raise (AttributeError name).
End TranscriptionJob.

(* ------------------------------------------------------------------------ *)
(** * The world the worker runs in *)

(** The jobs table maps a canonical UUID string to its row. *)
Definition JobStore : Type := string -> option TranscriptionJob.t.

Record World : Type := mkWorld {
  db_up : bool;                     (* the database answers queries *)
  committed : JobStore;             (* the committed rows *)
  working : JobStore;               (* the open session's view of the rows *)
  files : string -> option string;  (* path -> file contents *)
  writes : list string;             (* the files the worker wrote, in order *)
  queue : list string;              (* the job ids sent to the broker *)
  logs : list string;
}.

Definition set_working (s : JobStore) (w : World) : World :=
  mkWorld (db_up w) (committed w) s (files w) (writes w) (queue w) (logs w).

Definition set_committed (s : JobStore) (w : World) : World :=
  mkWorld (db_up w) s (working w) (files w) (writes w) (queue w) (logs w).

Definition add_file (p contents : string) (w : World) : World :=
  mkWorld (db_up w) (committed w) (working w)
          (fun q => if String.eqb q p then Some contents else files w q)
          (writes w ++ [p]) (queue w) (logs w).

Definition push_queue (m : string) (w : World) : World :=
  mkWorld (db_up w) (committed w) (working w) (files w) (writes w) (queue w ++ [m]) (logs w).

Definition add_log (m : string) (w : World) : World :=
  mkWorld (db_up w) (committed w) (working w) (files w) (writes w) (queue w) (logs w ++ [m]).

(** A computation of the worker: it changes the world and returns a value or
    raises; what it did before raising stays done. *)
Definition M (A : Type) : Type := World -> World * outcome A.

Definition ret {A} (a : A) : M A := fun w => (w, Ok a).
Definition raise {A} (e : exn) : M A := fun w => (w, Raise e).
Definition lift {A} (r : outcome A) : M A := fun w => (w, r).
Definition bind {A B} (m : M A) (k : A -> M B) : M B :=
  fun w => match m w with
           | (w', Ok a) => k a w'
           | (w', Raise e) => (w', Raise e)
           end.
(** [try: ... except BaseException as exc: ...]: the exception as a value. *)
Definition try_ {A} (m : M A) : M (outcome A) :=
  fun w => let '(w', r) := m w in (w', Ok r).

Declare Scope monad_scope.
Notation "x <- m ;; k" := (bind m (fun x => k))
  (at level 61, m at next level, right associativity) : monad_scope.
Notation "m ;; k" := (bind m (fun _ : unit => k))
  (at level 61, right associativity) : monad_scope.
Open Scope monad_scope.

Definition log (msg : string) : M unit := fun w => (add_log msg w, Ok tt).

(** [with db_session() as session:] (db/session.py): the session starts from
    the committed rows, commits when the block exits normally, rolls back
    and re-raises when it raises. *)
Definition db_session {A} (body : M A) : M A := fun w =>
  match body (set_working (committed w) w) with
  | (w1, Ok a) => (set_committed (working w1) w1, Ok a)
  | (w1, Raise e) => (set_working (committed w1) w1, Raise e)
  end.

Definition session_get (u : string) : M (option TranscriptionJob.t) := fun w =>
  if db_up w then (w, Ok (working w u)) else (w, Raise OperationalError).

Definition session_commit : M unit := fun w => (set_committed (working w) w, Ok tt).

Definition session_rollback : M unit := fun w => (set_working (committed w) w, Ok tt).

(** Assignments to columns of the loaded row [u]. *)
Definition session_update (u : string) (f : TranscriptionJob.t -> TranscriptionJob.t) : M unit :=
  fun w => (set_working (fun k => if String.eqb k u then option_map f (working w k)
                                  else working w k) w, Ok tt).

(* ------------------------------------------------------------------------ *)
(** * Engine interface (backend/asr/engine.py) *)

Module TranscriptionOptions.
Record t : Type := mk {
  model_size : string;
  language_hint : option string;
  enable_diarization : bool;
  enable_punct : bool;
  enable_itn : bool;
  enable_dialect_map : bool;
}.
End TranscriptionOptions.

Module TranscriptionResult.
Record t : Type := mk {
  text : string;
  segments : list Segment;
  dialect_mapped_text : option string;
}.
End TranscriptionResult.

(** The job payload [_acquire_job] returns. *)
Record JobPayload : Type := mkJobPayload {
  payload_id : string;
  input_path : string;
  model_name : string;
  dialect_mapping : bool;
}.

(** The payload [_transcribe] returns. *)
Record ResultPayload : Type := mkResultPayload {
  result_text : string;
  dialect_text : option string;
  txt_path : string;
  srt_path : string;
  vtt_path : string;
  jsonl_path : string;
}.

(** What the worker's code takes from outside: settings, the standard
    library's parsers and the operating system. *)
Record Env : Type := mkEnv {
  storage_dir : string;
  default_model_size : string;
  (* [str(uuid.UUID(job_id))], [None] when it raises [ValueError] *)
  uuid_UUID : string -> option string;
  expanduser : string -> string;
  (* creating or writing this path raises [OSError] *)
  fs_fails : string -> bool;
  (* [shutil.which("ffmpeg")] *)
  ffmpeg_bin : option string;
  (* return code and stderr of the ffmpeg run converting a source *)
  ffmpeg_run : string -> Z * string;
  (* the audio ffmpeg writes for a source *)
  ffmpeg_out : string -> string;
  (* [get_engine().transcribe(path, options)] *)
  engine_transcribe : string -> TranscriptionOptions.t -> outcome TranscriptionResult.t;
  (* [json.dumps] of the dict [_write_segments] builds for a segment *)
  json_dumps : Segment -> string;
}.

(* ------------------------------------------------------------------------ *)
(** * File operations and paths *)

Definition path_exists (p : string) : M bool :=
  fun w => (w, Ok (match files w p with Some _ => true | None => false end)).

Definition write_text (env : Env) (p contents : string) : M unit :=
  fun w => if fs_fails env p then (w, Raise (OSError p)) else (add_file p contents w, Ok tt).

(** [bytes.decode("utf-8")] in strict mode accepts exactly the well-formed
    UTF-8 sequences (Unicode, table 3-7): no overlong form, no surrogate,
    nothing above U+10FFFF. *)
Definition byte_in (a : ascii) (lo hi : nat) : bool :=
  ((lo <=? nat_of_ascii a) && (nat_of_ascii a <=? hi))%nat.

Fixpoint utf8_valid (l : list ascii) : bool :=
  match l with
  | [] => true
  | a :: l1 =>
      let x := nat_of_ascii a in
      if x <=? 127 then utf8_valid l1
      else if (194 <=? x) && (x <=? 223) then
        match l1 with
        | b :: l2 => byte_in b 128 191 && utf8_valid l2
        | [] => false
        end
      else if (224 <=? x) && (x <=? 239) then
        match l1 with
        | b :: c :: l3 =>
            byte_in b (if x =? 224 then 160 else 128) (if x =? 237 then 159 else 191) &&
            byte_in c 128 191 && utf8_valid l3
        | _ => false
        end
      else if (240 <=? x) && (x <=? 244) then
        match l1 with
        | b :: c :: d :: l4 =>
            byte_in b (if x =? 240 then 144 else 128) (if x =? 244 then 143 else 191) &&
            byte_in c 128 191 && byte_in d 128 191 && utf8_valid l4
        | _ => false
        end
      else false
  end%nat.

(** Universal newlines, the default of text mode when reading: "\r\n" and a
    lone "\r" are read as "\n". *)
Fixpoint translate_newlines (l : list ascii) : list ascii :=
  match l with
  | [] => []
  | a :: l1 =>
      if Ascii.eqb a "013" then
        "010"%char :: match l1 with
                      | b :: l2 => if Ascii.eqb b "010" then translate_newlines l2 else translate_newlines l1
                      | [] => []
                      end
      else a :: translate_newlines l1
  end.

(** [Path(p).read_text(encoding="utf-8")]: a missing or unreadable file
    raises an [OSError]; bytes that are not UTF-8 raise
    [UnicodeDecodeError] (a subclass of [ValueError], not of [OSError]);
    the text is read with universal newlines. *)
Definition read_text (p : string) : M string :=
  fun w => match files w p with
           | Some c =>
               let l := list_ascii_of_string c in
               if utf8_valid l then (w, Ok (string_of_list_ascii (translate_newlines l)))
               else (w, Raise UnicodeDecodeError)
           | None => (w, Raise (OSError p))
           end.

Definition mkdir (env : Env) (p : string) : M unit :=
  if fs_fails env p then raise (OSError p) else ret tt.

Definition shutil_copy (env : Env) (src dst : string) : M unit :=
  fun w => match files w src with
           | Some c => write_text env dst c w
           | None => (w, Raise (FileNotFoundError src))
           end.

(** [Path(a) / b], paths being [/]-separated strings. *)
Definition path_div (a b : string) : string := a ++ "/" ++ b.

Fixpoint split_at_char (c : ascii) (l : list ascii) : list ascii * list ascii :=
  match l with
  | [] => ([], [])
  | x :: l' => if Ascii.eqb x c then ([], l)
               else let '(a, b) := split_at_char c l' in (x :: a, b)
  end.

(** [PurePath] on POSIX (pathlib of Python 3.12): [splitroot] keeps a
    leading "/", or exactly two leading slashes, as the root; the rest is
    split at "/", empty and "." components being dropped. [str] joins the
    components after the root, and gives "." for no root and no component. *)
Definition posix_splitroot (p : list ascii) : list ascii * list ascii :=
  match p with
  | a :: p1 =>
      if Ascii.eqb a "/" then
        match p1 with
        | b :: p2 =>
            if Ascii.eqb b "/" then
              match p2 with
              | c :: _ => if Ascii.eqb c "/" then (["/"%char], p1) else (["/"%char; "/"%char], p2)
              | [] => (["/"%char; "/"%char], p2)
              end
            else (["/"%char], p1)
        | [] => (["/"%char], p1)
        end
      else ([], p)
  | [] => ([], p)
  end.

(** [rel.split("/")], the current piece kept reversed in [cur]. *)
Fixpoint split_slash (l cur : list ascii) : list (list ascii) :=
  match l with
  | [] => [rev cur]
  | x :: l' => if Ascii.eqb x "/" then rev cur :: split_slash l' [] else split_slash l' (x :: cur)
  end.

Definition path_parts (p : string) : list ascii * list (list ascii) :=
  let '(root, rel) := posix_splitroot (list_ascii_of_string p) in
  (root, filter (fun x => negb (String.eqb (string_of_list_ascii x) "") &&
                          negb (String.eqb (string_of_list_ascii x) ".")) (split_slash rel [])).

Definition path_str (root : list ascii) (parts : list (list ascii)) : string :=
  let s := string_of_list_ascii root ++ String.concat "/" (map string_of_list_ascii parts) in
  if String.eqb s "" then "." else s.

(** [name.rfind(".")]. *)
Fixpoint last_index (c : ascii) (l : list ascii) (i : nat) (acc : option nat) : option nat :=
  match l with
  | [] => acc
  | x :: l' => last_index c l' (S i) (if Ascii.eqb x c then Some i else acc)
  end.

(** [PurePath.suffix] of a name: from its last dot, when that dot is
    neither its first nor its last character. *)
Definition name_suffix (name : list ascii) : list ascii :=
  match last_index "." name 0 None with
  | Some i => if ((0 <? i) && (i <? length name - 1))%nat then skipn i name else []
  | None => []
  end.

(** [PurePath.with_suffix(suffix)]: [ValueError] for a suffix holding "/",
    not starting with "." or equal to ".", and for a path with an empty
    name (such as "/", "." or ""); otherwise the last component with its
    suffix replaced, as [str] prints the new path. *)
Definition with_suffix (suffix p : string) : outcome string :=
  let sfx := list_ascii_of_string suffix in
  if existsb (fun c => Ascii.eqb c "/") sfx then Raise ValueError
  else if (negb (String.eqb suffix "") && negb (String.prefix "." suffix)) || String.eqb suffix "."
  then Raise ValueError
  else
    let '(root, parts) := path_parts p in
    match rev parts with
    | [] => Raise ValueError
    | name :: rparents =>
        let old := name_suffix name in
        Ok (path_str root (rev (app (firstn (length name - length old) name) sfx :: rparents)))
    end.

(* ------------------------------------------------------------------------ *)
(** * Celery tasks *)

(** The task's request: how many times it has been retried. *)
Record Task : Type := mkTask { request_retries : nat }.

(** [@shared_task(bind=True, max_retries=5, default_retry_delay=1, ...)] *)
Definition max_retries : nat := 5.
Definition default_retry_delay : nat := 1.

(** The exception [task.retry(exc=exc)] raises (celery/app/task.py, [throw]
    left true): past the budget, [exc] when given and else
    [MaxRetriesExceededError]; otherwise [Retry], the message being sent
    again with [request.retries + 1] after the default delay. *)
Definition task_retry (t : Task) (exc : option exn) : exn :=
  if (max_retries <? request_retries t + 1)%nat
  then match exc with Some e => e | None => MaxRetriesExceededError end
  else Retry default_retry_delay.

(* ------------------------------------------------------------------------ *)
(** * The worker (backend/workers/tasks.py) *)

(** [except task.MaxRetriesExceededError]: after [task.retry()] has raised
    [e], give up with the log line when [e] is that exception and re-raise
    [e] otherwise. *)
Definition retry_or_give_up (job_uuid : string) (e : exn) : M (option JobPayload) :=
  match e with
  | MaxRetriesExceededError => log ("Job " ++ job_uuid ++ " not found after retries") ;; ret None
  | _ => raise e
  end.

Definition _acquire_job (env : Env) (job_uuid : string) (task : option Task)
  : M (option JobPayload) :=
  db_session (
    r <- try_ (session_get job_uuid) ;;
    match r with
    | Raise OperationalError =>
        session_rollback ;;
        log ("Database not ready when fetching job " ++ job_uuid ++ ": OperationalError") ;;
        match task with
        | Some t => retry_or_give_up job_uuid (task_retry t (Some OperationalError))
        | None => raise OperationalError
        end
    | Raise e => raise e
    | Ok None =>
        match task with
        | Some t => retry_or_give_up job_uuid (task_retry t None)
        | None => log ("Job " ++ job_uuid ++ " not found") ;; ret None
        end
    | Ok (Some job) =>
        st <- lift (JobStatus_attr "running") ;;
        session_update job_uuid (TranscriptionJob.set_status st) ;;
        (* [job.error_message = None] sets a plain attribute, not a column;
           [job.touch()] moves [updated_at] *)
        session_commit ;;
        id <- lift (TranscriptionJob.getattr job "id") ;;
        input_path <- lift (TranscriptionJob.getattr job "input_path") ;;
        model_name <- lift (TranscriptionJob.getattr job "model_name") ;;
        dialect_mapping <- lift (TranscriptionJob.getattr job "dialect_mapping") ;;
        ret (Some (mkJobPayload id input_path
                     (if str_truthy model_name then model_name else default_model_size env)
                     (str_truthy dialect_mapping)))
    end).

Definition _convert_audio (env : Env) (source destination : string) : M unit :=
  match ffmpeg_bin env with
  | None =>
      shutil_copy env source destination ;;
      log ("ffmpeg not available; copied " ++ source ++ " to " ++ destination
           ++ " without conversion")
  | Some _ =>
      log ("Converting " ++ source ++ " to mono WAV via ffmpeg") ;;
      let '(returncode, stderr) := ffmpeg_run env source in
      if (returncode =? 0)%Z
      then fun w => (add_file destination (ffmpeg_out env source) w, Ok tt)
      else raise (RuntimeError ("ffmpeg failed: " ++ py_strip stderr))
  end.

Definition _copy_transcript_sidecar (env : Env) (source converted : string) : M unit :=
  sidecar <- lift (with_suffix ".json" source) ;;
  present <- path_exists sidecar ;;
  if negb present then ret tt
  else
    target <- lift (with_suffix ".json" converted) ;;
    r <- try_ (shutil_copy env sidecar target) ;;
    match r with
    | Ok _ => log ("Copied sidecar " ++ sidecar ++ " to " ++ target)
    | Raise exc => log ("Failed to copy sidecar " ++ sidecar ++ ": " ++ exn_str exc)
    end.

(** [_write_segments]: one [json.dumps] line per segment; the file is
    opened (and so created or emptied) before the loop. *)
Definition _write_segments (env : Env) (path : string) (segments : list Segment) : M unit :=
  write_text env path (String.concat "" (map (fun s => json_dumps env s ++ nl) segments)) ;;
  log ("Wrote " ++ path).

Definition placeholder_texts : list string := ["audio."; "audio"; "file"; "sound"].

Definition no_speech_text : string :=
  "(no speech detected or ASR backend returned no segments)".

(** The plain text [_transcribe] computes from the engine's result. *)
Definition transcribe_plain_text (result : TranscriptionResult.t) : string :=
  let segs := TranscriptionResult.segments result in
  let segment_texts :=
    map (fun s => py_strip (text s)) (filter (fun s => str_truthy (py_strip (text s))) segs) in
  let joined := py_strip (py_join nl segment_texts) in
  let candidate := py_strip (TranscriptionResult.text result) in
  if negb (str_truthy joined) then
    if str_truthy candidate && (8 <=? py_len candidate)%nat
       && negb (existsb (String.eqb (py_lower candidate)) placeholder_texts)
    then candidate
    else no_speech_text
  else joined.

(** The options [_transcribe] hands to the engine: [model_size] and
    [enable_dialect_map] from the payload, the dataclass's defaults else. *)
Definition transcribe_options (payload : JobPayload) : TranscriptionOptions.t :=
  TranscriptionOptions.mk (model_name payload) None true true true (dialect_mapping payload).

Definition _transcribe (env : Env) (job_uuid : string) (payload : JobPayload)
  : M ResultPayload :=
  let input_path := expanduser env (input_path payload) in
  present <- path_exists input_path ;;
  if negb present then raise (FileNotFoundError ("Audio file not found: " ++ input_path))
  else
  let job_dir := path_div (path_div (storage_dir env) "jobs") job_uuid in
  mkdir env job_dir ;;
  let prepared_audio := path_div job_dir "audio.wav" in
  _convert_audio env input_path prepared_audio ;;
  _copy_transcript_sidecar env input_path prepared_audio ;;
  result <- lift (engine_transcribe env prepared_audio (transcribe_options payload)) ;;
  let segments := TranscriptionResult.segments result in
  let plain_text := transcribe_plain_text result in
  let text_path := path_div job_dir "transcript.txt" in
  write_text env text_path plain_text ;;
  log ("Wrote transcript.txt with " ++ str_nat (py_len plain_text) ++ " characters") ;;
  let jsonl_path := path_div job_dir "segments.jsonl" in
  _write_segments env jsonl_path segments ;;
  let srt_path := path_div job_dir "transcript.srt" in
  srt <- lift (_to_srt segments) ;;
  write_text env srt_path srt ;;
  log ("Wrote " ++ srt_path) ;;
  let vtt_path := path_div job_dir "transcript.vtt" in
  vtt <- lift (_to_vtt segments) ;;
  write_text env vtt_path vtt ;;
  log ("Wrote " ++ vtt_path) ;;
  ret (mkResultPayload plain_text (TranscriptionResult.dialect_mapped_text result)
                       text_path srt_path vtt_path jsonl_path).

Definition _mark_job_finished (job_uuid : string) (payload : ResultPayload) : M unit :=
  db_session (
    job <- session_get job_uuid ;;
    match job with
    | None => log ("Job " ++ job_uuid ++ " missing when marking finished")
    | Some _ =>
        let text_value := result_text payload in
        text_value <-
          (if (negb (str_truthy text_value) || negb (str_truthy (py_strip text_value)))
              && str_truthy (txt_path payload)
           then r <- try_ (read_text (txt_path payload)) ;;
                match r with
                | Ok t => ret t
                | Raise (OSError _ as exc) =>
                    log ("Unable to read transcript for job " ++ job_uuid ++ ": "
                         ++ exn_str exc) ;; ret text_value
                | Raise exc => raise exc
                end
           else ret text_value) ;;
        st <- lift (JobStatus_attr "finished") ;;
        session_update job_uuid (TranscriptionJob.set_status st) ;;
        session_update job_uuid
          (TranscriptionJob.set_outputs (Some text_value) (Some (txt_path payload))
             (Some (srt_path payload)) (Some (vtt_path payload)) (Some (jsonl_path payload))) ;;
        (* [job.dialect_text] and [job.error_message] are plain attributes *)
        session_commit
    end).

Definition _mark_job_error (job_uuid : string) (message : string) : M unit :=
  db_session (
    job <- session_get job_uuid ;;
    match job with
    | None => log ("Job " ++ job_uuid ++ " missing when marking error")
    | Some _ =>
        st <- lift (JobStatus_attr "error") ;;
        session_update job_uuid (TranscriptionJob.set_status st) ;;
        (* [job.error_message = message or "Unknown error"]: a plain attribute *)
        session_commit
    end).

(** Lines 83-95 of [_run_transcription], once the job is acquired. *)
Definition _run_acquired (env : Env) (job_id job_uuid : string) (job_payload : JobPayload)
  : M unit :=
  r <- try_ (_transcribe env job_uuid job_payload) ;;
  match r with
  | Raise (FileNotFoundError _ as exc) =>
      log ("Input audio missing for job " ++ job_id ++ ": " ++ exn_str exc) ;;
      _mark_job_error job_uuid (exn_str exc)
  | Raise exc =>
      log ("Transcription failed for job " ++ job_id) ;;
      _mark_job_error job_uuid (exn_str exc)
  | Ok result_payload =>
      _mark_job_finished job_uuid result_payload ;;
      log ("Finished transcription job " ++ job_id)
  end.

Definition _run_transcription (env : Env) (job_id : string) (task : option Task) : M unit :=
  log ("Starting transcription job " ++ job_id) ;;
  match uuid_UUID env job_id with
  | None => log ("Invalid job id " ++ job_id)
  | Some job_uuid =>
      job_payload <- _acquire_job env job_uuid task ;;
      match job_payload with
      | None => ret tt
      | Some p => _run_acquired env job_id job_uuid p
      end
  end.

Definition transcribe_audio (env : Env) (self : Task) (job_id : string) : M unit :=
  _run_transcription env job_id (Some self).

(** The application [create_celery_app] returns: [None] when Celery or
    kombu's [Queue] could not be imported. *)
Record CeleryApp : Type := mkCeleryApp { broker_reachable : bool }.

Definition create_celery_app (celery_imported : bool) (broker_reachable : bool)
  : option CeleryApp :=
  if celery_imported then Some (mkCeleryApp broker_reachable) else None.

(** [transcribe_audio.apply_async(args=[job_id], queue=QUEUE_NAME)]. *)
Definition apply_async (app : CeleryApp) (job_id : string) : M unit :=
  if broker_reachable app then fun w => (push_queue job_id w, Ok tt)
  else raise OperationalError.

Definition enqueue_transcription (env : Env) (celery_app : option CeleryApp) (job_id : string)
  : M unit :=
  match celery_app with
  | Some app =>
      r <- try_ (apply_async app job_id) ;;
      match r with
      | Ok _ => ret tt
      | Raise exc =>
          log ("Celery enqueue failed for job " ++ job_id ++ ": " ++ exn_str exc) ;; raise exc
      end
  | None =>
      log ("Celery unavailable; running job " ++ job_id ++ " synchronously") ;;
      _run_transcription env job_id None
  end.

(** A Celery worker consuming one message of [transcribe_audio]: the task
    runs with [request.retries = retries]; when it raises [Retry] the
    message comes back with one more retry after the countdown.  The trace
    lists each execution's retry count, outcome and the delay before the
    next one. *)
Fixpoint celery_execute (env : Env) (fuel : nat) (job_id : string) (retries : nat) (w : World)
  : World * list (nat * outcome unit) :=
  match fuel with
  | O => (w, [])
  | S fuel' =>
      match transcribe_audio env (mkTask retries) job_id w with
      | (w', Raise (Retry countdown)) =>
          let '(w'', trace) := celery_execute env fuel' job_id (S retries) w' in
          (w'', (retries, Raise (Retry countdown)) :: trace)
      | (w', r) => (w', [(retries, r)])
      end
  end.

(* ------------------------------------------------------------------------ *)
(** * Segment postprocessing (backend/asr/engine.py, [ASREngine]) *)

Section Postprocessing.

(** The text passes the engine calls, each taking the text and the
    language: [asr.postprocess.itn_th.inverse_text_normalize],
    [normalize_th.normalize_text] and [punct_restore.restore_punctuation];
    and [LanguageIdentifier.detect] past its hint test (fastText model,
    script heuristics). *)
Variable inverse_text_normalize normalize_text restore_punctuation : string -> string -> string.
Variable detect_from_text : string -> string.

(** [LanguageIdentifier.detect(text, hint)]: the hint when it is given. *)
Definition detect (text : string) (hint : option string) : string :=
  match hint with
  | Some h => if str_truthy h then h else detect_from_text text
  | None => detect_from_text text
  end.

(** [_post_process_segment]: the segment comes back with its text and
    language replaced. *)
Definition _post_process_segment (segment : Segment) (options : TranscriptionOptions.t)
  : Segment :=
  let text0 := text segment in
  let language :=
    match language segment with
    | Some l => if str_truthy l then l
                else detect text0 (TranscriptionOptions.language_hint options)
    | None => detect text0 (TranscriptionOptions.language_hint options)
    end in
  let text1 := if TranscriptionOptions.enable_itn options
               then inverse_text_normalize text0 language else text0 in
  let text2 := normalize_text text1 language in
  let text3 := if TranscriptionOptions.enable_punct options
               then restore_punctuation text2 language else text2 in
  {| start := start segment; end_ := end_ segment; text := text3;
     confidence := confidence segment; speaker := speaker segment;
     language := Some language; words := words segment |}.

End Postprocessing.

(* ------------------------------------------------------------------------ *)
(** * Confidence of the faster-whisper adapter ([FasterWhisperBackend.transcribe]) *)

(** A Python value found as a segment's [avg_logprob]. *)
Inductive pyvalue : Type :=
| PyNone
| PyFloatV (f : pyfloat)
| PyStrV (s : string)
| PyOtherV.

(** [a < b] on floats; false as soon as one is NaN. *)
Definition py_lt (a b : pyfloat) : bool :=
  match a, b with
  | PyFin x, PyFin y => Qlt_bool x y
  | PyFin _, PyInf neg => negb neg
  | PyInf true, PyFin _ => true
  | PyInf true, PyInf false => true
  | _, _ => false
  end.

(** The builtins on two arguments: [min] keeps the first unless the second
    is smaller, [max] keeps the first unless the second is greater. *)
Definition py_min (a b : pyfloat) : pyfloat := if py_lt b a then b else a.
Definition py_max (a b : pyfloat) : pyfloat := if py_lt a b then b else a.

(** faster-whisper's raw segment, as the adapter reads it. *)
Record RawSegment : Type := mkRawSegment {
  raw_start : pyfloat;
  raw_end : pyfloat;
  raw_text : option string;
  avg_logprob : pyvalue;
}.

Section Confidence.

(** [float(x)] and [math.exp]; either may raise. *)
Variable py_float : pyvalue -> outcome pyfloat.
Variable math_exp : pyfloat -> outcome pyfloat.

(** Lines 162-168: the confidence of one segment. *)
Definition adapt_confidence (v : pyvalue) : outcome pyfloat :=
  match v with
  | PyNone => Ok (PyFin 0)
  | _ =>
      match obind (py_float v) math_exp with
      | Ok e => Ok (py_max (PyFin 0) (py_min (PyFin 1) e))
      | Raise TypeError | Raise ValueError => Ok (PyFin 0)
      | Raise e => Raise e
      end
  end.

Fixpoint adapt_segments (detected_language : option string) (raw : list RawSegment)
  : outcome (list Segment) :=
  match raw with
  | [] => Ok []
  | r :: rest =>
      let text := py_strip (match raw_text r with Some t => t | None => "" end) in
      obind (adapt_confidence (avg_logprob r)) (fun confidence =>
      obind (adapt_segments detected_language rest) (fun segments =>
      Ok ({| start := raw_start r; end_ := raw_end r; text := text;
             confidence := confidence; speaker := None;
             language := detected_language; words := [] |} :: segments)))
  end.

(** The segments the adapter returns for the model's segments: one empty
    segment when the model produced none. *)
Definition FasterWhisperBackend_transcribe (detected_language : option string)
  (raw : list RawSegment) : outcome (list Segment) :=
  obind (adapt_segments detected_language raw) (fun segments =>
  match segments with
  | [] => Ok [{| start := PyFin 0; end_ := PyFin 0; text := ""; confidence := PyFin 0;
                 speaker := None; language := None; words := [] |}]
  | _ => Ok segments
  end).

End Confidence.

(* ------------------------------------------------------------------------ *)
(** * Names used by the statements *)

(** Decimal digits are neither [:], [,] nor [.]. *)
Definition is_digit_char (c : ascii) : bool :=
  existsb (Ascii.eqb c) ["0";"1";"2";"3";"4";"5";"6";"7";"8";"9"]%char.

(** The job directory and the files [_transcribe] writes in it. *)
Definition job_dir (env : Env) (u : string) : string :=
  path_div (path_div (storage_dir env) "jobs") u.

Definition prepared_audio_path (env : Env) (u : string) : string :=
  path_div (job_dir env u) "audio.wav".

(** The path [_copy_transcript_sidecar] copies a sidecar to:
    [p.with_suffix(".json")], defined for every path with a non-empty name
    (as the prepared audio's, whose name is "audio.wav"); [p] stands in
    where [with_suffix] raises, as no copy is then made. *)
Definition json_sidecar (p : string) : string :=
  match with_suffix ".json" p with Ok t => t | Raise _ => p end.

Definition transcript_paths (env : Env) (u : string) : list string :=
  map (path_div (job_dir env u))
      ["transcript.txt"; "segments.jsonl"; "transcript.srt"; "transcript.vtt"].

(** [frame f m]: running [m] leaves the part [f] of the world as it was. *)
Definition frame {T A} (f : World -> T) (m : M A) : Prop :=
  forall w w' r, m w = (w', r) -> f w' = f w.

(** A float that is neither infinite nor NaN, and a segment list holding a
    start or end time that is not finite. *)
Definition is_finite (x : pyfloat) : bool :=
  match x with PyFin _ => true | _ => false end.

Definition has_nonfinite_time (segments : list Segment) : bool :=
  existsb (fun s => negb (is_finite (start s) && is_finite (end_ s))) segments.

(** The line [_acquire_job] logs when the database is not ready. *)
Definition db_not_ready_log (u : string) : string :=
  "Database not ready when fetching job " ++ u ++ ": OperationalError".

(** A segment whose confidence is a float of the closed interval [[0, 1]]. *)
Definition unit_confidence (s : Segment) : Prop :=
  exists q, confidence s = PyFin q /\ (0 <= q <= 1)%Q.

(* ------------------------------------------------------------------------ *)
(** * Sample inputs *)

Definition sample_uuid : string := "7d2f4c1a-3b5e-4f60-9a71-2c8d9e0f1a2b".
Definition sample_input : string := "/srv/uploads/meeting.wav".

(** Segments as the engine returns them. *)
Definition mk_segment (s e : Q) (t : string) : Segment :=
  {| start := PyFin s; end_ := PyFin e; text := t; confidence := PyFin (9 # 10);
     speaker := None; language := None; words := [] |}.

Definition sample_result (text : string) (segments : list Segment) : TranscriptionResult.t :=
  TranscriptionResult.mk text segments None.

(** A worker configuration: no ffmpeg, an engine returning no segment, and
    [fail] telling the paths whose writing raises [OSError]. *)
Definition sample_env (fail : string -> bool) : Env :=
  {| storage_dir := "/srv/storage"; default_model_size := "small";
     uuid_UUID := fun s => if String.eqb s sample_uuid then Some s else None;
     expanduser := fun s => s; fs_fails := fail; ffmpeg_bin := None;
     ffmpeg_run := fun _ => (0%Z, ""); ffmpeg_out := fun _ => "";
     engine_transcribe := fun _ _ => Ok (sample_result "" []);
     json_dumps := fun _ => "{}" |}.

Definition sample_job : TranscriptionJob.t :=
  TranscriptionJob.mk sample_uuid "meeting.wav" pending "small" None None None None None None.

Definition sample_payload : JobPayload := mkJobPayload sample_uuid sample_input "small" false.

(** A world whose database answers, with the given rows and the uploaded
    audio file. *)
Definition sample_world (rows : JobStore) : World :=
  {| db_up := true; committed := rows; working := rows;
     files := fun p => if String.eqb p sample_input then Some "RIFF" else None;
     writes := []; queue := []; logs := [] |}.

Definition ok_env : Env := sample_env (fun _ => false).

(** The same configuration where writing transcript.srt raises [OSError]. *)
Definition srt_failing_env : Env :=
  sample_env (fun q => String.eqb q (path_div (job_dir ok_env sample_uuid) "transcript.srt")).

(** Text passes that mark the text they saw, a segment tagged "lo" and
    options with the hint "th" and both switches of the text passes off. *)
Definition tag (mark : string) : string -> string -> string := fun t _ => t ++ mark.

Definition lo_segment : Segment :=
  {| start := PyFin 0; end_ := PyFin 1; text := "abc"; confidence := PyFin 1;
     speaker := None; language := Some "lo"; words := [] |}.

Definition toggles_off : TranscriptionOptions.t :=
  TranscriptionOptions.mk "small" (Some "th") true false false false.

(** [float(x)] on the values a faster-whisper segment may carry, and a
    stand-in for [math.exp] (the statements hold for every function). *)
Definition sample_py_float (v : pyvalue) : outcome pyfloat :=
  match v with
  | PyFloatV f => Ok f
  | PyStrV _ => Raise ValueError
  | _ => Raise TypeError
  end.

Definition sample_exp (f : pyfloat) : outcome pyfloat := Ok f.

Definition sample_raw : list RawSegment :=
  [mkRawSegment (PyFin 0) (PyFin 1) (Some " hello ") (PyFloatV (PyFin (-1 # 2)));
   mkRawSegment (PyFin 1) (PyFin 2) None PyNone;
   mkRawSegment (PyFin 2) (PyFin 3) (Some "world") (PyFloatV (PyInf false));
   mkRawSegment (PyFin 3) (PyFin 4) (Some "!") (PyStrV "n/a")].

Definition no_rows : JobStore := fun _ => None.
Definition pending_rows : JobStore :=
  fun k => if String.eqb k sample_uuid then Some sample_job else None.

(** The world of [sample_world] with the database down. *)
Definition offline_world : World :=
  {| db_up := false; committed := pending_rows; working := pending_rows;
     files := files (sample_world pending_rows); writes := []; queue := []; logs := [] |}.

(* ------------------------------------------------------------------------ *)
(** * Text postprocessing and diarization (backend/asr) *)

(** [f"SPEAKER_{index:02d}"] (asr/diarization.py, [Diarizer.assign_speakers]). *)
Definition speaker_label (index : nat) : string := "SPEAKER_" ++ fmt_int0 2 (Z.of_nat index).

(** [Diarizer.assign_speakers(audio_path, segments)]: no label for no
    segments, otherwise one label per segment in order. The audio is not read. *)
Definition assign_speakers (audio_path : string) (segments : list Segment) : list string :=
  match segments with
  | [] => []
  | _ => map speaker_label (seq 0 (length segments))
  end.

(** [segment.speaker = speaker]. *)
Definition set_speaker (segment : Segment) (sp : string) : Segment :=
  {| start := start segment; end_ := end_ segment; text := text segment;
     confidence := confidence segment; speaker := Some sp;
     language := language segment; words := words segment |}.

(** [for segment, speaker in zip(segments, labels): segment.speaker = speaker]:
    [zip] stops at the shorter list and the segments past it stay as they are. *)
Fixpoint zip_set_speaker (segments : list Segment) (labels : list string) : list Segment :=
  match segments, labels with
  | segment :: rest, sp :: labels' => set_speaker segment sp :: zip_set_speaker rest labels'
  | _, _ => segments
  end.

(** [ASREngine._apply_diarization] (asr/engine.py). *)
Definition _apply_diarization (segments : list Segment) (audio_path : string)
  (options : TranscriptionOptions.t) : list Segment :=
  if negb (TranscriptionOptions.enable_diarization options) then segments
  else let diarization_labels := assign_speakers audio_path segments in
       zip_set_speaker segments diarization_labels.

(** For the text passes of backend/asr/postprocess a Python [str] is its list
    of code points. [utf8_decode] reads the code points of UTF-8 bytes (a byte
    that starts no well-formed sequence stands for itself), and [ustr] gives
    the [str] of a Rocq string literal. *)
Definition ustring : Type := list Z.

Definition byte_value (a : ascii) : Z := Z.of_nat (nat_of_ascii a).

Fixpoint utf8_decode (l : list ascii) : ustring :=
  match l with
  | [] => []
  | a :: l1 =>
      let b := byte_value a in
      if (b <? 0xC0)%Z then b :: utf8_decode l1
      else match l1 with
           | a2 :: l2 =>
               let c2 := Z.land (byte_value a2) 0x3F in
               if (b <? 0xE0)%Z then Z.lor (Z.shiftl (Z.land b 0x1F) 6) c2 :: utf8_decode l2
               else match l2 with
                    | a3 :: l3 =>
                        let c3 := Z.land (byte_value a3) 0x3F in
                        if (b <? 0xF0)%Z then
                          Z.lor (Z.shiftl (Z.land b 0x0F) 12) (Z.lor (Z.shiftl c2 6) c3) :: utf8_decode l3
                        else match l3 with
                             | a4 :: l4 =>
                                 Z.lor (Z.shiftl (Z.land b 0x07) 18)
                                   (Z.lor (Z.shiftl c2 12) (Z.lor (Z.shiftl c3 6)
                                      (Z.land (byte_value a4) 0x3F))) :: utf8_decode l4
                             | [] => b :: utf8_decode l1
                             end
                    | [] => b :: utf8_decode l1
                    end
           | [] => [b]
           end
  end.

Definition ustr (s : string) : ustring := utf8_decode (list_ascii_of_string s).

(** ** asr/postprocess/normalize_th.py: numbers in Thai words *)
Section ThaiNumbers.
Local Open Scope list_scope.

(** [d.get(k, default)] on a dict with integer keys. *)
Definition dict_get {V} (d : list (N * V)) (k : N) (default : V) : V :=
  match find (fun kv => N.eqb (fst kv) k) d with Some (_, v) => v | None => default end.

(** [bool(s)] on a [str]. *)
Definition ustr_truthy (s : ustring) : bool := match s with [] => false | _ => true end.

(** [THAI_ONES] and [THAI_TENS] (lines 4-28). *)
Definition THAI_ONES : list (N * ustring) :=
  [(0%N, ustr "ศูนย์"); (1%N, ustr "หนึ่ง"); (2%N, ustr "สอง"); (3%N, ustr "สาม");
   (4%N, ustr "สี่"); (5%N, ustr "ห้า"); (6%N, ustr "หก"); (7%N, ustr "เจ็ด");
   (8%N, ustr "แปด"); (9%N, ustr "เก้า")].

Definition THAI_TENS : list (N * ustring) :=
  [(0%N, ustr ""); (1%N, ustr "สิบ"); (2%N, ustr "ยี่สิบ"); (3%N, ustr "สามสิบ");
   (4%N, ustr "สี่สิบ"); (5%N, ustr "ห้าสิบ"); (6%N, ustr "หกสิบ"); (7%N, ustr "เจ็ดสิบ");
   (8%N, ustr "แปดสิบ"); (9%N, ustr "เก้าสิบ")].

(** [_two_digit(number)] for [number >= 0] ([THAI_ONES[number]] cannot
    miss below 10). *)
Definition _two_digit (number : N) : ustring :=
  if (number <? 10)%N then dict_get THAI_ONES number []
  else if (number =? 10)%N then ustr "สิบ"
  else if (number <? 20)%N then
    (if (number =? 11)%N then ustr "สิบเอ็ด"
     else ustr "สิบ" ++ dict_get THAI_ONES (number - 10) [])
  else
    let tens := (number / 10)%N in
    let ones := (number mod 10)%N in
    if (ones =? 0)%N then dict_get THAI_TENS tens []
    else
      let ones_word := if (ones =? 1)%N then ustr "เอ็ด" else dict_get THAI_ONES ones [] in
      dict_get THAI_TENS tens [] ++ (if ustr_truthy ones_word then ones_word else []).

(** [_number_to_words(number)] for [number >= 0], the numbers it is called
    on ([int] of a digit string); [str(number)] is the decimal digits. *)
Definition _number_to_words (number : N) : ustring :=
  if (number <? 100)%N then _two_digit number
  else if (number <? 1000)%N then
    let hundreds := (number / 100)%N in
    let remainder := (number mod 100)%N in
    let parts := [dict_get THAI_ONES hundreds [] ++ ustr "ร้อย"] ++
                 (if negb (remainder =? 0)%N then [_two_digit remainder] else []) in
    concat parts
  else ustr (digits_N number).

(** The code points U+0E01..U+0E4F: Thai letters, vowels and tone marks
    (the Thai digits U+0E50..U+0E59 are not among them). *)
Definition is_thai_letter (c : Z) : bool := ((0x0E01 <=? c) && (c <? 0x0E50))%Z.

(** [==] on [str]. *)
Fixpoint ustring_eqb (a b : ustring) : bool :=
  match a, b with
  | [], [] => true
  | x :: a', y :: b' => Z.eqb x y && ustring_eqb a' b'
  | _, _ => false
  end.
End ThaiNumbers.

(** The numbers below 1000 and their words, checked by evaluation. *)
Definition below1000 : list N := map N.of_nat (seq 0 1000).
Definition words_table : list (N * ustring) := map (fun n => (n, _number_to_words n)) below1000.

(** ** [str] methods and the [re] module on code points *)
Section Ustr.
Local Open Scope list_scope.

(** [c.isspace()] for one code point, and the [\s] class of [re]. *)
Definition py_whitespace_cp : list Z := flat_map utf8_decode py_whitespace.
Definition u_isspace (c : Z) : bool := existsb (Z.eqb c) py_whitespace_cp.

(** [lstrip], [rstrip] and [strip] with no argument. *)
Fixpoint u_lstrip_by (p : Z -> bool) (s : ustring) : ustring :=
  match s with
  | c :: s' => if p c then u_lstrip_by p s' else s
  | [] => []
  end.

Definition u_lstrip (s : ustring) : ustring := u_lstrip_by u_isspace s.
Definition u_rstrip (s : ustring) : ustring := rev (u_lstrip (rev s)).
Definition u_strip (s : ustring) : ustring := u_rstrip (u_lstrip s).

(** [s.split()] with no argument: runs of whitespace separate the words,
    and no empty word is produced; [word] is the current word, reversed. *)
Fixpoint u_split_from (word : ustring) (s : ustring) : list ustring :=
  match s with
  | [] => if ustr_truthy word then [rev word] else []
  | c :: s' =>
      if u_isspace c then
        (if ustr_truthy word then rev word :: u_split_from [] s' else u_split_from [] s')
      else u_split_from (c :: word) s'
  end.

Definition u_split (s : ustring) : list ustring := u_split_from [] s.

(** [sep.join(l)]. *)
Fixpoint u_join (sep : ustring) (l : list ustring) : ustring :=
  match l with
  | [] => []
  | [x] => x
  | x :: l' => x ++ sep ++ u_join sep l'
  end.

(** [s.startswith(prefix)] and [s.endswith(suffixes)] for one-character suffixes. *)
Definition u_startswith (prefix s : ustring) : bool :=
  ustring_eqb (firstn (length prefix) s) prefix.

Definition u_endswith_any (suffixes : list Z) (s : ustring) : bool :=
  match rev s with c :: _ => existsb (Z.eqb c) suffixes | [] => false end.

(** A pattern is a list of pieces: an item ([RClass p mn mx] is a class
    with the quantifier [{mn,mx}], greedy; [RAlt] an alternation of
    literals; [RBehind p] the lookbehind [(?<=[...])] on the previous code
    point) or a capturing group of items. *)
Inductive re_item : Type :=
| RClass (p : Z -> bool) (mn : nat) (mx : option nat)
| RAlt (alts : list ustring)
| RBehind (p : Z -> bool).

Inductive re_piece : Type :=
| RItem (i : re_item)
| RGroup (items : list re_item).

(** The number of leading code points in the class. *)
Fixpoint run_length (p : Z -> bool) (s : ustring) : nat :=
  match s with
  | c :: s' => if p c then S (run_length p s') else 0
  | [] => 0
  end.

Fixpoint first_some {A B} (f : A -> option B) (l : list A) : option B :=
  match l with
  | [] => None
  | x :: l' => match f x with Some b => Some b | None => first_some f l' end
  end.

(** The code point before the rest of the text, after [m] was consumed. *)
Definition last_cp (prev : option Z) (m : ustring) : option Z :=
  match rev m with c :: _ => Some c | [] => prev end.

(** Backtracking matcher, in continuation-passing style: a greedy class
    tries its longest run first, then shorter ones down to [mn]; an
    alternation tries its literals in order. *)
Fixpoint match_items {A} (items : list re_item) (prev : option Z) (s : ustring)
  (k : option Z -> ustring -> option A) : option A :=
  match items with
  | [] => k prev s
  | RClass p mn mx :: items' =>
      let avail := run_length p s in
      let hi := match mx with Some m => Nat.min m avail | None => avail end in
      first_some (fun n => match_items items' (last_cp prev (firstn n s)) (skipn n s) k)
                 (rev (seq mn (S hi - mn)))
  | RAlt alts :: items' =>
      first_some (fun a => if u_startswith a s
                           then match_items items' (last_cp prev a) (skipn (length a) s) k
                           else None) alts
  | RBehind p :: items' =>
      match prev with
      | Some c => if p c then match_items items' prev s k else None
      | None => None
      end
  end.

Fixpoint match_pieces {A} (pieces : list re_piece) (prev : option Z) (s : ustring)
  (k : list ustring -> option Z -> ustring -> option A) : option A :=
  match pieces with
  | [] => k [] prev s
  | RItem i :: ps => match_items [i] prev s (fun prev' s' => match_pieces ps prev' s' k)
  | RGroup items :: ps =>
      match_items items prev s (fun prev' s' =>
        match_pieces ps prev' s' (fun gs => k (firstn (length s - length s') s :: gs)))
  end.

(** [pattern.match(s, pos)]: the groups and the rest of the text. *)
Definition re_match_at (pieces : list re_piece) (prev : option Z) (s : ustring)
  : option (list ustring * ustring) :=
  match_pieces pieces prev s (fun gs _ rest => Some (gs, rest)).

(** The text cut at the matches [re.finditer] finds: a code point outside
    every match, or a match with its groups. *)
Inductive re_token : Type :=
| Lit (c : Z)
| Hit (groups : list ustring) (matched : ustring).

(** Scanning left to right, as [re.sub] and [re.split] do; an empty match
    is taken as no match (none of the patterns below matches the empty
    string). The fuel is the length of the text. *)
Fixpoint re_scan_from (fuel : nat) (pieces : list re_piece) (prev : option Z) (s : ustring)
  : list re_token :=
  match s with
  | [] => []
  | c :: s' =>
      match fuel with
      | O => map Lit s
      | S fuel' =>
          match re_match_at pieces prev s with
          | Some (gs, rest) =>
              if Nat.ltb (length rest) (length s) then
                let m := firstn (length s - length rest) s in
                Hit gs m :: re_scan_from fuel' pieces (last_cp prev m) rest
              else Lit c :: re_scan_from fuel' pieces (Some c) s'
          | None => Lit c :: re_scan_from fuel' pieces (Some c) s'
          end
      end
  end.

Definition re_scan (pieces : list re_piece) (s : ustring) : list re_token :=
  re_scan_from (length s) pieces None s.

(** [re.sub(pattern, repl, s)], the replacement computed from the groups. *)
Definition re_sub (pieces : list re_piece) (repl : list ustring -> ustring) (s : ustring) : ustring :=
  concat (map (fun t => match t with Lit c => [c] | Hit gs _ => repl gs end) (re_scan pieces s)).

(** [re.split(pattern, s)] for a pattern with no group. *)
Fixpoint split_tokens (piece : ustring) (ts : list re_token) : list ustring :=
  match ts with
  | [] => [rev piece]
  | Lit c :: ts' => split_tokens (c :: piece) ts'
  | Hit _ _ :: ts' => rev piece :: split_tokens [] ts'
  end.

Definition re_split (pieces : list re_piece) (s : ustring) : list ustring :=
  split_tokens [] (re_scan pieces s).

(** [r"\s+"]. *)
Definition ws_pattern : list re_piece := [RItem (RClass u_isspace 1 None)].

End Ustr.

(** ** [normalize_th.normalize_text] *)
Section NormalizeTh.
Local Open Scope list_scope.
(** [unicodedata.decimal(c, None)]: the value of a decimal digit (Unicode
    category Nd), which [\d] matches and [int] reads. *)
Variable decimal : Z -> option nat.

Definition is_decimal (c : Z) : bool := match decimal c with Some _ => true | None => false end.

(** [int(digits)] on a string of decimal digits. *)
Definition py_int_str (digits : ustring) : N :=
  fold_left (fun acc c => (acc * 10 + N.of_nat (match decimal c with Some v => v | None => 0 end))%N)
            digits 0%N.

(** [r"(\d{1,2})[.:](\d{2})"] (line 68) and the pattern of line 73, with
    their replacements. In the source, line 73 holds two literal backspace
    characters (U+0008) around the group [(\d{1,3})]: a run of one to three
    digits is rewritten only when a backspace stands on each side of it. *)
Definition time_pattern : list re_piece :=
  [RGroup [RClass is_decimal 1 (Some 2)];
   RItem (RClass (fun c => Z.eqb c 46 || Z.eqb c 58) 1 (Some 1));
   RGroup [RClass is_decimal 2 (Some 2)]].

Definition number_pattern : list re_piece :=
  [RItem (RClass (fun c => Z.eqb c 8) 1 (Some 1));
   RGroup [RClass is_decimal 1 (Some 3)];
   RItem (RClass (fun c => Z.eqb c 8) 1 (Some 1))].

Definition time_words (gs : list ustring) : ustring :=
  match gs with
  | [g1; g2] => _number_to_words (py_int_str g1) ++ ustr "โมง" ++ _number_to_words (py_int_str g2)
  | _ => []
  end.

Definition number_words (gs : list ustring) : ustring :=
  match gs with [g1] => _number_to_words (py_int_str g1) | _ => [] end.

(** [normalize_text(text, language)] (lines 61-77). *)
Definition normalize_text (text language : ustring) : ustring :=
  let normalized := text in
  let normalized := u_strip (re_sub ws_pattern (fun _ => [32%Z]) normalized) in
  if negb (ustr_truthy normalized) then normalized
  else if u_startswith (ustr "th") language then
    let normalized := re_sub time_pattern time_words normalized in
    re_sub number_pattern number_words normalized
  else normalized.
End NormalizeTh.

(** ** asr/postprocess/punct_restore.py *)
Section Punct.
Local Open Scope list_scope.
(** [r"(?<=[.!?])\s+"]. *)
Definition sentence_end_pattern : list re_piece :=
  [RItem (RBehind (fun c => existsb (Z.eqb c) (ustr ".!?"))); RItem (RClass u_isspace 1 None)].

(** [_restore_thai(text)] (lines 12-22); [sentence + ""] leaves the sentence as it is. *)
Definition _restore_thai (text : ustring) : ustring :=
  let sentences := re_split sentence_end_pattern text in
  let sentences := map u_strip (filter (fun segment => ustr_truthy (u_strip segment)) sentences) in
  if match sentences with [] => true | _ => false end then u_strip text
  else
    let formatted := map (fun sentence =>
          if negb (u_endswith_any (ustr ".!?ๆ") sentence) then sentence ++ [] else sentence)
        sentences in
    u_join [32%Z] formatted.
End Punct.

(** ** asr/postprocess/itn_th.py *)
Section Itn.
Local Open Scope list_scope.
Variable decimal : Z -> option nat.

(** [_normalize_time(text)]: its pattern [r"(\d{1,2})[:.](\d{2})"] is
    [time_pattern] (the class written [.:] there), replaced by
    [f"{m.group(1)}โมง{m.group(2)}"]. *)
Definition itn_time_words (gs : list ustring) : ustring :=
  match gs with [g1; g2] => g1 ++ ustr "โมง" ++ g2 | _ => [] end.

Definition _normalize_time (text : ustring) : ustring :=
  re_sub (time_pattern decimal) itn_time_words text.

(** [_normalize_currency(text)]: the pattern of line 20, a first group of one
    or more digits, an optional "." or "," and any digits, then an optional
    whitespace and a second group "บาท" or "฿"; replaced by
    [f"{m.group(1)}บาท"]. *)
Definition currency_pattern : list re_piece :=
  [RGroup [RClass (is_decimal decimal) 1 None;
           RClass (fun c => Z.eqb c 46 || Z.eqb c 44) 0 (Some 1);
           RClass (is_decimal decimal) 0 None];
   RItem (RClass u_isspace 0 (Some 1));
   RGroup [RAlt [ustr "บาท"; ustr "฿"]]].

Definition currency_words (gs : list ustring) : ustring :=
  match gs with g1 :: _ => g1 ++ ustr "บาท" | [] => [] end.

Definition _normalize_currency (text : ustring) : ustring :=
  re_sub currency_pattern currency_words text.

(** [inverse_text_normalize(text, language)] (lines 5-11). *)
Definition inverse_text_normalize (text language : ustring) : ustring :=
  if negb (ustr_truthy text) then text
  else if u_startswith (ustr "th") language then _normalize_currency (_normalize_time text)
  else text.
End Itn.

(** ** asr/postprocess/dialect_map.py

    The inner dicts of [DEFAULT_MAPPING] are objects shared by every
    [DialectMapper]: they live in a [store], and a region table maps a region
    name to a reference into it. [DEFAULT_MAPPING.copy()] copies the outer
    dict only, so the copy holds the same references. A dict created by
    [setdefault] is a new cell at the end of the store. *)
Section DialectDefs.
Local Open Scope list_scope.

(** A [Dict[str, str]] as its items in insertion order. *)
Definition str_dict : Type := list (ustring * ustring).

(** [d.get(k)], also [k in d] followed by [d[k]]. *)
Fixpoint dict_lookup (k : ustring) (d : str_dict) : option ustring :=
  match d with
  | [] => None
  | (k', v) :: d' => if ustring_eqb k' k then Some v else dict_lookup k d'
  end.

(** [d[k] = v]: an existing key keeps its place, a new one goes last. *)
Fixpoint dict_setitem (d : str_dict) (k v : ustring) : str_dict :=
  match d with
  | [] => [(k, v)]
  | (k', v') :: d' => if ustring_eqb k' k then (k', v) :: d' else (k', v') :: dict_setitem d' k v
  end.

(** [d.update(values)]. *)
Definition dict_update (d values : str_dict) : str_dict :=
  fold_left (fun d kv => dict_setitem d (fst kv) (snd kv)) values d.

Definition store : Type := list str_dict.

Definition store_get (h : store) (r : nat) : str_dict := nth r h [].

Fixpoint store_set (h : store) (r : nat) (d : str_dict) : store :=
  match h, r with
  | [], _ => []
  | _ :: h', O => d :: h'
  | x :: h', S r' => x :: store_set h' r' d
  end.

(** A [Dict[str, Dict[str, str]]]: region names and references into the store. *)
Definition table : Type := list (ustring * nat).

(** [DEFAULT_MAPPING] (lines 9-25): the outer dict, and the store holding its
    three inner dicts at references 0, 1 and 2. *)
Definition DEFAULT_MAPPING : table := [(ustr "north", 0); (ustr "isan", 1); (ustr "south", 2)].

Definition DEFAULT_STORE : store :=
  [[(ustr "ยะ", ustr "นะ"); (ustr "กึ๊ด", ustr "คิด"); (ustr "ละอ่อน", ustr "เด็ก")];
   [(ustr "อยู่จักได๋", ustr "อยู่ที่ไหน"); (ustr "กินเข่า", ustr "กินข้าว"); (ustr "เฮ็ด", ustr "ทำ")];
   [(ustr "ม่ายหล่าว", ustr "ไม่หรอก"); (ustr "เหลย", ustr "เลย"); (ustr "แลน", ustr "วิ่ง")]].

(** [tables.get(key)]. *)
Definition table_get (t : table) (key : ustring) : option nat :=
  match find (fun kr => ustring_eqb (fst kr) key) t with Some (_, r) => Some r | None => None end.

(** [tables.setdefault(key, {})]: the table, the store and the reference. *)
Definition table_setdefault (t : table) (h : store) (key : ustring) : table * store * nat :=
  match table_get t key with
  | Some r => (t, h, r)
  | None => (t ++ [(key, length h)], h ++ [[]], length h)
  end.

(** Lines 45-46: [for key, values in self.custom_tables.items():
    tables.setdefault(key, {}).update(values)]. *)
Fixpoint apply_custom (t : table) (h : store) (custom : list (ustring * str_dict)) : table * store :=
  match custom with
  | [] => (t, h)
  | (key, values) :: rest =>
      let '(t', h', r) := table_setdefault t h key in
      apply_custom t' (store_set h' r (dict_update (store_get h' r) values)) rest
  end.

(** [DialectMapper]: its [custom_tables], a dict of region names to dicts. *)
Record DialectMapper : Type := mkDialectMapper {
  custom_tables : list (ustring * str_dict)
}.

(** [self.custom_tables.get(key)]. *)
Definition custom_get (custom : list (ustring * str_dict)) (key : ustring) : option str_dict :=
  match find (fun kv => ustring_eqb (fst kv) key) custom with Some (_, v) => Some v | None => None end.

Variable str_lower : ustring -> ustring.

(** Lines 49-59, the loop over the tokens; [region] is the loop's variable,
    lowered again at each token. *)
Fixpoint map_tokens (tables : table) (h : store) (region : option ustring) (segments : list ustring)
    : list ustring :=
  match segments with
  | [] => []
  | token :: rest =>
      let '(region', replacement) :=
        match region with
        | Some r =>
            if ustr_truthy r then
              let r' := str_lower r in
              (Some r', match table_get tables r' with
                        | Some ref => dict_lookup token (store_get h ref)
                        | None => None
                        end)
            else (region, first_some (fun kr => dict_lookup token (store_get h (snd kr))) tables)
        | None => (region, first_some (fun kr => dict_lookup token (store_get h (snd kr))) tables)
        end in
      (match replacement with Some v => if ustr_truthy v then v else token | None => token end)
        :: map_tokens tables h region' rest
  end.

(** [DialectMapper.map_text(text, region)] (lines 43-60), with the store
    before and after. *)
Definition map_text (self : DialectMapper) (h : store) (text : ustring) (region : option ustring)
    : store * ustring :=
  let '(tables, h') := apply_custom DEFAULT_MAPPING h (custom_tables self) in
  (h', u_join [32%Z] (map_tokens tables h' region (u_split text))).
End DialectDefs.

Section TextDefs.
Local Open Scope list_scope.

(** ** Names used by the statements on the text passes *)

(** The strings an item list and a piece list accept, as relations. *)
Fixpoint items_accept (items : list re_item) (prev : option Z) (m : ustring) : Prop :=
  match items with
  | [] => m = []
  | RClass p mn mx :: items' =>
      exists m1 m2, m = m1 ++ m2 /\ forallb p m1 = true /\ mn <= length m1 /\
        match mx with Some x => length m1 <= x | None => True end /\
        items_accept items' (last_cp prev m1) m2
  | RAlt alts :: items' =>
      exists a m2, In a alts /\ m = a ++ m2 /\ items_accept items' (last_cp prev a) m2
  | RBehind p :: items' =>
      (exists c, prev = Some c /\ p c = true) /\ items_accept items' prev m
  end.

Fixpoint pieces_accept (pieces : list re_piece) (prev : option Z) (m : ustring)
  (gs : list ustring) : Prop :=
  match pieces with
  | [] => m = [] /\ gs = []
  | RItem i :: ps =>
      exists m1 m2, m = m1 ++ m2 /\ items_accept [i] prev m1 /\
        pieces_accept ps (last_cp prev m1) m2 gs
  | RGroup items :: ps =>
      exists m1 m2 gs', m = m1 ++ m2 /\ gs = m1 :: gs' /\ items_accept items prev m1 /\
        pieces_accept ps (last_cp prev m1) m2 gs'
  end.

(** The text a token covers, and what the scanner guarantees of each token:
    a code point left alone starts no match, a match is non-empty and
    accepted by the pattern. *)
Definition tok_text (t : re_token) : ustring :=
  match t with Lit c => [c] | Hit _ m => m end.

Fixpoint scan_ok (pieces : list re_piece) (prev : option Z) (ts : list re_token) : Prop :=
  match ts with
  | [] => True
  | Lit c :: ts' =>
      (forall gs rest, re_match_at pieces prev (c :: concat (map tok_text ts')) = Some (gs, rest) ->
                       rest = c :: concat (map tok_text ts')) /\
      scan_ok pieces (Some c) ts'
  | Hit gs m :: ts' =>
      m <> [] /\ pieces_accept pieces prev m gs /\
      re_match_at pieces prev (m ++ concat (map tok_text ts')) = Some (gs, concat (map tok_text ts')) /\
      scan_ok pieces (last_cp prev m) ts'
  end.

(** Text in the shape [" ".join(words)]: every whitespace code point is a
    single space between two non-space code points. *)
Inductive ws_state : Type := AtStart | InWord | AfterSpace.

Fixpoint ws_canon (st : ws_state) (t : ustring) : bool :=
  match t with
  | [] => match st with AfterSpace => false | _ => true end
  | c :: t' =>
      if u_isspace c then
        match st with InWord => Z.eqb c 32 && ws_canon AfterSpace t' | _ => false end
      else ws_canon InWord t'
  end.

(** Not [isspace]. *)
Definition nonspace (c : Z) : bool := negb (u_isspace c).

(** What [re.sub] puts in place of a token. *)
Definition tok_render (repl : list ustring -> ustring) (t : re_token) : ustring :=
  match t with Lit c => [c] | Hit gs _ => repl gs end.

(** The tokens of [r"\s+"]: code points left alone are not whitespace,
    matches are whitespace runs and two matches never follow each other. *)
Fixpoint ws_shape (ts : list re_token) : Prop :=
  match ts with
  | [] => True
  | Lit c :: ts' => u_isspace c = false /\ ws_shape ts'
  | Hit _ m :: ts' =>
      m <> [] /\ forallb u_isspace m = true /\
      match ts' with Hit _ _ :: _ => False | _ => True end /\ ws_shape ts'
  end.

(** Every whitespace code point is a space, not followed by whitespace. *)
Fixpoint sp_single (r : ustring) : bool :=
  match r with
  | [] => true
  | c :: r' =>
      (if u_isspace c then Z.eqb c 32 && match r' with d :: _ => negb (u_isspace d) | [] => true end
       else true) && sp_single r'
  end.

(** What the statements assume of [unicodedata.decimal]: a digit's value is
    below 10, no digit is whitespace, and no Thai letter (nor "." or ":") is
    a digit. *)
Definition Nd_model (decimal : Z -> option nat) : Prop :=
  (forall c v, decimal c = Some v -> v < 10) /\
  (forall c, is_decimal decimal c = true -> u_isspace c = false) /\
  (forall c, is_thai_letter c = true -> decimal c = None) /\
  decimal 46%Z = None /\ decimal 58%Z = None.

(** [_restore_english(text)] (lines 25-29). *)
Definition _restore_english (text : ustring) : ustring :=
  let text := u_strip text in
  match rev text with
  | c :: _ => if negb (existsb (Z.eqb c) (ustr ".!?")) then text ++ ustr "." else text
  | [] => text
  end.

(** [restore_punctuation(text, language)] (lines 4-9). *)
Definition restore_punctuation (text language : ustring) : ustring :=
  if negb (ustr_truthy text) then text
  else if u_startswith (ustr "en") language then _restore_english text
  else _restore_thai text.

(** A text that [strip] leaves as it is: empty, or beginning and ending with
    a non-space code point. *)
Definition stripped (z : ustring) : Prop :=
  z = [] \/ ((forall c z', z = c :: z' -> u_isspace c = false) /\
             (forall x d, z = x ++ [d] -> u_isspace d = false)).

(** [unicodedata.decimal] on the ASCII and Thai digits, for the examples. *)
Definition sample_decimal (c : Z) : option nat :=
  if ((48 <=? c) && (c <=? 57))%Z then Some (Z.to_nat (c - 48))
  else if ((0x0E50 <=? c) && (c <=? 0x0E59))%Z then Some (Z.to_nat (c - 0x0E50))
  else None.

End TextDefs.

(* ------------------------------------------------------------------------ *)
(** * Lemmas on floats, strings and timestamps *)

Section FloatFacts.
Import Decimal.
Local Open Scope Q_scope.

Lemma Qred_inject_Z (n : Z) : Qred (inject_Z n) = inject_Z n.
Proof.
  unfold Qred, inject_Z.
  pose proof (Z.ggcd_gcd n 1) as Hg. pose proof (Z.ggcd_correct_divisors n 1) as Hd.
  destruct (Z.ggcd n 1) as [g [aa bb]]. simpl in *.
  rewrite Z.gcd_1_r in Hg. subst g. destruct Hd as [Ha Hb].
  rewrite Z.mul_1_l in Ha, Hb. subst. reflexivity.
Qed.

Lemma round_double_compat (p q : Q) : p == q -> round_double p = round_double q.
Proof. intros H. unfold round_double. now rewrite (Qred_complete p q H). Qed.

Lemma round_half_even_int (q : Q) (z : Z) : q == inject_Z z -> round_half_even q = z.
Proof.
  intros H. unfold round_half_even.
  assert (Hf : Qfloor q = z) by (rewrite (Qfloor_comp q (inject_Z z) H); apply Qfloor_Z).
  rewrite Hf.
  destruct (Qlt_le_dec (q - inject_Z z) (1 # 2)) as [_|Hle]; [reflexivity|].
  exfalso. rewrite H in Hle. ring_simplify in Hle. lra.
Qed.

Lemma pow2Q_neg_mul (d : Z) : (0 <= d)%Z -> inject_Z (2 ^ d) * pow2Q (- d) == 1.
Proof.
  intros Hd. unfold pow2Q.
  destruct (Z.leb_spec 0 (- d)) as [H|H].
  - assert (d = 0)%Z by lia. subst. reflexivity.
  - rewrite Z.opp_involutive. unfold Qeq, Qmult; simpl.
    rewrite ?Pos.mul_1_r, ?Pos.mul_1_l.
    rewrite Z2Pos.id by (apply Z.pow_pos_nonneg; lia). lia.
Qed.

Lemma round_double_int (n : Z) :
  (0 <= n < 2 ^ 53)%Z -> round_double (inject_Z n) == inject_Z n.
Proof.
  intros [H0 H53]. unfold round_double. rewrite Qred_inject_Z.
  destruct n as [|p|p]; simpl Qnum; [reflexivity| |lia].
  unfold round_pos, Qlog2_floor. simpl Qnum. simpl Qden.
  change (Z.log2 (Z.pos 1)) with 0%Z. rewrite Z.sub_0_r.
  pose proof (Z.log2_nonneg (Zpos p)) as Hl0.
  pose proof (Z.log2_spec (Zpos p) ltac:(lia)) as [Hlo Hhi].
  assert (Hl53 : (Z.log2 (Zpos p) < 53)%Z) by (apply Z.log2_lt_pow2; lia).
  assert (Hk : Qle_bool (pow2Q (Z.log2 (Zpos p))) (inject_Z (Zpos p)) = true).
  { unfold pow2Q. destruct (Z.leb_spec 0 (Z.log2 (Zpos p))); [|lia].
    apply Qle_bool_iff. unfold inject_Z, Qle; cbn [Qnum Qden]. lia. }
  rewrite Hk.
  set (l := Z.log2 (Zpos p)) in *.
  rewrite Z.max_r by lia.
  set (d := (52 - l)%Z).
  replace (- (l - 52))%Z with d by (unfold d; lia).
  replace (l - 52)%Z with (- d)%Z by (unfold d; lia).
  assert (Hd : (0 <= d)%Z) by (unfold d; lia).
  assert (Hp : pow2Q d = inject_Z (2 ^ d)).
  { unfold pow2Q. destruct (Z.leb_spec 0 d); [reflexivity|lia]. }
  rewrite Hp.
  rewrite (round_half_even_int _ (Zpos p * 2 ^ d)) by (rewrite inject_Z_mult; reflexivity).
  rewrite inject_Z_mult, <- Qmult_assoc, pow2Q_neg_mul by exact Hd.
  ring.
Qed.

Lemma round_double_zero : round_double 0 = 0.
Proof. reflexivity. Qed.

Lemma Qtrunc_nonneg (q : Q) : 0 <= q -> Qtrunc q = Qfloor q.
Proof. intros H. unfold Qtrunc. apply Qle_bool_iff in H. now rewrite H. Qed.

Lemma Qfloor_nonneg (q : Q) : 0 <= q -> (0 <= Qfloor q)%Z.
Proof.
  intros H. pose proof (Qlt_floor q) as H1.
  destruct (Z.le_gt_cases 0 (Qfloor q)) as [|Hlt]; [assumption|].
  exfalso. assert (Hm : (Qfloor q + 1 <= 0)%Z) by lia.
  rewrite Zle_Qle, inject_Z_plus in Hm. rewrite inject_Z_plus in H1. change (inject_Z 1) with 1 in *. change (inject_Z 0) with 0 in *. lra.
Qed.

Lemma float_div_mod_exact (x : Q) (y : Z) :
  0 <= x -> (0 < y)%Z -> x < inject_Z (2 ^ 53) ->
  fst (float_div_mod x (inject_Z y)) == inject_Z (Qfloor (x / inject_Z y)) /\
  snd (float_div_mod x (inject_Z y)) == x - inject_Z y * inject_Z (Qfloor (x / inject_Z y)).
Proof.
  intros Hx Hy H53.
  assert (Hyq : 0 < inject_Z y) by (change 0 with (inject_Z 0); rewrite <- Zlt_Qlt; lia).
  set (k := Qfloor (x / inject_Z y)).
  assert (Hxy : 0 <= x / inject_Z y) by (apply Qle_shift_div_l; lra).
  assert (Hk0 : (0 <= k)%Z) by (apply Qfloor_nonneg; exact Hxy).
  assert (Hkle : inject_Z y * inject_Z k <= x).
  { pose proof (Qfloor_le (x / inject_Z y)) as Hf. fold k in Hf.
    apply (Qmult_le_compat_r _ _ (inject_Z y)) in Hf; [|lra].
    assert (Hid : x / inject_Z y * inject_Z y == x) by (field; intro E; rewrite E in Hyq; discriminate).
    lra. }
  assert (Hyk : (0 <= y * k < 2 ^ 53)%Z).
  { split; [nia|]. rewrite Zlt_Qlt, inject_Z_mult. lra. }
  assert (Hk53 : (0 <= k < 2 ^ 53)%Z) by nia.
  assert (Htr : Qtrunc (x / inject_Z y) = k) by (apply Qtrunc_nonneg; exact Hxy).
  assert (Hm : c_fmod x (inject_Z y) == x - inject_Z y * inject_Z k)
    by (unfold c_fmod; rewrite Htr; reflexivity).
  assert (Hsub : round_double (x - c_fmod x (inject_Z y)) == inject_Z (y * k)).
  { rewrite (round_double_compat _ (inject_Z (y * k))) by (rewrite Hm, inject_Z_mult; ring).
    apply round_double_int; exact Hyk. }
  assert (Hdiv : round_double (round_double (x - c_fmod x (inject_Z y)) / inject_Z y) == inject_Z k).
  { rewrite (round_double_compat _ (inject_Z k)).
    - apply round_double_int; exact Hk53.
    - rewrite Hsub, inject_Z_mult. field. intro E; rewrite E in Hyq; discriminate. }
  unfold float_div_mod.
  set (m := c_fmod x (inject_Z y)) in *.
  set (div := round_double (round_double (x - m) / inject_Z y)) in *.
  assert (Hsign : negb (Bool.eqb (Qlt_bool (inject_Z y) 0) (Qlt_bool m 0)) = false).
  { unfold Qlt_bool.
    rewrite (proj2 (Qle_bool_iff 0 (inject_Z y))) by lra.
    rewrite (proj2 (Qle_bool_iff 0 m)) by lra. reflexivity. }
  rewrite Hsign.
  assert (Hfl : (if Qeq_bool div 0 then 0
                 else let f := inject_Z (Qfloor div) in
                      if Qlt_bool (1 # 2) (round_double (div - f)) then f + 1 else f)
                == inject_Z k).
  { destruct (Qeq_bool div 0) eqn:E.
    - apply Qeq_bool_iff in E. rewrite <- Hdiv, E. reflexivity.
    - cbv zeta. rewrite (Qfloor_comp _ _ Hdiv), Qfloor_Z.
      rewrite (round_double_compat _ 0) by (rewrite Hdiv; ring). reflexivity. }
  destruct (Qeq_bool m 0) eqn:Em; cbn [fst snd]; split; try exact Hfl.
  - apply Qeq_bool_iff in Em. lra.
  - exact Hm.
Qed.

Local Open Scope string_scope.

Lemma str_app_assoc (a b c : string) : (a ++ b) ++ c = a ++ (b ++ c).
Proof. induction a as [|x a IH]; simpl; [reflexivity|]. rewrite IH. reflexivity. Qed.

Lemma replace_char_app (a b : ascii) (s t : string) :
  replace_char a b (s ++ t) = replace_char a b s ++ replace_char a b t.
Proof. induction s; simpl; congruence. Qed.

Lemma replace_char_none (a b : ascii) (s : string) :
  has_char a s = false -> replace_char a b s = s.
Proof.
  induction s as [|d s IH]; simpl; [reflexivity|].
  intros H. apply orb_false_iff in H as [H1 H2]. rewrite H1, IH by exact H2. reflexivity.
Qed.

Lemma has_char_app (c : ascii) (s t : string) :
  has_char c (s ++ t) = has_char c s || has_char c t.
Proof. induction s; simpl; [reflexivity|]. rewrite IHs, orb_assoc. reflexivity. Qed.


Lemma has_char_uint (c : ascii) (d : uint) :
  is_digit_char c = false -> has_char c (NilEmpty.string_of_uint d) = false.
Proof.
  intros Hc. unfold is_digit_char in Hc; simpl in Hc.
  repeat (apply orb_false_iff in Hc as [? Hc]).
  induction d; cbn [NilEmpty.string_of_uint has_char]; try reflexivity;
    rewrite IHd, orb_false_r, Ascii.eqb_sym; assumption.
Qed.

Lemma split_char_app (c : ascii) (a b : string) :
  has_char c a = false -> split_char c (a ++ String c b) = a :: split_char c b.
Proof.
  induction a as [|d a IH]; cbn [String.append split_char has_char].
  - intros _. now rewrite Ascii.eqb_refl.
  - intros H. apply orb_false_iff in H as [H1 H2]. now rewrite H1, IH.
Qed.

Lemma split_char_none (c : ascii) (a : string) :
  has_char c a = false -> split_char c a = [a].
Proof.
  induction a as [|d a IH]; cbn [split_char has_char]; [reflexivity|].
  intros H. apply orb_false_iff in H as [H1 H2]. now rewrite H1, IH.
Qed.

Lemma uint_of_string_zeros (k : nat) (s : string) (d : uint) :
  NilEmpty.uint_of_string s = Some d ->
  exists d', NilEmpty.uint_of_string (zeros k ++ s) = Some d' /\ N.of_uint d' = N.of_uint d.
Proof.
  intros H. induction k as [|k [d' [H1 H2]]].
  - exists d. split; [exact H | reflexivity].
  - exists (D0 d'). cbn [zeros String.append NilEmpty.uint_of_string]. rewrite H1.
    split; [reflexivity|]. rewrite <- H2, <- (Unsigned.of_uint_norm (D0 d')).
    rewrite <- (Unsigned.of_uint_norm d'). reflexivity.
Qed.

Lemma parse_uint_zeros (k : nat) (n : N) : parse_uint (zeros k ++ digits_N n) = Some n.
Proof.
  unfold parse_uint, digits_N.
  destruct (uint_of_string_zeros k _ _ (NilEmpty.usu (N.to_uint n))) as [d' [H1 H2]].
  rewrite H1, H2, Unsigned.of_to. reflexivity.
Qed.

Lemma has_char_zeros (c : ascii) (k : nat) :
  is_digit_char c = false -> has_char c (zeros k) = false.
Proof.
  intros Hc. unfold is_digit_char in Hc; simpl in Hc.
  apply orb_false_iff in Hc as [H0 _].
  induction k; cbn [zeros has_char]; [reflexivity|]. now rewrite IHk, Ascii.eqb_sym, H0.
Qed.

Lemma has_char_zeros_digits (c : ascii) (k : nat) (n : N) :
  is_digit_char c = false -> has_char c (zeros k ++ digits_N n) = false.
Proof.
  intros Hc. unfold digits_N. rewrite has_char_app, has_char_zeros, has_char_uint by exact Hc. reflexivity.
Qed.

Lemma length_zeros_app (k : nat) (s : string) :
  String.length (zeros k ++ s) = (k + String.length s)%nat.
Proof. induction k; cbn [zeros String.append String.length]; [reflexivity|]. now rewrite IHk. Qed.

Lemma digits_N_small (n : N) : (n < 1000)%N -> (String.length (digits_N n) <= 3)%nat.
Proof.
  intros H.
  assert (Hall : forallb (fun m => Nat.leb (String.length (digits_N (N.of_nat m))) 3)
                         (seq 0 1000) = true) by (vm_compute; reflexivity).
  rewrite forallb_forall in Hall.
  specialize (Hall (N.to_nat n)). rewrite Nnat.N2Nat.id in Hall.
  apply Nat.leb_le, Hall, in_seq. lia.
Qed.

Lemma pad3_length (n : N) : (n < 1000)%N -> String.length (pad_left0 3 (digits_N n)) = 3%nat.
Proof. intros H. unfold pad_left0. rewrite length_zeros_app. pose proof (digits_N_small n H). lia. Qed.

Section QLemmas.
Local Open Scope Q_scope.

Lemma Qfloor_unique (q : Q) (k : Z) : inject_Z k <= q -> q < inject_Z k + 1 -> Qfloor q = k.
Proof.
  intros H1 H2.
  assert (Hle : (k <= Qfloor q)%Z) by (rewrite <- (Qfloor_Z k); now apply Qfloor_resp_le).
  assert (Hlt : (Qfloor q < k + 1)%Z).
  { rewrite Zlt_Qlt, inject_Z_plus. pose proof (Qfloor_le q). change (inject_Z 1) with 1. lra. }
  lia.
Qed.

Lemma round_half_even_compat (p q : Q) : p == q -> round_half_even p = round_half_even q.
Proof.
  intros H. unfold round_half_even. rewrite (Qfloor_comp p q H).
  set (f := Qfloor q).
  destruct (Qlt_le_dec (p - inject_Z f) (1 # 2)), (Qlt_le_dec (q - inject_Z f) (1 # 2));
    try (exfalso; rewrite H in *; lra); try reflexivity.
  assert (E : Qeq_bool (p - inject_Z f) (1 # 2) = Qeq_bool (q - inject_Z f) (1 # 2)).
  { destruct (Qeq_bool (q - inject_Z f) (1 # 2)) eqn:E1.
    - apply Qeq_bool_iff. apply Qeq_bool_iff in E1. rewrite H. exact E1.
    - apply Qeq_bool_neq in E1. destruct (Qeq_bool (p - inject_Z f) (1 # 2)) eqn:E2; [|reflexivity].
      apply Qeq_bool_iff in E2. exfalso. apply E1. rewrite <- H. exact E2. }
  now rewrite E.
Qed.

Lemma round_half_even_bound (q : Q) :
  - (1 # 2) <= inject_Z (round_half_even q) - q <= 1 # 2.
Proof.
  unfold round_half_even. set (f := Qfloor q).
  pose proof (Qfloor_le q) as Hf. pose proof (Qlt_floor q) as Hg. fold f in Hf, Hg.
  rewrite inject_Z_plus in Hg. change (inject_Z 1) with 1 in Hg.
  destruct (Qlt_le_dec (q - inject_Z f) (1 # 2)) as [H|H]; [lra|].
  destruct (Qeq_bool (q - inject_Z f) (1 # 2)) eqn:E.
  - apply Qeq_bool_iff in E. destruct (Z.even f); [lra|].
    rewrite inject_Z_plus. change (inject_Z 1) with 1. lra.
  - rewrite inject_Z_plus. change (inject_Z 1) with 1. lra.
Qed.

Lemma round_half_even_nonneg (q : Q) : 0 <= q -> (0 <= round_half_even q)%Z.
Proof.
  intros H. unfold round_half_even.
  pose proof (Qfloor_nonneg q H).
  destruct (Qlt_le_dec _ _); [lia|]. destruct (Qeq_bool _ _); [destruct (Z.even _)|]; lia.
Qed.

Lemma Qtrunc_int (q : Q) (z : Z) : (0 <= z)%Z -> q == inject_Z z -> Qtrunc q = z.
Proof.
  intros Hz H. rewrite Qtrunc_nonneg.
  - rewrite (Qfloor_comp _ _ H). apply Qfloor_Z.
  - rewrite H. change 0 with (inject_Z 0). now rewrite <- Zle_Qle.
Qed.

Lemma Qfloor_div_bounds (x : Q) (y : Z) :
  (0 < y)%Z -> 0 <= x - inject_Z y * inject_Z (Qfloor (x / inject_Z y)) < inject_Z y.
Proof.
  intros Hy.
  assert (Hyq : 0 < inject_Z y) by (change 0 with (inject_Z 0); rewrite <- Zlt_Qlt; lia).
  pose proof (Qfloor_le (x / inject_Z y)) as H1. pose proof (Qlt_floor (x / inject_Z y)) as H2.
  set (k := Qfloor (x / inject_Z y)) in *.
  rewrite inject_Z_plus in H2. change (inject_Z 1) with 1 in H2.
  assert (Hid : x / inject_Z y * inject_Z y == x) by (field; intro E; rewrite E in Hyq; discriminate).
  apply (Qmult_le_compat_r _ _ (inject_Z y)) in H1; [|lra].
  apply (Qmult_lt_compat_r _ _ (inject_Z y)) in H2; [|lra].
  nra.
Qed.

End QLemmas.

Lemma timestamp_parse (h m sec ms : N) (k1 k2 k3 : nat) : (ms < 1000)%N ->
  spec_parse_timestamp
    (replace_char "." ","
       ((zeros k1 ++ digits_N h) ++ ":" ++ (zeros k2 ++ digits_N m) ++ ":"
        ++ (zeros k3 ++ digits_N sec) ++ "." ++ pad_left0 3 (digits_N ms)))
  = Some (inject_Z (Z.of_N h * 3600 + Z.of_N m * 60 + Z.of_N sec)
          + inject_Z (Z.of_N ms) / inject_Z 1000)%Q.
Proof.
  intros Hms.
  assert (Hd : forall c k n, is_digit_char c = false ->
                 replace_char "." "," (zeros k ++ digits_N n) = zeros k ++ digits_N n /\
                 has_char c (zeros k ++ digits_N n) = false).
  { intros c k n Hc. split; [apply replace_char_none|]; apply has_char_zeros_digits;
    [reflexivity|exact Hc]. }
  unfold pad_left0.
  rewrite !replace_char_app.
  assert (Hz : forall k, replace_char "." "," (zeros k) = zeros k)
    by (intros k; apply replace_char_none, has_char_zeros; reflexivity).
  assert (Hn : forall n, replace_char "." "," (digits_N n) = digits_N n)
    by (intros n; apply replace_char_none, has_char_uint; reflexivity).
  rewrite !Hz, !Hn.
  cbn [replace_char String.append Ascii.eqb Bool.eqb].
  unfold spec_parse_timestamp.
  rewrite split_char_app by apply (Hd ":"%char k1 h eq_refl).
  rewrite split_char_app by apply (Hd ":"%char k2 m eq_refl).
  rewrite split_char_none
    by (rewrite has_char_app; cbn [has_char]; rewrite !(proj2 (Hd ":"%char _ _ eq_refl)); reflexivity).
  rewrite split_char_app by apply (Hd ","%char k3 sec eq_refl).
  rewrite split_char_none by apply (Hd ","%char _ ms eq_refl).
  rewrite !parse_uint_zeros.
  rewrite length_zeros_app.
  pose proof (digits_N_small ms Hms) as Hl.
  replace (3 - String.length (digits_N ms) + String.length (digits_N ms))%nat with 3%nat by lia.
  reflexivity.
Qed.

Lemma fmt_int0_nonneg (z : Z) : (0 <= z)%Z ->
  fmt_int0 2 z = zeros (2 - String.length (digits_N (Z.to_N z))) ++ digits_N (Z.to_N z).
Proof. intros H. unfold fmt_int0. destruct (Z.ltb_spec z 0); [lia|reflexivity]. Qed.

Lemma fmt_fixed3_06_nonneg (q : Q) : (0 <= q)%Q ->
  let a := Z.to_N (round_half_even (q * inject_Z 1000)) in
  let body := digits_N (a / 1000) ++ "." ++ pad_left0 3 (digits_N (a mod 1000)) in
  fmt_fixed3_06 (PyFin q) =
  (zeros (6 - String.length body) ++ digits_N (a / 1000)) ++ "." ++ pad_left0 3 (digits_N (a mod 1000)).
Proof.
  intros H a body. unfold fmt_fixed3_06.
  rewrite Z.abs_eq by (apply round_half_even_nonneg; change (inject_Z 1000) with 1000%Q; lra).
  fold a. fold body.
  replace (Qlt_bool q 0) with false
    by (unfold Qlt_bool; apply Qle_bool_iff in H; now rewrite H).
  unfold pad_left0 at 1. rewrite str_app_assoc. reflexivity.
Qed.

Section RoundTrip.
Local Open Scope Q_scope.

Lemma format_timestamp_roundtrip (x : Q) :
  0 <= x -> x < inject_Z (2 ^ 53) ->
  exists s p, _format_timestamp (PyFin x) = Ok s /\ spec_parse_timestamp s = Some p /\
              Qabs (p - x) <= 1 # 2000.
Proof.
  intros Hx H53.
  assert (Hbig : inject_Z 3600 < inject_Z (2 ^ 53)) by (rewrite <- Zlt_Qlt; lia).
  destruct (float_div_mod_exact x 3600 Hx ltac:(lia) H53) as [Hh1 Hh2].
  destruct (float_div_mod_exact x 60 Hx ltac:(lia) H53) as [Hs1 Hs2].
  pose proof (Qfloor_div_bounds x 3600 ltac:(lia)) as [Hr0 Hr1].
  pose proof (Qfloor_div_bounds x 60 ltac:(lia)) as [Hs0 Hs3].
  set (H := Qfloor (x / inject_Z 3600)) in *.
  set (S60 := Qfloor (x / inject_Z 60)) in *.
  set (r1 := snd (float_div_mod x (inject_Z 3600))) in *.
  assert (Hr1b : 0 <= r1 < inject_Z (2 ^ 53)) by (rewrite Hh2; lra).
  destruct (float_div_mod_exact r1 60 (proj1 Hr1b) ltac:(lia) (proj2 Hr1b)) as [Hm1 Hm2].
  pose proof (Qfloor_div_bounds r1 60 ltac:(lia)) as [Hm0 Hm3].
  set (M := Qfloor (r1 / inject_Z 60)) in *.
  assert (HH0 : (0 <= H)%Z) by (apply Qfloor_nonneg, Qle_shift_div_l; [reflexivity|lra]).
  assert (HM0 : (0 <= M)%Z) by (apply Qfloor_nonneg, Qle_shift_div_l; [reflexivity|lra]).
  (* the minute count of the whole value is 60 * hours + minutes *)
  assert (HS : S60 = (60 * H + M)%Z).
  { unfold S60. apply Qfloor_unique.
    - rewrite inject_Z_plus, inject_Z_mult. apply Qle_shift_div_l; [reflexivity|].
      rewrite Hh2 in Hm0. change (inject_Z 60) with 60 in *. change (inject_Z 3600) with 3600 in *. lra.
    - rewrite inject_Z_plus, inject_Z_mult. apply Qlt_shift_div_r; [reflexivity|].
      rewrite Hh2 in Hm3. change (inject_Z 60) with 60 in *. change (inject_Z 3600) with 3600 in *. lra. }
  set (s := snd (float_div_mod x (inject_Z 60))) in *.
  set (n := round_half_even (s * inject_Z 1000)).
  pose proof (round_half_even_bound (s * inject_Z 1000)) as Hn. fold n in Hn.
  assert (Hs0' : 0 <= s) by (rewrite Hs2; lra).
  assert (Hn0 : (0 <= n)%Z) by (apply round_half_even_nonneg; change (inject_Z 1000) with 1000; lra).
  set (a := Z.to_N n).
  assert (Ha : (a mod 1000 < 1000)%N) by (apply N.mod_lt; lia).
  eexists; eexists; split; [|split].
  - unfold _format_timestamp, py_floordiv, py_mod, py_int. cbn [obind].
    change (Qmake 3600 1) with (inject_Z 3600). change (Qmake 60 1) with (inject_Z 60).
    rewrite (Qtrunc_int _ H HH0 Hh1). cbn [obind]. fold r1.
    rewrite (Qtrunc_int _ M HM0 Hm1). fold s.
    rewrite (fmt_int0_nonneg H HH0), (fmt_int0_nonneg M HM0).
    rewrite (fmt_fixed3_06_nonneg s Hs0'). reflexivity.
  - apply timestamp_parse. exact Ha.
  - rewrite !Z2N.id by assumption.
    pose proof (N.div_mod a 1000 ltac:(discriminate)) as Hdm.
    apply (f_equal Z.of_N) in Hdm. rewrite N2Z.inj_add, N2Z.inj_mul in Hdm.
    unfold a in Hdm. rewrite Z2N.id in Hdm by exact Hn0. fold a in Hdm.
    set (hi := Z.of_N (a / 1000)) in *. set (lo := Z.of_N (a mod 1000)) in *.
    assert (Hq : inject_Z n == 1000 * inject_Z hi + inject_Z lo)
      by (rewrite Hdm, inject_Z_plus, inject_Z_mult; reflexivity).
    rewrite HS in Hs2.
    apply Qabs_Qle_condition.
    rewrite !inject_Z_plus, !inject_Z_mult in *.
    change (inject_Z 60) with 60 in *. change (inject_Z 3600) with 3600 in *.
    change (inject_Z 1000) with 1000 in *. fold n a hi lo.
    assert (Hlo : inject_Z lo / 1000 == inject_Z lo * (1 # 1000)) by reflexivity.
    rewrite Hlo. lra.
Qed.

End RoundTrip.

End FloatFacts.

(* ------------------------------------------------------------------------ *)
(** * Lemmas on the worker *)

Lemma acquire_present (env : Env) (u : string) (task : option Task) (w : World)
  (j : TranscriptionJob.t) :
  db_up w = true -> committed w u = Some j ->
  _acquire_job env u task w =
  (set_working (committed w) (set_working (committed w) w), Raise (AttributeError "running")).
Proof.
  intros Hup Hj. unfold _acquire_job, db_session, bind, try_, session_get. cbn.
  rewrite Hup, Hj. reflexivity.
Qed.

Lemma acquire_absent_sync (env : Env) (u : string) (w : World) :
  db_up w = true -> committed w u = None ->
  _acquire_job env u None w =
  (set_committed (committed w) (add_log ("Job " ++ u ++ " not found") (set_working (committed w) w)),
   Ok None).
Proof.
  intros Hup Hj. unfold _acquire_job, db_session, bind, try_, session_get. cbn.
  rewrite Hup, Hj. reflexivity.
Qed.

Lemma acquire_absent_retry (env : Env) (u : string) (r : nat) (w : World) :
  db_up w = true -> committed w u = None -> (r < 5)%nat ->
  _acquire_job env u (Some (mkTask r)) w =
  (set_working (committed w) (set_working (committed w) w), Raise (Retry 1)).
Proof.
  intros Hup Hj Hr. unfold _acquire_job, db_session, bind, try_, session_get. cbn.
  rewrite Hup, Hj. unfold task_retry, max_retries. cbn [request_retries].
  replace (5 <? r + 1)%nat with false by (symmetry; apply Nat.ltb_ge; lia).
  reflexivity.
Qed.

Lemma acquire_absent_exhausted (env : Env) (u : string) (w : World) :
  db_up w = true -> committed w u = None ->
  _acquire_job env u (Some (mkTask 5)) w =
  (set_committed (committed w)
     (add_log ("Job " ++ u ++ " not found after retries") (set_working (committed w) w)),
   Ok None).
Proof.
  intros Hup Hj. unfold _acquire_job, db_session, bind, try_, session_get. cbn.
  rewrite Hup, Hj. reflexivity.
Qed.

Lemma run_retry (env : Env) (job_id u : string) (r : nat) (w : World) :
  uuid_UUID env job_id = Some u -> db_up w = true -> committed w u = None -> (r < 5)%nat ->
  exists w1, transcribe_audio env (mkTask r) job_id w = (w1, Raise (Retry 1)) /\
    db_up w1 = true /\ committed w1 = committed w /\
    logs w1 = app (logs w) ["Starting transcription job " ++ job_id].
Proof.
  intros Hu Hup Hj Hr. unfold transcribe_audio, _run_transcription.
  unfold bind at 1, log at 1. rewrite Hu. unfold bind at 1.
  rewrite (acquire_absent_retry env u r (add_log ("Starting transcription job " ++ job_id) w))
    by assumption.
  eexists. split; [reflexivity|]. cbn. auto.
Qed.

Lemma run_exhausted (env : Env) (job_id u : string) (w : World) :
  uuid_UUID env job_id = Some u -> db_up w = true -> committed w u = None ->
  exists w1, transcribe_audio env (mkTask 5) job_id w = (w1, Ok tt) /\
    db_up w1 = true /\ committed w1 = committed w /\
    logs w1 = app (logs w) ["Starting transcription job " ++ job_id;
                            "Job " ++ u ++ " not found after retries"].
Proof.
  intros Hu Hup Hj. unfold transcribe_audio, _run_transcription.
  unfold bind at 1, log at 1. rewrite Hu. unfold bind at 1.
  rewrite (acquire_absent_exhausted env u (add_log ("Starting transcription job " ++ job_id) w))
    by assumption.
  eexists. split; [reflexivity|]. cbn. rewrite <- app_assoc. auto.
Qed.

Lemma celery_chain (env : Env) (job_id u : string) (k : nat) :
  uuid_UUID env job_id = Some u ->
  forall r w fuel, (r + k = 5)%nat -> (k < fuel)%nat -> db_up w = true -> committed w u = None ->
  exists w', celery_execute env fuel job_id r w =
             (w', app (map (fun i => (i, Raise (Retry 1))) (seq r k)) [(5%nat, Ok tt)]) /\
    committed w' = committed w /\
    logs w' = app (logs w) (app (repeat ("Starting transcription job " ++ job_id) k)
                     ["Starting transcription job " ++ job_id;
                      "Job " ++ u ++ " not found after retries"]).
Proof.
  intros Hu. induction k as [|k IH]; intros r w fuel Hrk Hf Hup Hj.
  - replace r with 5%nat by lia. destruct fuel as [|fuel]; [lia|].
    destruct (run_exhausted env job_id u w Hu Hup Hj) as (w1 & E & _ & Hc & Hl).
    exists w1. cbn [celery_execute]. rewrite E. cbn. auto.
  - destruct fuel as [|fuel]; [lia|].
    destruct (run_retry env job_id u r w Hu Hup Hj ltac:(lia)) as (w1 & E & Hup1 & Hc1 & Hl1).
    destruct (IH (S r) w1 fuel ltac:(lia) ltac:(lia) Hup1 ltac:(rewrite Hc1; exact Hj))
      as (w2 & E2 & Hc2 & Hl2).
    exists w2. cbn [celery_execute]. rewrite E, E2. split; [reflexivity|]. split.
    + congruence.
    + rewrite Hl2, Hl1. cbn [repeat]. rewrite <- !app_assoc. reflexivity.
Qed.

Lemma acquire_preserves (env : Env) (u : string) (task : option Task) (w : World) :
  committed (fst (_acquire_job env u task w)) = committed w /\
  (forall p, snd (_acquire_job env u task w) <> Ok (Some p)).
Proof.
  unfold _acquire_job, db_session, bind, try_, session_get.
  cbn. destruct (db_up w); cbn; [destruct (committed w u); cbn|].
  all: try (split; [reflexivity|intros ? ?; discriminate]).
  all: destruct task as [t|]; cbn; try (split; [reflexivity|intros ? ?; discriminate]).
  all: destruct (task_retry t _); cbn; split; try reflexivity; intros ? ?; discriminate.
Qed.

Lemma run_preserves (env : Env) (job_id : string) (task : option Task) (w : World) :
  committed (fst (_run_transcription env job_id task w)) = committed w.
Proof.
  unfold _run_transcription. unfold bind at 1, log at 1.
  destruct (uuid_UUID env job_id) as [u|]; [|reflexivity].
  unfold bind at 1.
  pose proof (acquire_preserves env u task (add_log ("Starting transcription job " ++ job_id) w))
    as [Hc Hn].
  destruct (_acquire_job env u task _) as [w1 [[p|]|e]]; cbn in *.
  - exfalso. exact (Hn p eq_refl).
  - exact Hc.
  - exact Hc.
Qed.

Lemma celery_preserves (env : Env) (job_id : string) (fuel r : nat) (w : World) :
  committed (fst (celery_execute env fuel job_id r w)) = committed w.
Proof.
  revert r w. induction fuel as [|fuel IH]; intros r w; [reflexivity|].
  cbn [celery_execute]. pose proof (run_preserves env job_id (Some (mkTask r)) w) as H.
  unfold transcribe_audio. destruct (_run_transcription env job_id (Some (mkTask r)) w) as [w1 o].
  cbn in H. destruct o as [[]|[]]; try exact H.
  destruct (celery_execute env fuel job_id (S r) w1) as [w2 t] eqn:E.
  cbn. rewrite <- H. specialize (IH (S r) w1). rewrite E in IH. exact IH.
Qed.

Lemma enqueue_preserves (env : Env) (app : option CeleryApp) (job_id : string) (w : World) :
  committed (fst (enqueue_transcription env app job_id w)) = committed w.
Proof.
  unfold enqueue_transcription. destruct app as [[b]|].
  - unfold bind, try_, apply_async. cbn. destruct b; reflexivity.
  - unfold bind at 1, log at 1. exact (run_preserves env job_id None _).
Qed.

Lemma run_present (env : Env) (job_id u : string) (task : option Task) (w : World)
  (j : TranscriptionJob.t) :
  uuid_UUID env job_id = Some u -> db_up w = true -> committed w u = Some j ->
  exists w', _run_transcription env job_id task w = (w', Raise (AttributeError "running")) /\
    committed w' = committed w /\ writes w' = writes w /\ queue w' = queue w.
Proof.
  intros Hu Hup Hj. unfold _run_transcription. unfold bind at 1, log at 1. rewrite Hu.
  unfold bind at 1.
  rewrite (acquire_present env u task (add_log ("Starting transcription job " ++ job_id) w) j)
    by assumption.
  eexists. split; [reflexivity|]. cbn. auto.
Qed.

Lemma run_acquired_missing_input (env : Env) (job_id u : string) (p : JobPayload) (w : World)
  (j : TranscriptionJob.t) :
  files w (expanduser env (input_path p)) = None -> db_up w = true -> committed w u = Some j ->
  exists w', _run_acquired env job_id u p w = (w', Raise (AttributeError "error")) /\
    committed w' = committed w /\ writes w' = writes w /\
    In ("Input audio missing for job " ++ job_id ++ ": Audio file not found: "
        ++ expanduser env (input_path p)) (logs w').
Proof.
  intros Hf Hup Hj. unfold _run_acquired, _transcribe, bind, try_, path_exists.
  rewrite Hf. cbn.
  unfold _mark_job_error, db_session, bind, session_get. cbn. rewrite Hup, Hj. cbn.
  eexists. split; [reflexivity|]. cbn. split; [reflexivity|]. split; [reflexivity|].
  apply in_or_app. right. left. reflexivity.
Qed.


Lemma bind_inv {A B} (m : M A) (k : A -> M B) (w w' : World) (r : outcome B) :
  bind m k w = (w', r) ->
  (exists w1 e, m w = (w1, Raise e) /\ w' = w1 /\ r = Raise e) \/
  (exists w1 a, m w = (w1, Ok a) /\ k a w1 = (w', r)).
Proof.
  unfold bind. destruct (m w) as [w1 [a|e]]; intros H.
  - right. eauto.
  - left. injection H as <- <-. eauto.
Qed.

Lemma write_text_inv (env : Env) (p c : string) (w w' : World) (r : outcome unit) :
  write_text env p c w = (w', r) ->
  (fs_fails env p = true /\ w' = w /\ r = Raise (OSError p)) \/
  (fs_fails env p = false /\ writes w' = app (writes w) [p] /\ r = Ok tt).
Proof.
  unfold write_text. destruct (fs_fails env p); intros H; injection H as <- <-; auto.
Qed.

Lemma write_segments_inv (env : Env) (p : string) (segs : list Segment) (w w' : World)
  (r : outcome unit) :
  _write_segments env p segs w = (w', r) ->
  (fs_fails env p = true /\ w' = w /\ r = Raise (OSError p)) \/
  (fs_fails env p = false /\ writes w' = app (writes w) [p] /\ r = Ok tt).
Proof.
  unfold _write_segments, bind, write_text. destruct (fs_fails env p); intros H;
    injection H as <- <-; auto.
Qed.

Lemma convert_inv (env : Env) (s d : string) (w w' : World) (r : outcome unit) :
  _convert_audio env s d w = (w', r) ->
  writes w' = writes w \/ writes w' = app (writes w) [d].
Proof.
  unfold _convert_audio. destruct (ffmpeg_bin env) as [b|].
  - unfold bind at 1, log at 1. destruct (ffmpeg_run env s) as [code err].
    destruct (code =? 0)%Z; intros H; injection H as <- <-; auto.
  - unfold bind, shutil_copy, write_text, log. destruct (files w s); [|intros H; injection H as <- <-; auto].
    destruct (fs_fails env d); intros H; injection H as <- <-; auto.
Qed.

Lemma with_suffix_raise (suffix p : string) (e : exn) : with_suffix suffix p = Raise e -> e = ValueError.
Proof.
  unfold with_suffix. destruct (existsb _ _); [intros H; injection H as <-; reflexivity|].
  destruct (_ || _); [intros H; injection H as <-; reflexivity|].
  destruct (path_parts p) as [root parts]. destruct (rev parts); [intros H; injection H as <-; reflexivity|].
  discriminate.
Qed.

Lemma json_sidecar_ok (p t : string) : with_suffix ".json" p = Ok t -> json_sidecar p = t.
Proof. unfold json_sidecar. intros ->. reflexivity. Qed.

Lemma sidecar_inv (env : Env) (s c : string) (w w' : World) (r : outcome unit) :
  _copy_transcript_sidecar env s c w = (w', r) ->
  (r = Ok tt \/ r = Raise ValueError) /\
  (writes w' = writes w \/ writes w' = app (writes w) [json_sidecar c]).
Proof.
  unfold _copy_transcript_sidecar, bind, lift, path_exists, try_, shutil_copy, write_text, log, ret.
  destruct (with_suffix ".json" s) as [sc|e] eqn:Es;
    [|apply with_suffix_raise in Es; subst e; intros H; injection H as <- <-; auto].
  destruct (with_suffix ".json" c) as [t|e] eqn:Ec.
  - rewrite (json_sidecar_ok c t Ec).
    destruct (files w sc) as [x|] eqn:Ex; cbn; [|intros H; injection H as <- <-; auto].
    rewrite Ex. destruct (fs_fails env t); cbn; intros H; injection H as <- <-; auto.
  - apply with_suffix_raise in Ec. subst e.
    destruct (files w sc); cbn; intros H; injection H as <- <-; auto.
Qed.
Lemma convert_inv' (env : Env) (s d : string) (w w' : World) (r : outcome unit) :
  _convert_audio env s d w = (w', r) ->
  exists pre, incl pre [d] /\ writes w' = app (writes w) pre.
Proof.
  intros H. destruct (convert_inv _ _ _ _ _ _ H) as [E|E].
  - exists []. split; [intros ? []|]. now rewrite app_nil_r.
  - exists [d]. split; [apply incl_refl | exact E].
Qed.

Lemma sidecar_inv' (env : Env) (s c : string) (w w' : World) (r : outcome unit) :
  _copy_transcript_sidecar env s c w = (w', r) ->
  (r = Ok tt \/ r = Raise ValueError) /\
  exists pre, incl pre [json_sidecar c] /\ writes w' = app (writes w) pre.
Proof.
  intros H. destruct (sidecar_inv _ _ _ _ _ _ H) as [Hr [E|E]]; split; auto.
  - exists []. split; [intros ? []|]. now rewrite app_nil_r.
  - exists [json_sidecar c]. split; [apply incl_refl | exact E].
Qed.

Ltac binv H := let Hm := fresh "Hm" in let H' := fresh "Hk" in
  destruct (bind_inv _ _ _ _ _ H) as [(?w & ?e & Hm & -> & ->) | (?w & ?a & Hm & H')];
  clear H; [ | rename H' into H].

Ltac pure_step Hm :=
  cbv [path_exists lift log raise ret] in Hm;
  first [discriminate Hm | injection Hm as <- ?].

Lemma writes_add_log (m : string) (w : World) : writes (add_log m w) = writes w.
Proof. reflexivity. Qed.

Ltac rewrite_writes :=
  repeat match goal with
         | |- context [writes (add_log _ _)] => rewrite writes_add_log
         | E : writes ?a = _ |- context [writes ?a] => rewrite E; clear E
         end.

Ltac leaf pre k :=
  exists pre, k; split;
  [ rewrite_writes; cbn [firstn transcript_paths map]; rewrite <- ?app_assoc;
    try rewrite app_nil_r; reflexivity | ];
  split;
  [ match goal with
    | H0 : incl ?p0 _, H1 : incl ?p1 _ |- _ =>
        apply incl_app;
        [ eapply incl_tran; [exact H0|] | eapply incl_tran; [exact H1|] ];
        intros x [<-|[]]; cbn [In]; auto
    | H0 : incl ?p0 _ |- _ =>
        eapply incl_tran; [exact H0|]; intros x [<-|[]]; cbn [In]; auto
    | _ => intros ? []
    end | ];
  split; [lia | ];
  split; [ split; [intros [? Hr]; try discriminate Hr; lia | intros; first [lia | eexists; reflexivity]] | ];
  intros i Hi Hf; destruct i as [|[|[|[|i]]]]; cbn [nth transcript_paths map] in Hf;
  unfold job_dir in Hf; try congruence; lia.

Lemma transcribe_writes (env : Env) (u : string) (p : JobPayload) (w w' : World)
  (r : outcome ResultPayload) :
  _transcribe env u p w = (w', r) ->
  exists pre k,
    writes w' = app (writes w) (app pre (firstn k (transcript_paths env u))) /\
    incl pre [prepared_audio_path env u; json_sidecar (prepared_audio_path env u)] /\
    k <= 4 /\
    ((exists res, r = Ok res) <-> k = 4) /\
    (forall i, i < 4 -> fs_fails env (nth i (transcript_paths env u) "") = true -> k <= i).
Proof.
  intros H. unfold _transcribe in H. cbv zeta in H.
  binv H; pure_step Hm. clear H0. destruct a; cbn [negb] in H.
  2:{ injection H as <- <-. leaf (@nil string) 0. }
  binv H; unfold mkdir in Hm; destruct (fs_fails _ _); pure_step Hm.
  1:{ leaf (@nil string) 0. }
  binv H; destruct (convert_inv' _ _ _ _ _ _ Hm) as (pre0 & Hi0 & Hw0); clear Hm;
    [ leaf pre0 0 | ].
  binv H; destruct (sidecar_inv' _ _ _ _ _ _ Hm) as [Hsc (pre1 & Hi1 & Hw1)]; clear Hm;
    [leaf (app pre0 pre1) 0|].
  binv H; pure_step Hm; [leaf (app pre0 pre1) 0|].
  clear Hsc H0.
  binv H; destruct (write_text_inv _ _ _ _ _ _ Hm) as [(Hfail & -> & ?) | (Hft & Hw2 & ?)]; clear Hm;
    [ subst; leaf (app pre0 pre1) 0 | discriminate | discriminate | ].
  binv H; pure_step Hm.
  binv H; destruct (write_segments_inv _ _ _ _ _ _ Hm) as [(Hfail & -> & ?) | (Hfj & Hw3 & ?)]; clear Hm;
    [ subst; leaf (app pre0 pre1) 1 | discriminate | discriminate | ].
  binv H; pure_step Hm; [leaf (app pre0 pre1) 2|].
  binv H; destruct (write_text_inv _ _ _ _ _ _ Hm) as [(Hfail & -> & ?) | (Hfs & Hw4 & ?)]; clear Hm;
    [ subst; leaf (app pre0 pre1) 2 | discriminate | discriminate | ].
  binv H; pure_step Hm.
  binv H; pure_step Hm; [leaf (app pre0 pre1) 3|].
  binv H; destruct (write_text_inv _ _ _ _ _ _ Hm) as [(Hfail & -> & ?) | (Hfv & Hw5 & ?)]; clear Hm;
    [ subst; leaf (app pre0 pre1) 3 | discriminate | discriminate | ].
  binv H; pure_step Hm.
  cbv [ret] in H. injection H as <- <-. leaf (app pre0 pre1) 4.
Qed.


Lemma frame_bind {T A B} (f : World -> T) (m : M A) (k : A -> M B) :
  frame f m -> (forall a, frame f (k a)) -> frame f (bind m k).
Proof.
  intros Hm Hk w w' r H. destruct (bind_inv _ _ _ _ _ H) as [(w1 & e & E & -> & _)|(w1 & a & E & E')].
  - exact (Hm _ _ _ E).
  - rewrite (Hk a _ _ _ E'). exact (Hm _ _ _ E).
Qed.

Lemma frame_ret {T A} (f : World -> T) (a : A) : frame f (ret a).
Proof. intros w w' r H. now injection H as <- _. Qed.

Lemma frame_raise {T A} (f : World -> T) (e : exn) : frame f (@raise A e).
Proof. intros w w' r H. now injection H as <- _. Qed.

Lemma frame_lift {T A} (f : World -> T) (o : outcome A) : frame f (lift o).
Proof. intros w w' r H. now injection H as <- _. Qed.

Lemma frame_try {T A} (f : World -> T) (m : M A) : frame f m -> frame f (try_ m).
Proof.
  intros Hm w w' r H. unfold try_ in H. destruct (m w) as [w1 r1] eqn:E.
  injection H as <- _. exact (Hm _ _ _ E).
Qed.

Lemma frame_if {T A} (f : World -> T) (b : bool) (m1 m2 : M A) :
  frame f m1 -> frame f m2 -> frame f (if b then m1 else m2).
Proof. now destruct b. Qed.

Lemma frame_log_committed (m : string) : frame committed (log m).
Proof. intros w w' r H. now injection H as <- _. Qed.

Lemma frame_log_writes (m : string) : frame writes (log m).
Proof. intros w w' r H. now injection H as <- _. Qed.

Lemma frame_path_exists {T} (f : World -> T) (p : string) : frame f (path_exists p).
Proof. intros w w' r H. now injection H as <- _. Qed.

Lemma frame_read_text {T} (f : World -> T) (p : string) : frame f (read_text p).
Proof.
  intros w w' r H. unfold read_text in H.
  destruct (files w p); [destruct (utf8_valid _)|]; now injection H as <- _.
Qed.

Lemma frame_write_text_committed (env : Env) (p c : string) : frame committed (write_text env p c).
Proof. intros w w' r H. unfold write_text in H. now destruct (fs_fails env p); injection H as <- _. Qed.

Lemma frame_mkdir {T} (f : World -> T) (env : Env) (p : string) : frame f (mkdir env p).
Proof. unfold mkdir. apply frame_if; [apply frame_raise | apply frame_ret]. Qed.

Lemma frame_shutil_copy_committed (env : Env) (s d : string) : frame committed (shutil_copy env s d).
Proof.
  intros w w' r H. unfold shutil_copy in H. destruct (files w s).
  - exact (frame_write_text_committed _ _ _ _ _ _ H).
  - now injection H as <- _.
Qed.

Create HintDb frames.
#[local] Hint Resolve frame_bind frame_ret frame_raise frame_lift frame_try frame_if
  frame_log_committed frame_log_writes frame_path_exists frame_read_text
  frame_write_text_committed frame_mkdir frame_shutil_copy_committed : frames.

Lemma frame_convert_committed (env : Env) (s d : string) : frame committed (_convert_audio env s d).
Proof.
  unfold _convert_audio. destruct (ffmpeg_bin env); [|auto with frames].
  apply frame_bind; [auto with frames|]. intros _. destruct (ffmpeg_run env s).
  apply frame_if; [|auto with frames]. intros w w' r H. now injection H as <- _.
Qed.

Lemma frame_sidecar_committed (env : Env) (s c : string) :
  frame committed (_copy_transcript_sidecar env s c).
Proof.
  unfold _copy_transcript_sidecar. apply frame_bind; [auto with frames|]. intros sc.
  apply frame_bind; [auto with frames|]. intros b. apply frame_if; [auto with frames|].
  apply frame_bind; [auto with frames|]. intros t.
  apply frame_bind; [auto with frames|]. intros [?|?]; auto with frames.
Qed.

Lemma frame_write_segments_committed (env : Env) (p : string) (segs : list Segment) :
  frame committed (_write_segments env p segs).
Proof. unfold _write_segments. auto with frames. Qed.

#[local] Hint Resolve frame_convert_committed frame_sidecar_committed
  frame_write_segments_committed : frames.

Lemma frame_transcribe_committed (env : Env) (u : string) (p : JobPayload) :
  frame committed (_transcribe env u p).
Proof.
  unfold _transcribe. cbv zeta. apply frame_bind; [auto with frames|]. intros b.
  apply frame_if; [auto with frames|].
  repeat (apply frame_bind; [auto with frames|]; intros ?). auto with frames.
Qed.

Lemma frame_db_session_writes {A} (body : M A) : frame writes body -> frame writes (db_session body).
Proof.
  intros Hb w w' r H. unfold db_session in H.
  destruct (body (set_working (committed w) w)) as [w1 [a|e]] eqn:E;
    injection H as <- _; cbn; exact (Hb _ _ _ E).
Qed.

Lemma frame_session_get_writes (u : string) : frame writes (session_get u).
Proof. intros w w' r H. unfold session_get in H. now destruct (db_up w); injection H as <- _. Qed.

Lemma frame_session_update_writes u f : frame writes (session_update u f).
Proof. intros w w' r H. now injection H as <- _. Qed.

Lemma frame_session_commit_writes : frame writes session_commit.
Proof. intros w w' r H. now injection H as <- _. Qed.

#[local] Hint Resolve frame_db_session_writes frame_session_get_writes
  frame_session_update_writes frame_session_commit_writes : frames.

Lemma frame_mark_finished_writes (u : string) (p : ResultPayload) :
  frame writes (_mark_job_finished u p).
Proof.
  unfold _mark_job_finished. apply frame_db_session_writes.
  apply frame_bind; [auto with frames|]. intros [j|]; [|auto with frames].
  apply frame_bind.
  - apply frame_if; [|auto with frames]. apply frame_bind; [auto with frames|].
    intros [t|[]]; auto with frames.
  - intros ?. repeat (apply frame_bind; [auto with frames|]; intros ?). auto with frames.
Qed.

Lemma frame_mark_error_committed (u m : string) : frame committed (_mark_job_error u m).
Proof.
  intros w w' r H. unfold _mark_job_error, db_session, bind, session_get in H. cbn in H.
  destruct (db_up w); cbn in H; [|now injection H as <- _].
  destruct (committed w u); cbn in H; now injection H as <- _.
Qed.

Lemma run_acquired_finished (env : Env) (job_id u : string) (p : JobPayload) (w w' : World)
  (r : outcome unit) (j' : TranscriptionJob.t) :
  _run_acquired env job_id u p w = (w', r) ->
  (forall j, committed w u = Some j -> TranscriptionJob.status j <> finished) ->
  committed w' u = Some j' -> TranscriptionJob.status j' = finished ->
  exists pre, writes w' = app (writes w) (app pre (transcript_paths env u)) /\
    incl pre [prepared_audio_path env u; json_sidecar (prepared_audio_path env u)].
Proof.
  intros H Hnot Hj' Hst. unfold _run_acquired in H.
  destruct (bind_inv _ _ _ _ _ H) as [(w1 & e & E & _ & _)|(w1 & rr & E & H1)].
  { unfold try_ in E. destruct (_transcribe env u p w); discriminate. }
  unfold try_ in E. destruct (_transcribe env u p w) as [w2 r2] eqn:Et.
  injection E as <- <-.
  destruct r2 as [res|e].
  - destruct (transcribe_writes _ _ _ _ _ _ Et) as (pre & k & Hw & Hi & _ & [Hk _] & _).
    specialize (Hk (ex_intro _ res eq_refl)). subst k.
    exists pre. split; [|exact Hi].
    apply (frame_bind writes _ _ (frame_mark_finished_writes u res) (fun _ => frame_log_writes _))
      in H1.
    rewrite H1, Hw. reflexivity.
  - exfalso. apply (Hnot j'); [|exact Hst].
    rewrite <- Hj'. symmetry.
    transitivity (committed w2 u).
      destruct e; cbv beta iota in H1;
        (apply (frame_bind committed _ _ (frame_log_committed _)
                (fun _ => frame_mark_error_committed _ _)) in H1; now rewrite H1).
    + now rewrite (frame_transcribe_committed _ _ _ _ _ _ Et).
Qed.




Lemma clamp_unit (e : pyfloat) :
  exists q, py_max (PyFin 0) (py_min (PyFin 1) e) = PyFin q /\ (0 <= q <= 1)%Q.
Proof.
  unfold py_max, py_min. destruct e as [q|[|]|]; cbn.
  - unfold Qlt_bool. destruct (Qle_bool 1 q) eqn:E1; cbn.
    + eexists; split; [reflexivity| lra].
    + apply not_true_iff_false in E1. rewrite Qle_bool_iff in E1.
      destruct (Qle_bool q 0) eqn:E0; cbn.
      * eexists; split; [reflexivity| lra].
      * apply not_true_iff_false in E0. rewrite Qle_bool_iff in E0.
        eexists; split; [reflexivity| lra].
  - eexists; split; [reflexivity| lra].
  - eexists; split; [reflexivity| lra].
  - eexists; split; [reflexivity| lra].
Qed.


Lemma adapt_confidence_unit py_float math_exp (v : pyvalue) (c : pyfloat) :
  adapt_confidence py_float math_exp v = Ok c -> exists q, c = PyFin q /\ (0 <= q <= 1)%Q.
Proof.
  unfold adapt_confidence. intros H. destruct v;
    try (injection H as <-; exists 0%Q; split; [reflexivity|lra]);
    (destruct (obind (py_float _) math_exp) as [e|[]];
       try discriminate H; injection H as <-;
       [apply clamp_unit | exists 0%Q; split; [reflexivity|lra] ..]).
Qed.

Lemma adapt_segments_unit py_float math_exp lang (raw : list RawSegment) (segs : list Segment) :
  adapt_segments py_float math_exp lang raw = Ok segs -> Forall unit_confidence segs.
Proof.
  revert segs. induction raw as [|r rest IH]; intros segs H; cbn in H.
  - injection H as <-. constructor.
  - destruct (adapt_confidence py_float math_exp (avg_logprob r)) as [c|] eqn:Ec; [|discriminate].
    cbn in H. destruct (adapt_segments py_float math_exp lang rest) as [segs'|]; [|discriminate].
    cbn in H. injection H as <-. constructor; [|exact (IH _ eq_refl)].
    exact (adapt_confidence_unit _ _ _ _ Ec).
Qed.

Lemma run_sync_absent (env : Env) (job_id u : string) (w : World) :
  uuid_UUID env job_id = Some u -> db_up w = true -> committed w u = None ->
  exists w', _run_transcription env job_id None w = (w', Ok tt) /\
    committed w' = committed w /\ In ("Job " ++ u ++ " not found") (logs w').
Proof.
  intros Hu Hup Hj. unfold _run_transcription.
  unfold bind at 1, log at 1. rewrite Hu. unfold bind at 1.
  rewrite (acquire_absent_sync env u (add_log ("Starting transcription job " ++ job_id) w))
    by assumption.
  eexists. split; [reflexivity|]. cbn. split; [reflexivity|].
  apply in_or_app. right. left. reflexivity.
Qed.

(* ------------------------------------------------------------------------ *)
(** * The claims *)

(** C1: run as the Celery task [transcribe_audio] (max_retries=5,
    default_retry_delay=1) for a job whose record is absent, the task raises
    [Retry] with a countdown of 1 second on its runs with retries 0 to 4 and
    returns normally on its sixth run (retries = 5) after logging
    "Job <id> not found after retries": six loads in all, and the job rows
    are unchanged.  Run without a task (the synchronous path), an absent
    record is logged as "Job <id> not found" and the call returns at once,
    without any retry. *)
Theorem C1_absent_job_retries (env : Env) (job_id u : string) (w : World) (fuel : nat) :
  uuid_UUID env job_id = Some u -> db_up w = true -> committed w u = None -> 5 < fuel ->
  (exists w', celery_execute env fuel job_id 0 w =
     (w', [(0, Raise (Retry 1)); (1, Raise (Retry 1)); (2, Raise (Retry 1));
           (3, Raise (Retry 1)); (4, Raise (Retry 1)); (5, Ok tt)]) /\
     committed w' = committed w /\
     In ("Job " ++ u ++ " not found after retries") (logs w')) /\
  (exists w', _run_transcription env job_id None w = (w', Ok tt) /\
     committed w' = committed w /\ In ("Job " ++ u ++ " not found") (logs w')).
Proof.
  intros Hu Hup Hj Hf. split.
  - destruct (celery_chain env job_id u 5 Hu 0 w fuel eq_refl Hf Hup Hj) as (w' & E & Hc & Hl).
    exists w'. split; [exact E|]. split; [exact Hc|]. rewrite Hl.
    apply in_or_app. right. apply in_or_app. right. right. left. reflexivity.
  - exact (run_sync_absent env job_id u w Hu Hup Hj).
Qed.

Lemma C1_absent_job_retries_witness :
  exists w', celery_execute ok_env 6 sample_uuid 0 (sample_world no_rows) =
     (w', [(0, Raise (Retry 1)); (1, Raise (Retry 1)); (2, Raise (Retry 1));
           (3, Raise (Retry 1)); (4, Raise (Retry 1)); (5, Ok tt)]).
Proof.
  destruct (C1_absent_job_retries ok_env sample_uuid sample_uuid (sample_world no_rows) 6
              eq_refl eq_refl eq_refl ltac:(lia)) as [(w' & E & _) _].
  exists w'. exact E.
Defined.

(** C1, the claim as stated fails: a Celery run of [transcribe_audio] for a
    job id with no record loads it six times (task runs with retries 0 to 5),
    not at most five. *)
Lemma C1_six_loads_counterexample :
  map fst (snd (celery_execute ok_env 10 sample_uuid 0 (sample_world no_rows)))
  = [0; 1; 2; 3; 4; 5].
Proof. vm_compute. reflexivity. Qed.


(** C2: no entry point of the worker changes a job's status: a run of
    [_run_transcription] (with or without a Celery task), a chain of Celery
    executions of [transcribe_audio] and [enqueue_transcription] leave the
    committed job rows exactly as they were.  So no status ever moves, and a
    finished job stays finished. *)
Theorem C2_worker_keeps_job_rows (env : Env) (job_id : string) (task : option Task)
  (celery_app : option CeleryApp) (fuel r : nat) (w : World) :
  committed (fst (_run_transcription env job_id task w)) = committed w /\
  committed (fst (celery_execute env fuel job_id r w)) = committed w /\
  committed (fst (enqueue_transcription env celery_app job_id w)) = committed w.
Proof.
  split; [|split].
  - apply run_preserves.
  - apply celery_preserves.
  - apply enqueue_preserves.
Qed.

(** C3: for a job whose record is present and whose input audio file is
    missing, [_run_transcription] raises [AttributeError('running')] at
    [job.status = JobStatus.running] before reaching the Prepare step, and
    the job row is left as it was (still pending), with no file written.
    Lines 83-95 alone, run on the acquired job, do reach the missing file
    and log it, and then [_mark_job_error] raises [AttributeError('error')]
    at [job.status = JobStatus.error], so the status never becomes failed. *)
Theorem C3_missing_input_not_failed (env : Env) (job_id u : string) (task : option Task)
  (p : JobPayload) (w : World) (j : TranscriptionJob.t) :
  uuid_UUID env job_id = Some u -> db_up w = true -> committed w u = Some j ->
  files w (expanduser env (input_path p)) = None ->
  (exists w', _run_transcription env job_id task w = (w', Raise (AttributeError "running")) /\
     committed w' = committed w /\ writes w' = writes w) /\
  (exists w', _run_acquired env job_id u p w = (w', Raise (AttributeError "error")) /\
     committed w' = committed w /\ writes w' = writes w).
Proof.
  intros Hu Hup Hj Hf. split.
  - destruct (run_present env job_id u task w j Hu Hup Hj) as (w' & E & Hc & Hw & _).
    eauto.
  - destruct (run_acquired_missing_input env job_id u p w j Hf Hup Hj) as (w' & E & Hc & Hw & _).
    eauto.
Qed.

Lemma C3_missing_input_not_failed_witness :
  snd (_run_transcription ok_env sample_uuid None (sample_world pending_rows))
    = Raise (AttributeError "running") /\
  snd (_run_acquired ok_env sample_uuid sample_uuid
         (mkJobPayload sample_uuid "/srv/uploads/missing.wav" "small" false)
         (sample_world pending_rows))
    = Raise (AttributeError "error").
Proof.
  destruct (C3_missing_input_not_failed ok_env sample_uuid sample_uuid None
              (mkJobPayload sample_uuid "/srv/uploads/missing.wav" "small" false)
              (sample_world pending_rows) sample_job eq_refl eq_refl eq_refl eq_refl)
    as [(w1 & E1 & _) (w2 & E2 & _)].
  rewrite E1, E2. split; reflexivity.
Defined.

(** C4: [_transcribe] writes its artifacts one after the other, in the order
    transcript.txt, segments.jsonl, transcript.srt, transcript.vtt, with no
    handling per format: the files written are the prepared audio and its
    sidecar (if any) followed by the first [k] artifacts, and when the write
    of artifact [i] raises, [k <= i], so no later artifact is attempted, and
    [_transcribe] raises unless all four were written ([k = 4]).  A job that
    lines 83-95 of [_run_transcription] bring to finished (from another
    status) has had all four artifacts written. *)
Theorem C4_sequential_artifact_writes (env : Env) (job_id u : string) (p : JobPayload)
  (w : World) :
  (forall w' r, _transcribe env u p w = (w', r) ->
     exists pre k,
       writes w' = app (writes w) (app pre (firstn k (transcript_paths env u))) /\
       incl pre [prepared_audio_path env u; json_sidecar (prepared_audio_path env u)] /\
       k <= 4 /\
       ((exists res, r = Ok res) <-> k = 4) /\
       (forall i, i < 4 -> fs_fails env (nth i (transcript_paths env u) "") = true -> k <= i)) /\
  (forall w' r j', _run_acquired env job_id u p w = (w', r) ->
     (forall j, committed w u = Some j -> TranscriptionJob.status j <> finished) ->
     committed w' u = Some j' -> TranscriptionJob.status j' = finished ->
     exists pre, writes w' = app (writes w) (app pre (transcript_paths env u)) /\
       incl pre [prepared_audio_path env u; json_sidecar (prepared_audio_path env u)]).
Proof.
  split.
  - intros w' r H. exact (transcribe_writes env u p w w' r H).
  - intros w' r j' H Hnot Hj' Hst. exact (run_acquired_finished env job_id u p w w' r j' H Hnot Hj' Hst).
Qed.

Lemma C4_sequential_artifact_writes_witness :
  (exists pre k,
     writes (fst (_transcribe srt_failing_env sample_uuid sample_payload (sample_world no_rows)))
     = app (writes (sample_world no_rows))
           (app pre (firstn k (transcript_paths srt_failing_env sample_uuid))) /\ k <= 2) /\
  (exists pre,
     writes (fst (_run_acquired ok_env sample_uuid sample_uuid sample_payload
                   (sample_world pending_rows)))
     = app (writes (sample_world pending_rows)) (app pre (transcript_paths ok_env sample_uuid))).
Proof.
  split.
  - destruct (C4_sequential_artifact_writes srt_failing_env sample_uuid sample_uuid sample_payload
                (sample_world no_rows)) as [H1 _].
    destruct (H1 _ _ (surjective_pairing _)) as (pre & k & Hw & _ & _ & _ & Hf).
    exists pre, k. split; [exact Hw|]. apply Hf; [lia | vm_compute; reflexivity].
  - destruct (C4_sequential_artifact_writes ok_env sample_uuid sample_uuid sample_payload
                (sample_world pending_rows)) as [_ H2].
    pose (R := _run_acquired ok_env sample_uuid sample_uuid sample_payload (sample_world pending_rows)).
    destruct (H2 (fst R) (snd R)
                (match committed (fst R) sample_uuid with Some j => j | None => sample_job end)
                (surjective_pairing _)) as (pre & Hw & _).
    + intros j E. vm_compute in E. injection E as <-. discriminate.
    + vm_compute. reflexivity.
    + vm_compute. reflexivity.
    + exists pre. exact Hw.
Defined.

(** C4, the claim as stated fails: when writing transcript.srt raises,
    transcript.vtt is never attempted and [_transcribe] raises the
    [OSError], so the job does not get to finished although txt and jsonl
    were written. *)
Lemma C4_vtt_not_attempted_counterexample :
  snd (_transcribe srt_failing_env sample_uuid sample_payload (sample_world no_rows))
    = Raise (OSError (path_div (job_dir ok_env sample_uuid) "transcript.srt")) /\
  writes (fst (_transcribe srt_failing_env sample_uuid sample_payload (sample_world no_rows)))
    = [prepared_audio_path ok_env sample_uuid;
       path_div (job_dir ok_env sample_uuid) "transcript.txt";
       path_div (job_dir ok_env sample_uuid) "segments.jsonl"].
Proof. vm_compute. split; reflexivity. Qed.


(** C5: for the segments (0.0, 1.5, "hello") and (1.5, 3.0, "world") with no
    speaker, [_to_srt] returns the 1-indexed blocks
    "1\n00:00:00,000 --> 00:00:01,500\nhello" and
    "2\n00:00:01,500 --> 00:00:03,000\nworld" separated by a blank line, with
    the comma millisecond separator and no speaker prefix; the final
    [.strip()] removes the newlines after the last block, so the text ends
    in "world" with no trailing newline. *)
Theorem C5_srt_example :
  _to_srt [mk_segment 0 (3 # 2) "hello"; mk_segment (3 # 2) 3 "world"]
  = Ok ("1" ++ nl ++ "00:00:00,000 --> 00:00:01,500" ++ nl ++ "hello" ++ nl ++ nl
        ++ "2" ++ nl ++ "00:00:01,500 --> 00:00:03,000" ++ nl ++ "world").
Proof. vm_compute. reflexivity. Qed.

(** C5, the claim as stated fails: the output is not the text given in the
    claim, which ends with a newline after "world". *)
Lemma C5_trailing_newline_counterexample :
  obind (_to_srt [mk_segment 0 (3 # 2) "hello"; mk_segment (3 # 2) 3 "world"])
    (fun s => Ok (String.eqb s
       ("1" ++ nl ++ "00:00:00,000 --> 00:00:01,500" ++ nl ++ "hello" ++ nl ++ nl
        ++ "2" ++ nl ++ "00:00:01,500 --> 00:00:03,000" ++ nl ++ "world" ++ nl)))
  = Ok false.
Proof. vm_compute. reflexivity. Qed.

(** C6: for every value x with 0 <= x < 2^53, [_format_timestamp] returns a
    string that parses back, as HH:MM:SS,mmm (hours * 3600 + minutes * 60 +
    seconds + milliseconds / 1000), to a value within half a millisecond of x. *)
Theorem C6_timestamp_roundtrip (x : Q) :
  (0 <= x)%Q -> (x < inject_Z (2 ^ 53))%Q ->
  exists s p, _format_timestamp (PyFin x) = Ok s /\ spec_parse_timestamp s = Some p /\
              (Qabs (p - x) <= 1 # 2000)%Q.
Proof. exact (format_timestamp_roundtrip x). Qed.

Lemma C6_timestamp_roundtrip_witness :
  exists s p, _format_timestamp (PyFin (7323 # 2)) = Ok s /\ spec_parse_timestamp s = Some p /\
              (Qabs (p - (7323 # 2)) <= 1 # 2000)%Q.
Proof.
  apply (C6_timestamp_roundtrip (7323 # 2)); vm_compute; [discriminate | reflexivity].
Defined.

(** C6, the claim as stated fails: 59.99951171875 (a float) is formatted as
    "00:00:60,000", a seconds field that is not below 60 (the rounding does not
    carry into the minutes); and 1e20 is formatted as
    "27777777777777776:46:40,000", which parses back to 1e20 - 3600. *)
Lemma C6_large_value_counterexample :
  _format_timestamp (PyFin (245758 # 4096)) = Ok "00:00:60,000" /\
  _format_timestamp (PyFin (inject_Z (10 ^ 20))) = Ok "27777777777777776:46:40,000" /\
  match spec_parse_timestamp "27777777777777776:46:40,000" with
  | Some p => Qeq_bool p (inject_Z (10 ^ 20 - 3600))
  | None => false
  end = true.
Proof. vm_compute. split; [reflexivity | split; reflexivity]. Qed.




(** C8: [_post_process_segment] gives the segment the language [l] that is
    the segment's own language when it is set and non-empty, else the
    options' language hint when it is set and non-empty, else the language
    detected from the text; and the text
    [restore_punctuation? (normalize_text (inverse_text_normalize? text l) l) l],
    where inverse text normalization runs only when [enable_itn] holds,
    punctuation restoration only when [enable_punct] holds, and
    normalization always. *)
Theorem C8_postprocess_order
  (inverse_text_normalize normalize_text restore_punctuation : string -> string -> string)
  (detect_from_text : string -> string) (segment : Segment) (options : TranscriptionOptions.t) :
  let fallback :=
    match TranscriptionOptions.language_hint options with
    | Some h => if str_truthy h then h else detect_from_text (text segment)
    | None => detect_from_text (text segment)
    end in
  let l :=
    match language segment with
    | Some l => if str_truthy l then l else fallback
    | None => fallback
    end in
  let out := _post_process_segment inverse_text_normalize normalize_text restore_punctuation
               detect_from_text segment options in
  language out = Some l /\
  text out =
    (if TranscriptionOptions.enable_punct options then restore_punctuation else fun t _ => t)
      (normalize_text
         ((if TranscriptionOptions.enable_itn options then inverse_text_normalize else fun t _ => t)
            (text segment) l) l) l /\
  (start out, end_ out, confidence out, speaker out, words out)
  = (start segment, end_ segment, confidence segment, speaker segment, words segment).
Proof.
  intros fallback l out. subst out l fallback. unfold _post_process_segment, detect. cbn.
  split; [reflexivity|]. split; [|reflexivity].
  destruct (TranscriptionOptions.enable_punct options), (TranscriptionOptions.enable_itn options);
    reflexivity.
Qed.

(** C8, the claim as stated fails: with [enable_itn] and [enable_punct] both
    off, normalization still runs (the options have no switch for it), and a
    segment tagged "lo" keeps that language over the hint "th". *)
Lemma C8_normalization_always_runs_counterexample :
  text (_post_process_segment (tag "[itn]") (tag "[norm]") (tag "[punct]") (fun _ => "th")
          lo_segment toggles_off) = "abc[norm]" /\
  language (_post_process_segment (tag "[itn]") (tag "[norm]") (tag "[punct]") (fun _ => "th")
              lo_segment toggles_off) = Some "lo".
Proof. vm_compute. split; reflexivity. Qed.


(** C9: every segment the faster-whisper adapter returns has as confidence
    a float of the closed interval [0.0, 1.0]: [max(0.0, min(1.0, e))] of the
    exponentiated score (NaN and infinities included), 0.0 for a missing score
    or one [float] rejects, and 0.0 for the empty segment added when the model
    returns none. *)
Theorem C9_confidence_in_unit_interval (py_float : pyvalue -> outcome pyfloat)
  (math_exp : pyfloat -> outcome pyfloat) (lang : option string) (raw : list RawSegment)
  (segs : list Segment) :
  FasterWhisperBackend_transcribe py_float math_exp lang raw = Ok segs ->
  forall s, In s segs -> exists q, confidence s = PyFin q /\ (0 <= q <= 1)%Q.
Proof.
  unfold FasterWhisperBackend_transcribe.
  destruct (adapt_segments py_float math_exp lang raw) as [segs'|e] eqn:E; cbn; [|discriminate].
  pose proof (adapt_segments_unit _ _ _ _ _ E) as Hu.
  destruct segs' as [|s0 rest]; intros H; injection H as <-; intros s Hs.
  - destruct Hs as [<-|[]]. exists 0%Q. split; [reflexivity | lra].
  - rewrite Forall_forall in Hu. exact (Hu s Hs).
Qed.

Lemma C9_confidence_in_unit_interval_witness :
  exists segs, FasterWhisperBackend_transcribe sample_py_float sample_exp (Some "th") sample_raw
               = Ok segs /\
  Forall (fun s => exists q, confidence s = PyFin q /\ (0 <= q <= 1)%Q) segs.
Proof.
  eexists. split; [vm_compute; reflexivity|].
  apply Forall_forall.
  apply (C9_confidence_in_unit_interval sample_py_float sample_exp (Some "th") sample_raw).
  vm_compute. reflexivity.
Defined.

(** C10: when no Celery application is available, [enqueue_transcription]
    on the id of an existing job runs [_run_transcription] synchronously,
    which raises [AttributeError('running')] at [job.status =
    JobStatus.running]: the call raises, nothing is queued, and the job row
    is left as it was (still pending). *)
Theorem C10_sync_enqueue_raises (env : Env) (job_id u : string) (w : World)
  (j : TranscriptionJob.t) :
  uuid_UUID env job_id = Some u -> db_up w = true -> committed w u = Some j ->
  exists w', enqueue_transcription env None job_id w = (w', Raise (AttributeError "running")) /\
    queue w' = queue w /\ committed w' = committed w.
Proof.
  intros Hu Hup Hj. unfold enqueue_transcription. unfold bind at 1, log at 1.
  destruct (run_present env job_id u None
              (add_log ("Celery unavailable; running job " ++ job_id ++ " synchronously") w) j
              Hu Hup Hj) as (w' & E & Hc & _ & Hq).
  rewrite E. exists w'. split; [reflexivity|]. split; [exact Hq | exact Hc].
Qed.

Lemma C10_sync_enqueue_raises_witness :
  snd (enqueue_transcription ok_env None sample_uuid (sample_world pending_rows))
  = Raise (AttributeError "running").
Proof.
  destruct (C10_sync_enqueue_raises ok_env sample_uuid sample_uuid (sample_world pending_rows)
              sample_job eq_refl eq_refl eq_refl) as (w' & E & _).
  rewrite E. reflexivity.
Defined.



(* ------------------------------------------------------------------------ *)
(** * Further properties of the worker *)

Lemma format_timestamp_cases (x : pyfloat) :
  (is_finite x = true /\ exists s, _format_timestamp x = Ok s) \/
  (is_finite x = false /\ _format_timestamp x = Raise ValueError).
Proof. destruct x; [left; split; [reflexivity| eexists; reflexivity] | right; split; reflexivity ..]. Qed.

Lemma srt_lines_fail (index : nat) (segs : list Segment) :
  forall e, srt_lines index segs = Raise e <-> e = ValueError /\ has_nonfinite_time segs = true.
Proof.
  revert index. induction segs as [|s rest IH]; intros index e; cbn [srt_lines has_nonfinite_time existsb].
  - split; [discriminate | intros [_ H]; discriminate].
  - destruct (format_timestamp_cases (start s)) as [[Hs [ts Es]]|[Hs Es]]; rewrite Es, Hs; cbn [obind negb andb orb].
    + destruct (format_timestamp_cases (end_ s)) as [[He [te Ee]]|[He Ee]]; rewrite Ee, He; cbn [obind negb orb].
      * specialize (IH (S index) e). unfold has_nonfinite_time in IH.
        destruct (srt_lines (S index) rest); cbn [obind].
        -- split; [discriminate|]. intros H. apply IH in H. discriminate.
        -- exact IH.
      * split; [intros H; injection H as <-; auto | intros [-> _]; reflexivity].
    + split; [intros H; injection H as <-; auto | intros [-> _]; reflexivity].
Qed.

Lemma vtt_lines_fail (segs : list Segment) :
  forall e, vtt_lines segs = Raise e <-> e = ValueError /\ has_nonfinite_time segs = true.
Proof.
  induction segs as [|s rest IH]; intros e; cbn [vtt_lines has_nonfinite_time existsb].
  - split; [discriminate | intros [_ H]; discriminate].
  - destruct (format_timestamp_cases (start s)) as [[Hs [ts Es]]|[Hs Es]]; rewrite Es, Hs; cbn [obind negb andb orb].
    + destruct (format_timestamp_cases (end_ s)) as [[He [te Ee]]|[He Ee]]; rewrite Ee, He; cbn [obind negb orb].
      * specialize (IH e). unfold has_nonfinite_time in IH.
        destruct (vtt_lines rest); cbn [obind].
        -- split; [discriminate|]. intros H. apply IH in H. discriminate.
        -- exact IH.
      * split; [intros H; injection H as <-; auto | intros [-> _]; reflexivity].
    + split; [intros H; injection H as <-; auto | intros [-> _]; reflexivity].
Qed.

(** X1: [_to_srt] and [_to_vtt] fail only with [ValueError], and they fail
    exactly when some segment has a start or end time that is infinite or
    NaN; on finite times they always return their text. *)
Theorem X_encoders_nonfinite (segments : list Segment) :
  (forall e, _to_srt segments = Raise e <-> e = ValueError /\ has_nonfinite_time segments = true) /\
  (forall e, _to_vtt segments = Raise e <-> e = ValueError /\ has_nonfinite_time segments = true).
Proof.
  split; intros e.
  - rewrite <- (srt_lines_fail 1 segments e). unfold _to_srt.
    destruct (srt_lines 1 segments); cbn; split; congruence.
  - rewrite <- (vtt_lines_fail segments e). unfold _to_vtt.
    destruct (vtt_lines segments); cbn; split; congruence.
Qed.

(** X2: [_copy_transcript_sidecar] calls [with_suffix] outside its [try]:
    for a source path with an empty name (such as "/"), or, when the
    sidecar exists, for a converted path with an empty name, it raises that
    [ValueError] and changes no file.  Otherwise it never raises: it copies
    the source's ".json" sidecar, when there is one, onto the converted
    file's ".json" path, and a failing copy is swallowed and leaves that
    path as it was.  No other file, no job row and nothing queued changes. *)
Theorem X_sidecar_best_effort (env : Env) (source converted : string) (w : World) :
  let '(w', r) := _copy_transcript_sidecar env source converted w in
  committed w' = committed w /\ queue w' = queue w /\
  match with_suffix ".json" source with
  | Raise e => r = Raise e /\ e = ValueError /\ files w' = files w
  | Ok sidecar =>
      match files w sidecar with
      | None => r = Ok tt /\ files w' = files w
      | Some c =>
          match with_suffix ".json" converted with
          | Raise e => r = Raise e /\ e = ValueError /\ files w' = files w
          | Ok target =>
              r = Ok tt /\ (forall p, p <> target -> files w' p = files w p) /\
              files w' target = (if fs_fails env target then files w target else Some c)
          end
      end
  end.
Proof.
  unfold _copy_transcript_sidecar, bind, lift, path_exists, try_, shutil_copy, write_text, log, ret.
  destruct (with_suffix ".json" source) as [sc|e] eqn:Es;
    [|pose proof (with_suffix_raise _ _ _ Es); cbn; auto].
  destruct (with_suffix ".json" converted) as [t|e] eqn:Ec.
  - destruct (files w sc) as [c|] eqn:Ex; cbn; [|auto].
    rewrite Ex. destruct (fs_fails env t); cbn.
    + repeat split; auto.
    + repeat split; auto.
      * intros q Hq. apply String.eqb_neq in Hq. now rewrite Hq.
      * now rewrite String.eqb_refl.
  - pose proof (with_suffix_raise _ _ _ Ec).
    destruct (files w sc) as [c|] eqn:Ex; cbn; auto.
Qed.

Lemma acquire_down (env : Env) (u : string) (task : option Task) (w : World) :
  db_up w = false ->
  exists w1, _acquire_job env u task w =
    (w1, Raise (match task with
                | Some t => task_retry t (Some OperationalError)
                | None => OperationalError end)) /\
    db_up w1 = false /\ committed w1 = committed w /\ queue w1 = queue w /\ writes w1 = writes w /\
    logs w1 = app (logs w) [db_not_ready_log u].
Proof.
  intros Hd. unfold _acquire_job, db_session, bind, try_, session_get. cbn. rewrite Hd.
  destruct task as [t|]; cbn.
  - unfold task_retry. destruct (max_retries <? request_retries t + 1)%nat; cbn.
    all: eexists; split; [reflexivity | cbn; auto 6].
  - eexists; split; [reflexivity | cbn; auto 6].
Qed.

Lemma run_down (env : Env) (job_id u : string) (task : option Task) (w : World) :
  uuid_UUID env job_id = Some u -> db_up w = false ->
  exists w1, _run_transcription env job_id task w =
    (w1, Raise (match task with
                | Some t => task_retry t (Some OperationalError)
                | None => OperationalError end)) /\
    db_up w1 = false /\ committed w1 = committed w /\ queue w1 = queue w /\ writes w1 = writes w /\
    logs w1 = app (logs w) ["Starting transcription job " ++ job_id; db_not_ready_log u].
Proof.
  intros Hu Hd. unfold _run_transcription. unfold bind at 1, log at 1. rewrite Hu.
  unfold bind at 1.
  destruct (acquire_down env u task (add_log ("Starting transcription job " ++ job_id) w) Hd)
    as (w1 & E & H1 & H2 & H3 & H4 & H5).
  rewrite E. exists w1. split; [reflexivity|]. cbn in *. rewrite H5, <- app_assoc. auto.
Qed.

Lemma celery_chain_down (env : Env) (job_id u : string) (k : nat) :
  uuid_UUID env job_id = Some u ->
  forall r w fuel, (r + k = 5)%nat -> (k < fuel)%nat -> db_up w = false ->
  exists w', celery_execute env fuel job_id r w =
             (w', app (map (fun i => (i, Raise (Retry 1))) (seq r k)) [(5%nat, Raise OperationalError)]) /\
    committed w' = committed w /\ queue w' = queue w /\ writes w' = writes w /\
    logs w' = app (logs w) (concat (repeat ["Starting transcription job " ++ job_id; db_not_ready_log u] (S k))).
Proof.
  intros Hu. induction k as [|k IH]; intros r w fuel Hrk Hf Hd.
  - replace r with 5%nat by lia. destruct fuel as [|fuel]; [lia|].
    destruct (run_down env job_id u (Some (mkTask 5)) w Hu Hd) as (w1 & E & _ & Hc & Hq & Hw & Hl).
    exists w1. cbn [celery_execute]. unfold transcribe_audio. rewrite E. cbn. auto.
  - destruct fuel as [|fuel]; [lia|].
    destruct (run_down env job_id u (Some (mkTask r)) w Hu Hd) as (w1 & E & Hd1 & Hc1 & Hq1 & Hw1 & Hl1).
    assert (Er : task_retry (mkTask r) (Some OperationalError) = Retry 1).
    { unfold task_retry, max_retries. cbn [request_retries]. replace (5 <? r + 1)%nat with false by (symmetry; apply Nat.ltb_ge; lia). reflexivity. }
    rewrite Er in E.
    destruct (IH (S r) w1 fuel ltac:(lia) ltac:(lia) Hd1) as (w2 & E2 & Hc2 & Hq2 & Hw2 & Hl2).
    exists w2. cbn [celery_execute]. unfold transcribe_audio. rewrite E, E2. split; [reflexivity|].
    split; [congruence|]. split; [congruence|]. split; [congruence|].
    rewrite Hl2, Hl1. cbn [repeat concat]. rewrite <- !app_assoc. reflexivity.
Qed.

(** X3: when the database is down, each run of the Celery task logs
    "Database not ready" and retries, so the task runs six times (retries
    0 to 5) and the last run raises [OperationalError]; run without a task,
    [_run_transcription] raises [OperationalError] at once.  No job row and
    no file changes. *)
Theorem X_database_down (env : Env) (job_id u : string) (w : World) (fuel : nat) :
  uuid_UUID env job_id = Some u -> db_up w = false -> 5 < fuel ->
  (exists w', celery_execute env fuel job_id 0 w =
     (w', [(0, Raise (Retry 1)); (1, Raise (Retry 1)); (2, Raise (Retry 1));
           (3, Raise (Retry 1)); (4, Raise (Retry 1)); (5, Raise OperationalError)]) /\
     committed w' = committed w /\ queue w' = queue w /\ writes w' = writes w /\
     logs w' = app (logs w) (concat (repeat ["Starting transcription job " ++ job_id;
                                            db_not_ready_log u] 6))) /\
  (exists w', _run_transcription env job_id None w = (w', Raise OperationalError) /\
     committed w' = committed w /\ writes w' = writes w).
Proof.
  intros Hu Hd Hf. split.
  - exact (celery_chain_down env job_id u 5 Hu 0 w fuel eq_refl Hf Hd).
  - destruct (run_down env job_id u None w Hu Hd) as (w1 & E & _ & Hc & _ & Hw & _).
    eauto.
Qed.

Lemma acquire_retry_lt (env : Env) (u : string) (r c : nat) (w : World) :
  snd (_acquire_job env u (Some (mkTask r)) w) = Raise (Retry c) -> r < 5.
Proof.
  unfold _acquire_job, db_session, bind, try_, session_get. cbn.
  unfold task_retry, max_retries. cbn [request_retries].
  destruct (Nat.ltb_spec 5 (r + 1)) as [Hlt|Hge]; [|intros; lia].
  destruct (db_up w); cbn; [destruct (committed w u); cbn|]; discriminate.
Qed.

Lemma transcribe_retry_lt (env : Env) (job_id : string) (r c : nat) (w : World) :
  snd (transcribe_audio env (mkTask r) job_id w) = Raise (Retry c) -> r < 5.
Proof.
  unfold transcribe_audio, _run_transcription. unfold bind at 1, log at 1.
  destruct (uuid_UUID env job_id) as [u|]; [|discriminate]. unfold bind at 1.
  pose proof (acquire_retry_lt env u r c (add_log ("Starting transcription job " ++ job_id) w)) as H.
  pose proof (acquire_preserves env u (Some (mkTask r)) (add_log ("Starting transcription job " ++ job_id) w))
    as [_ Hn].
  destruct (_acquire_job env u (Some (mkTask r)) _) as [w1 [[p|]|e]]; cbn in *.
  - exfalso. exact (Hn p eq_refl).
  - discriminate.
  - intros E. injection E as ->. exact (H eq_refl).
Qed.

Lemma celery_bound (env : Env) (job_id : string) (fuel : nat) :
  forall r w, r <= 5 ->
  length (snd (celery_execute env fuel job_id r w)) <= 6 - r /\
  map fst (snd (celery_execute env fuel job_id r w)) = seq r (length (snd (celery_execute env fuel job_id r w))).
Proof.
  induction fuel as [|fuel IH]; intros r w Hr; cbn [celery_execute]; [cbn; split; [lia|reflexivity]|].
  pose proof (transcribe_retry_lt env job_id r) as Hlt.
  destruct (transcribe_audio env (mkTask r) job_id w) as [w1 [[]|[]]] eqn:E; cbn [snd length map fst];
    try (split; [lia | reflexivity]).
  specialize (Hlt countdown w). rewrite E in Hlt. specialize (Hlt eq_refl).
  destruct (IH (S r) w1 ltac:(lia)) as [Hl Hm].
  destruct (celery_execute env fuel job_id (S r) w1) as [w2 t]. cbn [snd length map fst] in *.
  split; [lia|]. rewrite Hm. reflexivity.
Qed.

Lemma X_database_down_witness :
  snd (_run_transcription ok_env sample_uuid None offline_world) = Raise OperationalError.
Proof.
  destruct (X_database_down ok_env sample_uuid sample_uuid offline_world 6
              eq_refl eq_refl ltac:(lia)) as [_ (w' & E & _)].
  rewrite E. reflexivity.
Defined.

(** X4: whatever the jobs, files and database do, a chain of Celery runs of
    [transcribe_audio] started with no retry has at most six runs, numbered
    0, 1, 2, ... in order. *)
Theorem X_at_most_six_runs (env : Env) (job_id : string) (fuel : nat) (w : World) :
  let trace := snd (celery_execute env fuel job_id 0 w) in
  length trace <= 6 /\ map fst trace = seq 0 (length trace).
Proof. exact (celery_bound env job_id fuel 0 w ltac:(lia)). Qed.

(** X5: when [_mark_job_finished] receives a blank transcript text and a
    transcript path, and the job row exists, it reads that file.  When the
    file holds UTF-8, the job is stored as finished with the text read
    (universal newlines applied); when there is no such file, as finished
    with the blank text.  When the file's bytes are not UTF-8, the
    [UnicodeDecodeError] is not an [OSError] and escapes: the session rolls
    back and the stored row is left as it was. *)
Theorem X_finished_text_fallback (u : string) (res : ResultPayload) (w : World)
  (j : TranscriptionJob.t) :
  db_up w = true -> committed w u = Some j ->
  str_truthy (py_strip (result_text res)) = false -> str_truthy (txt_path res) = true ->
  match files w (txt_path res) with
  | Some c =>
      if utf8_valid (list_ascii_of_string c) then
        exists w' j', _mark_job_finished u res w = (w', Ok tt) /\ committed w' u = Some j' /\
          TranscriptionJob.status j' = finished /\
          TranscriptionJob.text j' = Some (string_of_list_ascii (translate_newlines (list_ascii_of_string c))) /\
          TranscriptionJob.output_txt_path j' = Some (txt_path res)
      else
        exists w', _mark_job_finished u res w = (w', Raise UnicodeDecodeError) /\ committed w' u = Some j
  | None =>
      exists w' j', _mark_job_finished u res w = (w', Ok tt) /\ committed w' u = Some j' /\
        TranscriptionJob.status j' = finished /\
        TranscriptionJob.text j' = Some (result_text res) /\
        TranscriptionJob.output_txt_path j' = Some (txt_path res)
  end.
Proof.
  intros Hup Hj Hs Ht. unfold _mark_job_finished, db_session, bind, session_get. cbn.
  rewrite Hup, Hj. cbn.
  replace ((negb (str_truthy (result_text res)) || negb (str_truthy (py_strip (result_text res))))
           && str_truthy (txt_path res)) with true
    by (rewrite Hs, Ht; now rewrite orb_true_r).
  unfold try_, read_text. cbn. destruct (files w (txt_path res)) as [c|]; cbn.
  - destruct (utf8_valid (list_ascii_of_string c)); cbn.
    + eexists _, _; (split; [reflexivity|]); cbn; rewrite String.eqb_refl, Hj; cbn; auto.
    + eexists; split; [reflexivity|]. cbn. exact Hj.
  - eexists _, _; (split; [reflexivity|]); cbn; rewrite String.eqb_refl, Hj; cbn; auto.
Qed.

Lemma X_finished_text_fallback_witness :
  exists w' j', _mark_job_finished sample_uuid
    (mkResultPayload "  " None "/srv/jobs/transcript.txt" "a.srt" "a.vtt" "a.jsonl")
    (add_file "/srv/jobs/transcript.txt" (String "a" (String "013" (String "010" (String "b" ""))))
       (sample_world pending_rows))
    = (w', Ok tt) /\ committed w' sample_uuid = Some j' /\
    TranscriptionJob.text j' = Some (String "a" (String "010" (String "b" ""))).
Proof.
  pose proof (X_finished_text_fallback sample_uuid
                (mkResultPayload "  " None "/srv/jobs/transcript.txt" "a.srt" "a.vtt" "a.jsonl")
                (add_file "/srv/jobs/transcript.txt" (String "a" (String "013" (String "010" (String "b" ""))))
                   (sample_world pending_rows))
                sample_job eq_refl eq_refl eq_refl eq_refl) as H.
  cbn [txt_path files add_file sample_world String.eqb Ascii.eqb Bool.eqb] in H. cbn in H.
  destruct H as (w' & j' & E & Hc & _ & Ht & _).
  exists w', j'. split; [exact E|]. split; [exact Hc|]. exact Ht.
Defined.

(* ------------------------------------------------------------------------ *)
(** * Properties of the text postprocessing and diarization *)

Lemma append_cancel_l (p a b : string) : p ++ a = p ++ b -> a = b.
Proof. induction p as [|c p IH]; cbn; [auto|]. intros H. injection H as H. auto. Qed.

Lemma speaker_label_inj (i j : nat) : speaker_label i = speaker_label j -> i = j.
Proof.
  unfold speaker_label. intros H. apply append_cancel_l in H.
  rewrite !fmt_int0_nonneg in H by lia.
  apply (f_equal parse_uint) in H. rewrite !parse_uint_zeros in H.
  injection H as H. lia.
Qed.

Lemma NoDup_map_inj {A B} (f : A -> B) (l : list A) :
  (forall x y, f x = f y -> x = y) -> NoDup l -> NoDup (map f l).
Proof.
  intros Hf Hl. induction Hl as [|x l Hx Hl IH]; cbn; constructor; auto.
  intros Hin. apply in_map_iff in Hin as (y & Hy & Hin). apply Hf in Hy. subst. auto.
Qed.

Lemma zip_set_speaker_seq (segments : list Segment) (k : nat) :
  forall i s, nth_error segments i = Some s ->
  nth_error (zip_set_speaker segments (map speaker_label (seq k (length segments)))) i
  = Some (set_speaker s (speaker_label (k + i))).
Proof.
  revert k. induction segments as [|x rest IH]; intros k i s H; [destruct i; discriminate|].
  destruct i as [|i]; cbn in *.
  - injection H as <-. now rewrite Nat.add_0_r.
  - rewrite (IH (S k) i s H). now rewrite Nat.add_succ_r.
Qed.

Lemma zip_set_speaker_length (segments : list Segment) (labels : list string) :
  length (zip_set_speaker segments labels) = length segments.
Proof.
  revert labels. induction segments as [|x rest IH]; intros [|l ls]; cbn; auto.
Qed.

(** X6: [_apply_diarization] keeps the number and the order of the
    segments. With diarization enabled, the segment at index i comes back
    with speaker [SPEAKER_ii] (index i, at least two digits) and nothing else
    changed; with it disabled every segment comes back unchanged. The labels
    of [assign_speakers] are pairwise distinct. *)
Theorem X_diarization_labels (segments : list Segment) (audio_path : string)
  (options : TranscriptionOptions.t) :
  let out := _apply_diarization segments audio_path options in
  length out = length segments /\
  (forall i s, nth_error segments i = Some s ->
     nth_error out i = Some (if TranscriptionOptions.enable_diarization options
                             then set_speaker s (speaker_label i) else s)) /\
  NoDup (assign_speakers audio_path segments).
Proof.
  cbv zeta. unfold _apply_diarization.
  split; [|split].
  - destruct (TranscriptionOptions.enable_diarization options); cbn; [apply zip_set_speaker_length|reflexivity].
  - intros i s H. destruct (TranscriptionOptions.enable_diarization options); cbn; [|exact H].
    unfold assign_speakers. destruct segments as [|x rest]; [destruct i; discriminate|].
    exact (zip_set_speaker_seq (x :: rest) 0 i s H).
  - unfold assign_speakers. destruct segments; [constructor|].
    apply NoDup_map_inj; [exact speaker_label_inj | apply seq_NoDup].
Qed.

Lemma words_small_ok :
  forallb (fun n => ustr_truthy (_number_to_words n) && forallb is_thai_letter (_number_to_words n)) below1000 = true.
Proof. vm_compute. reflexivity. Qed.

Lemma words_small_inj :
  (let t := words_table in forallb (fun p => forallb (fun q => implb (ustring_eqb (snd p) (snd q)) (N.eqb (fst p) (fst q))) t) t) = true.
Proof. vm_compute. reflexivity. Qed.

Lemma uint_digits (d : Decimal.uint) :
  Forall (fun a => is_digit_char a = true) (list_ascii_of_string (NilEmpty.string_of_uint d)).
Proof. induction d; cbn; constructor; auto. Qed.

Lemma utf8_decode_ascii (l : list ascii) :
  Forall (fun a => is_digit_char a = true) l -> utf8_decode l = map byte_value l.
Proof.
  induction 1 as [|a l Ha _ IH]; [reflexivity|].
  cbn [utf8_decode map]. rewrite IH.
  assert (Hb : (byte_value a < 0xC0)%Z).
  { destruct a as [[] [] [] [] [] [] [] []]; vm_compute in Ha; try discriminate; reflexivity. }
  apply Z.ltb_lt in Hb. now rewrite Hb.
Qed.

Lemma ustr_digits (n : N) : ustr (digits_N n) = map byte_value (list_ascii_of_string (digits_N n)).
Proof. apply utf8_decode_ascii, uint_digits. Qed.

Lemma byte_value_inj (a b : ascii) : byte_value a = byte_value b -> a = b.
Proof.
  unfold byte_value. intros H. apply Nat2Z.inj in H.
  rewrite <- (ascii_nat_embedding a), <- (ascii_nat_embedding b), H. reflexivity.
Qed.

Lemma map_inj {A B} (f : A -> B) (l1 l2 : list A) :
  (forall x y, f x = f y -> x = y) -> map f l1 = map f l2 -> l1 = l2.
Proof.
  intros Hf. revert l2. induction l1 as [|x l1 IH]; intros [|y l2]; cbn; try discriminate; auto.
  intros H. injection H as H1 H2. f_equal; auto.
Qed.

Lemma ustr_digits_inj (a b : N) : ustr (digits_N a) = ustr (digits_N b) -> a = b.
Proof.
  rewrite !ustr_digits. intros H. apply map_inj in H; [|exact byte_value_inj].
  apply (f_equal string_of_list_ascii) in H. rewrite !string_of_list_ascii_of_string in H.
  apply (f_equal (fun s => parse_uint (zeros 0 ++ s))) in H. rewrite !parse_uint_zeros in H.
  congruence.
Qed.

Lemma ustring_eqb_eq (a b : ustring) : ustring_eqb a b = true <-> a = b.
Proof.
  revert b. induction a as [|x a IH]; intros [|y b]; cbn; try (split; congruence).
  rewrite andb_true_iff, Z.eqb_eq, IH. split; [intros [-> ->]; reflexivity | intros H; injection H; auto].
Qed.

Lemma in_below1000 (n : N) : (n < 1000)%N -> In n below1000.
Proof.
  intros H. unfold below1000. apply in_map_iff. exists (N.to_nat n).
  split; [apply Nnat.N2Nat.id | apply in_seq; lia].
Qed.

Lemma words_small (n : N) : (n < 1000)%N ->
  ustr_truthy (_number_to_words n) = true /\ forallb is_thai_letter (_number_to_words n) = true.
Proof.
  intros H. pose proof words_small_ok as Hok. rewrite forallb_forall in Hok.
  apply andb_true_iff, Hok, in_below1000, H.
Qed.

Lemma words_large (n : N) : (1000 <= n)%N -> _number_to_words n = ustr (digits_N n).
Proof.
  intros H. unfold _number_to_words.
  replace (n <? 100)%N with false by (symmetry; apply N.ltb_ge; lia).
  replace (n <? 1000)%N with false by (symmetry; apply N.ltb_ge; lia). reflexivity.
Qed.

Lemma digits_not_thai (n : N) : forallb (fun c => negb (is_thai_letter c)) (ustr (digits_N n)) = true.
Proof.
  rewrite ustr_digits. apply forallb_forall. intros c Hc. apply in_map_iff in Hc as (a & <- & Ha).
  pose proof (uint_digits (N.to_uint n)) as Hd. rewrite Forall_forall in Hd.
  specialize (Hd a Ha).
  destruct a as [[] [] [] [] [] [] [] []]; vm_compute in Hd; try discriminate; reflexivity.
Qed.

Lemma digits_nonempty (n : N) : ustr_truthy (ustr (digits_N n)) = true.
Proof.
  rewrite ustr_digits. unfold digits_N. destruct (N.to_uint n) eqn:E; try reflexivity.
  exfalso. pose proof (DecimalN.Unsigned.of_to n) as H. rewrite E in H. cbn in H. subst n. discriminate E.
Qed.

Lemma words_mixed (a b : N) : (a < 1000)%N -> (1000 <= b)%N -> _number_to_words a <> _number_to_words b.
Proof.
  intros Ha Hb E. destruct (words_small a Ha) as [Hne Hth].
  rewrite E, (words_large b Hb) in Hth, Hne. pose proof (digits_not_thai b) as Hd.
  destruct (ustr (digits_N b)) as [|c l]; [discriminate|].
  cbn in Hth, Hd. destruct (is_thai_letter c); discriminate.
Qed.

(** X7: [_number_to_words] is injective on the numbers it is called on and
    never returns the empty string; below 1000 its result is made of Thai
    letters only (no digit), from 1000 on it is [str(number)]. *)
Theorem X_number_words (a b : N) :
  (_number_to_words a = _number_to_words b <-> a = b) /\
  ustr_truthy (_number_to_words a) = true /\
  (if (a <? 1000)%N then forallb is_thai_letter (_number_to_words a) = true
   else _number_to_words a = ustr (digits_N a)).
Proof.
  split; [|split].
  - split; [|intros ->; reflexivity]. intros E.
    destruct (N.ltb_spec a 1000) as [Ha|Ha]; destruct (N.ltb_spec b 1000) as [Hb|Hb].
    + pose proof words_small_inj as Hinj. cbv zeta in Hinj. rewrite forallb_forall in Hinj.
      assert (Ia : In (a, _number_to_words a) words_table) by (apply (in_map (fun n => (n, _number_to_words n))), in_below1000, Ha).
      assert (Ib : In (b, _number_to_words b) words_table) by (apply (in_map (fun n => (n, _number_to_words n))), in_below1000, Hb).
      specialize (Hinj _ Ia). rewrite forallb_forall in Hinj. specialize (Hinj _ Ib).
      cbn in Hinj. rewrite E in Hinj. assert (Hr : ustring_eqb (_number_to_words b) (_number_to_words b) = true) by (apply ustring_eqb_eq; reflexivity).
      rewrite Hr in Hinj. cbn in Hinj. apply N.eqb_eq, Hinj.
    + exfalso. exact (words_mixed a b Ha Hb E).
    + exfalso. exact (words_mixed b a Hb Ha (eq_sym E)).
    + rewrite (words_large a Ha), (words_large b Hb) in E. exact (ustr_digits_inj a b E).
  - destruct (N.ltb_spec a 1000) as [Ha|Ha]; [apply (words_small a Ha)|].
    rewrite (words_large a Ha). apply digits_nonempty.
  - destruct (N.ltb_spec a 1000) as [Ha|Ha]; [apply (words_small a Ha)|apply (words_large a Ha)].
Qed.

Section TextFacts.
Local Open Scope list_scope.

Lemma first_some_some {A B} (f : A -> option B) (l : list A) (b : B) :
  first_some f l = Some b -> exists x, In x l /\ f x = Some b.
Proof.
  induction l as [|x l IH]; cbn; [discriminate|].
  destruct (f x) eqn:E; [intros H; injection H as <-; eauto|].
  intros H. destruct (IH H) as (y & Hy & Hf). eauto.
Qed.

Lemma last_cp_app (prev : option Z) (a b : ustring) :
  last_cp (last_cp prev a) b = last_cp prev (a ++ b).
Proof.
  unfold last_cp. rewrite rev_app_distr. destruct (rev b); reflexivity.
Qed.

Lemma run_length_firstn (p : Z -> bool) (s : ustring) (n : nat) :
  n <= run_length p s -> forallb p (firstn n s) = true /\ length (firstn n s) = n.
Proof.
  revert n. induction s as [|c s IH]; intros n Hn; cbn in Hn.
  - replace n with 0 by lia. split; reflexivity.
  - destruct n as [|n]; [split; reflexivity|]. destruct (p c) eqn:Hp; [|lia].
    cbn. rewrite Hp. destruct (IH n ltac:(lia)) as [H1 H2]. now rewrite H1, H2.
Qed.

Lemma ustring_eqb_eq' (a b : ustring) : ustring_eqb a b = true <-> a = b.
Proof.
  revert b. induction a as [|x a IH]; intros [|y b]; cbn; try (split; congruence).
  rewrite andb_true_iff, Z.eqb_eq, IH. split; [intros [-> ->]; reflexivity | intros H; injection H; auto].
Qed.

Lemma u_startswith_app (a s : ustring) : u_startswith a s = true -> s = a ++ skipn (length a) s.
Proof.
  unfold u_startswith. intros H. apply ustring_eqb_eq' in H.
  rewrite <- H at 1. symmetry. apply firstn_skipn.
Qed.

Lemma match_items_sound {A} (items : list re_item) :
  forall prev s (k : option Z -> ustring -> option A) a,
  match_items items prev s k = Some a ->
  exists m rest, s = m ++ rest /\ items_accept items prev m /\ k (last_cp prev m) rest = Some a.
Proof.
  induction items as [|it items IH]; intros prev s k a H.
  - exists [], s. cbn in *. auto.
  - destruct it as [p mn mx|alts|p]; cbn [match_items] in H.
    + apply first_some_some in H as (n & Hn & H).
      apply in_rev, in_seq in Hn.
      apply IH in H as (m2 & rest & Hs & Hacc & Hk).
      assert (Hle : n <= run_length p s) by (destruct mx; lia).
      destruct (run_length_firstn p s n Hle) as [Hall Hlen].
      exists (firstn n s ++ m2), rest. split; [|split].
      * rewrite <- app_assoc, <- Hs. symmetry. apply firstn_skipn.
      * cbn. exists (firstn n s), m2. repeat split; auto; [lia|]. destruct mx; lia.
      * rewrite <- last_cp_app. exact Hk.
    + apply first_some_some in H as (x & Hx & H).
      destruct (u_startswith x s) eqn:Hst; [|discriminate].
      apply IH in H as (m2 & rest & Hs & Hacc & Hk).
      exists (x ++ m2), rest. split; [|split].
      * rewrite <- app_assoc, <- Hs. apply u_startswith_app, Hst.
      * cbn. exists x, m2. auto.
      * rewrite <- last_cp_app. exact Hk.
    + destruct prev as [c|]; [|discriminate]. destruct (p c) eqn:Hp; [|discriminate].
      apply IH in H as (m & rest & Hs & Hacc & Hk).
      exists m, rest. split; [exact Hs|]. split; [|exact Hk]. cbn. eauto.
Qed.

Lemma firstn_app_diff (m rest : ustring) :
  firstn (length (m ++ rest) - length rest) (m ++ rest) = m.
Proof.
  rewrite length_app. replace (length m + length rest - length rest) with (length m) by lia.
  rewrite firstn_app, Nat.sub_diag, firstn_O, app_nil_r. apply firstn_all.
Qed.

Lemma match_pieces_sound {A} (pieces : list re_piece) :
  forall prev s (k : list ustring -> option Z -> ustring -> option A) a,
  match_pieces pieces prev s k = Some a ->
  exists m rest gs, s = m ++ rest /\ pieces_accept pieces prev m gs /\
    k gs (last_cp prev m) rest = Some a.
Proof.
  induction pieces as [|pc pieces IH]; intros prev s k a H.
  - exists [], s, []. cbn in *. auto.
  - destruct pc as [i|items]; cbn [match_pieces] in H.
    + apply match_items_sound in H as (m1 & s1 & Hs & Hacc & H).
      apply IH in H as (m2 & rest & gs & Hs1 & Hp & Hk).
      exists (m1 ++ m2), rest, gs. split; [|split].
      * rewrite <- app_assoc, <- Hs1. exact Hs.
      * cbn. exists m1, m2. auto.
      * rewrite <- last_cp_app. exact Hk.
    + apply match_items_sound in H as (m1 & s1 & Hs & Hacc & H).
      apply IH in H as (m2 & rest & gs & Hs1 & Hp & Hk).
      rewrite Hs in Hk. rewrite firstn_app_diff in Hk.
      exists (m1 ++ m2), rest, (m1 :: gs). split; [|split].
      * rewrite <- app_assoc, <- Hs1. exact Hs.
      * cbn. exists m1, m2, gs. auto.
      * rewrite <- last_cp_app. exact Hk.
Qed.

Lemma re_match_at_sound (pieces : list re_piece) (prev : option Z) (s : ustring) gs rest :
  re_match_at pieces prev s = Some (gs, rest) ->
  exists m, s = m ++ rest /\ pieces_accept pieces prev m gs.
Proof.
  unfold re_match_at. intros H. apply match_pieces_sound in H as (m & rest' & gs' & Hs & Hp & Hk).
  injection Hk as -> ->. eauto.
Qed.

Lemma re_scan_from_spec (pieces : list re_piece) (fuel : nat) :
  forall prev s, length s <= fuel ->
  concat (map tok_text (re_scan_from fuel pieces prev s)) = s /\
  scan_ok pieces prev (re_scan_from fuel pieces prev s).
Proof.
  induction fuel as [|fuel IH]; intros prev s Hlen.
  - destruct s; [split; [reflexivity|exact I]|cbn in Hlen; lia].
  - destruct s as [|c s']; [split; [reflexivity|exact I]|].
    cbn [re_scan_from].
    destruct (re_match_at pieces prev (c :: s')) as [[gs rest]|] eqn:E.
    + destruct (Nat.ltb_spec (length rest) (length (c :: s'))) as [Hlt|Hge].
      * destruct (re_match_at_sound _ _ _ _ _ E) as (m & Hs & Hacc).
        rewrite Hs, firstn_app_diff. rewrite Hs in Hlt, Hlen.
        rewrite length_app in Hlt, Hlen.
        destruct (IH (last_cp prev m) rest ltac:(lia)) as [H1 H2].
        cbn [map concat tok_text]. rewrite H1. split; [reflexivity|].
        cbn [scan_ok]. rewrite H1. split; [destruct m; cbn in Hlt; [lia|discriminate]|].
        split; [exact Hacc|]. split; [rewrite <- Hs; exact E | exact H2].
      * destruct (IH (Some c) s' ltac:(cbn in Hlen; lia)) as [H1 H2].
        cbn [map concat tok_text app]. rewrite H1. split; [reflexivity|].
        cbn [scan_ok]. rewrite H1. split; [|exact H2].
        intros gs' rest' E'. rewrite E in E'. injection E' as <- <-.
        destruct (re_match_at_sound _ _ _ _ _ E) as (m & Hs & _).
        rewrite Hs, length_app in Hge. destruct m; cbn in Hge; [symmetry; exact Hs|].
        rewrite Hs. exfalso. lia.
    + destruct (IH (Some c) s' ltac:(cbn in Hlen; lia)) as [H1 H2].
      cbn [map concat tok_text app]. rewrite H1. split; [reflexivity|].
      cbn [scan_ok]. rewrite H1. split; [|exact H2].
      intros gs' rest' E'. rewrite E in E'. discriminate.
Qed.

Lemma re_scan_spec (pieces : list re_piece) (s : ustring) :
  concat (map tok_text (re_scan pieces s)) = s /\ scan_ok pieces None (re_scan pieces s).
Proof. apply re_scan_from_spec. lia. Qed.

Arguments u_isspace : simpl never.

(* ---- strip ---- *)
Lemma lstrip_nonspace_head (c : Z) (s : ustring) :
  u_isspace c = false -> u_lstrip (c :: s) = c :: s.
Proof. intros H. unfold u_lstrip. cbn [u_lstrip_by]. now rewrite H. Qed.

Lemma lstrip_all_space (a b : ustring) :
  forallb u_isspace a = true -> u_lstrip (a ++ b) = u_lstrip b.
Proof.
  unfold u_lstrip. induction a as [|c a IH]; [reflexivity|]. cbn [forallb app u_lstrip_by].
  intros H. apply andb_true_iff in H as [H1 H2]. rewrite H1. apply IH, H2.
Qed.

Lemma lstrip_keep (a b : ustring) :
  existsb nonspace a = true -> u_lstrip (a ++ b) = u_lstrip a ++ b.
Proof.
  unfold u_lstrip. induction a as [|c a IH]; [discriminate|]. cbn [existsb app u_lstrip_by].
  unfold nonspace at 1. destruct (u_isspace c); cbn; [exact IH|reflexivity].
Qed.

Lemma lstrip_nonspace (a : ustring) : forallb nonspace a = true -> u_lstrip a = a.
Proof.
  destruct a as [|c a]; [reflexivity|]. cbn. unfold nonspace. intros H.
  apply andb_true_iff in H as [H _]. apply negb_true_iff in H. now apply lstrip_nonspace_head.
Qed.

Lemma forallb_rev {A} (p : A -> bool) (l : list A) : forallb p (rev l) = forallb p l.
Proof.
  induction l as [|x l IH]; [reflexivity|]. cbn. rewrite forallb_app, IH. cbn.
  rewrite andb_true_r, andb_comm. reflexivity.
Qed.

Lemma existsb_rev {A} (p : A -> bool) (l : list A) : existsb p (rev l) = existsb p l.
Proof.
  induction l as [|x l IH]; [reflexivity|]. cbn. rewrite existsb_app, IH. cbn.
  rewrite orb_false_r, orb_comm. reflexivity.
Qed.

Lemma rstrip_nonspace (a : ustring) : forallb nonspace a = true -> u_rstrip a = a.
Proof.
  intros H. unfold u_rstrip. rewrite lstrip_nonspace; [apply rev_involutive|]. now rewrite forallb_rev.
Qed.

Lemma rstrip_drop (a b : ustring) : forallb u_isspace b = true -> u_rstrip (a ++ b) = u_rstrip a.
Proof.
  intros H. unfold u_rstrip. rewrite rev_app_distr, lstrip_all_space; [reflexivity|].
  now rewrite forallb_rev.
Qed.

Lemma rstrip_keep (a b : ustring) : existsb nonspace b = true -> u_rstrip (a ++ b) = a ++ u_rstrip b.
Proof.
  intros H. unfold u_rstrip. rewrite rev_app_distr, lstrip_keep by now rewrite existsb_rev.
  rewrite rev_app_distr, rev_involutive. reflexivity.
Qed.

(* ---- split / join ---- *)
Lemma split_from_nonempty (w t : ustring) : w <> [] -> u_split_from w t <> [].
Proof.
  revert w. induction t as [|c t IH]; intros w Hw; cbn.
  - destruct w; [congruence|discriminate].
  - destruct (u_isspace c); [destruct w; [congruence|discriminate]|]. apply IH. discriminate.
Qed.

Lemma split_from_spaces (m t : ustring) :
  forallb u_isspace m = true -> u_split_from [] (m ++ t) = u_split_from [] t.
Proof.
  induction m as [|c m IH]; [reflexivity|]. cbn [forallb app u_split_from].
  intros H. apply andb_true_iff in H as [H1 H2]. rewrite H1. apply IH, H2.
Qed.

Lemma split_from_space_run (w m t : ustring) : w <> [] -> m <> [] ->
  forallb u_isspace m = true -> u_split_from w (m ++ t) = rev w :: u_split_from [] t.
Proof.
  intros Hw Hm H. destruct m as [|c m]; [congruence|]. cbn [forallb] in H.
  apply andb_true_iff in H as [H1 H2]. cbn [app u_split_from]. rewrite H1.
  destruct w; [congruence|]. cbn [ustr_truthy]. f_equal. apply split_from_spaces, H2.
Qed.

Lemma split_from_words (w t : ustring) : forallb nonspace w = true ->
  Forall (fun x => x <> [] /\ forallb nonspace x = true) (u_split_from w t).
Proof.
  revert w. induction t as [|c t IH]; intros w Hw; cbn.
  - destruct w; constructor; [|constructor]. split; [destruct (rev _) eqn:E; [apply (f_equal (@rev Z)) in E; rewrite rev_involutive in E; discriminate|discriminate]|]. now rewrite forallb_rev.
  - destruct (u_isspace c) eqn:Hc.
    + destruct w; [apply IH; reflexivity|]. constructor; [|apply IH; reflexivity].
      split; [destruct (rev _) eqn:E; [apply (f_equal (@rev Z)) in E; rewrite rev_involutive in E; discriminate|discriminate]|]. now rewrite forallb_rev.
    + apply IH. cbn. unfold nonspace at 1. now rewrite Hc.
Qed.

Lemma join_cons (sep x : ustring) (l : list ustring) : l <> [] ->
  u_join sep (x :: l) = x ++ sep ++ u_join sep l.
Proof. destruct l; [congruence|reflexivity]. Qed.

(* ---- canonical whitespace ---- *)
Lemma canon_block (st : ws_state) (b r : ustring) : b <> [] -> forallb nonspace b = true ->
  ws_canon st (b ++ r) = ws_canon InWord r.
Proof.
  revert st. induction b as [|c b IH]; intros st Hb H; [congruence|].
  cbn in H. apply andb_true_iff in H as [H1 H2]. unfold nonspace in H1. apply negb_true_iff in H1.
  cbn. rewrite H1. destruct b; [reflexivity|]. apply IH; [discriminate|exact H2].
Qed.

Lemma canon_join (ws : list ustring) (st : ws_state) :
  Forall (fun x => x <> [] /\ forallb nonspace x = true) ws ->
  (ws <> [] \/ st = AtStart) -> ws_canon st (u_join [32%Z] ws) = true.
Proof.
  revert st. induction ws as [|x ws IH]; intros st Hf Hst.
  - destruct Hst as [Hst| ->]; [congruence|reflexivity].
  - inversion Hf as [|? ? [Hx Hxs] Hws]; subst.
    destruct ws as [|y ws].
    + cbn. rewrite <- (app_nil_r x). rewrite canon_block by assumption. reflexivity.
    + rewrite join_cons by discriminate. rewrite canon_block by assumption.
      cbn [ws_canon app]. replace (u_isspace 32) with true by reflexivity. cbn.
      apply IH; [exact Hws|left; discriminate].
Qed.

Lemma canon_split_join_gen (t : ustring) :
  (forall w, w <> [] -> forallb nonspace w = true -> ws_canon InWord t = true ->
     u_join [32%Z] (u_split_from w t) = rev w ++ t) /\
  (ws_canon AtStart t = true -> u_join [32%Z] (u_split_from [] t) = t) /\
  (ws_canon AfterSpace t = true -> u_join [32%Z] (u_split_from [] t) = t /\ u_split_from [] t <> []).
Proof.
  induction t as [|c t IH].
  - split; [|split].
    + intros w Hw _ _. cbn. destruct w; [congruence|]. cbn. rewrite app_nil_r. reflexivity.
    + reflexivity.
    + discriminate.
  - destruct IH as (IH1 & IH2 & IH3). cbn [ws_canon u_split_from].
    destruct (u_isspace c) eqn:Hc.
    + split; [|split; discriminate].
      intros w Hw Hwn H. apply andb_true_iff in H as [H1 H2]. apply Z.eqb_eq in H1. subst c.
      destruct (IH3 H2) as [Hj Hne]. destruct w as [|x w]; [congruence|]. cbn [ustr_truthy].
      rewrite join_cons by exact Hne. rewrite Hj. cbn. rewrite <- app_assoc. reflexivity.
    + assert (Hc' : forallb nonspace [c] = true) by (cbn; unfold nonspace; now rewrite Hc).
      split; [|split].
      * intros w Hw Hwn H. rewrite (IH1 (c :: w)); [| discriminate | cbn; unfold nonspace at 1; rewrite Hc; exact Hwn | exact H].
        cbn. rewrite <- app_assoc. reflexivity.
      * intros H. rewrite (IH1 [c]); [reflexivity|discriminate|exact Hc'|exact H].
      * intros H. rewrite (IH1 [c]); [|discriminate|exact Hc'|exact H].
        split; [reflexivity|]. apply split_from_nonempty. discriminate.
Qed.

Lemma canon_split_join (t : ustring) : ws_canon AtStart t = true -> u_join [32%Z] (u_split t) = t.
Proof. apply canon_split_join_gen. Qed.

(* ---- the whitespace pattern ---- *)
Lemma rev_seq_S (a n : nat) : rev (seq a (S n)) = (a + n) :: rev (seq a n).
Proof. rewrite seq_S. rewrite rev_app_distr. reflexivity. Qed.

Lemma ws_match (prev : option Z) (s : ustring) :
  re_match_at ws_pattern prev s =
  match run_length u_isspace s with 0 => None | n => Some ([], skipn n s) end.
Proof.
  unfold re_match_at, ws_pattern. cbn [match_pieces match_items].
  destruct (run_length u_isspace s) as [|n]; [reflexivity|].
  replace (S (S n) - 1) with (S n) by lia. rewrite rev_seq_S. cbn. reflexivity.
Qed.

Lemma run_length_app_all (p : Z -> bool) (m t : ustring) :
  forallb p m = true -> run_length p (m ++ t) = length m + run_length p t.
Proof.
  induction m as [|c m IH]; [reflexivity|]. cbn. intros H. apply andb_true_iff in H as [H1 H2].
  rewrite H1, IH by exact H2. reflexivity.
Qed.

Lemma skipn_app_len {A} (m t : list A) (k : nat) : skipn (length m + k) (m ++ t) = skipn k t.
Proof. induction m; cbn; auto. Qed.

Lemma skipn_self_zero (k : nat) (T : ustring) : skipn k T = T -> k = 0 \/ T = [].
Proof.
  intros H. destruct k as [|k]; [auto|]. right. apply (f_equal (@length Z)) in H.
  rewrite length_skipn in H. destruct T; [reflexivity|cbn in H; lia].
Qed.

Lemma ws_hit_rest (prev : option Z) (gs : list ustring) (m T : ustring) :
  m <> [] -> forallb u_isspace m = true ->
  re_match_at ws_pattern prev (m ++ T) = Some (gs, T) -> run_length u_isspace T = 0.
Proof.
  intros Hne Hall. rewrite ws_match, run_length_app_all by exact Hall.
  destruct (length m + run_length u_isspace T) as [|k] eqn:E; [discriminate|].
  intros Hs. assert (H : skipn (S k) (m ++ T) = T) by congruence. rewrite <- E, skipn_app_len in H.
  destruct (skipn_self_zero _ _ H) as [H0| ->]; [exact H0|reflexivity].
Qed.

Lemma ws_scan_shape (prev : option Z) (ts : list re_token) : scan_ok ws_pattern prev ts -> ws_shape ts.
Proof.
  revert prev. induction ts as [|t ts IH]; intros prev H; [exact I|].
  destruct t as [c|gs m]; cbn [scan_ok] in H; cbn [ws_shape].
  - destruct H as [Hl Hs]. split; [|exact (IH _ Hs)].
    destruct (u_isspace c) eqn:Hc; [|reflexivity]. exfalso.
    specialize (Hl [] (skipn (run_length u_isspace (c :: concat (map tok_text ts)))
                              (c :: concat (map tok_text ts)))).
    rewrite ws_match in Hl. cbn [run_length] in Hl. rewrite Hc in Hl. specialize (Hl eq_refl).
    cbn [skipn] in Hl. apply (f_equal (@length Z)) in Hl. rewrite length_skipn in Hl. cbn in Hl. lia.
  - destruct H as (Hne & Hacc & Hm & Hs).
    cbn in Hacc. destruct Hacc as (m1 & m2 & Hm12 & (m3 & m4 & E34 & Hall & Hmn & _ & Hm4) & Hm2 & Hgs).
    subst m4 m2. rewrite app_nil_r in E34, Hm12. subst m3 m1.
    split; [exact Hne|]. split; [exact Hall|]. split; [|exact (IH _ Hs)].
    pose proof (ws_hit_rest _ _ _ _ Hne Hall Hm) as Hr.
    destruct ts as [|[d|gs' m'] ts']; [exact I|exact I|].
    cbn in Hs. destruct Hs as (Hne' & Hacc' & _).
    cbn in Hacc'. destruct Hacc' as (n1 & n2 & Hn12 & (n3 & n4 & E34' & Hall' & Hmn' & _ & Hn4) & Hn2 & _).
    subst n4 n2. rewrite app_nil_r in E34', Hn12. subst n3 n1.
    cbn [map concat tok_text] in Hr. destruct m' as [|x m']; [congruence|].
    cbn [forallb] in Hall'. apply andb_true_iff in Hall' as [Hx _].
    cbn [app run_length] in Hr. rewrite Hx in Hr. discriminate.
Qed.

(* ---- collapsing whitespace ---- *)

Lemma split_from_space_block (w m t : ustring) : m <> [] -> forallb u_isspace m = true ->
  u_split_from w (m ++ t) = u_split_from w ([32%Z] ++ t).
Proof.
  intros Hm H. destruct m as [|c m]; [congruence|]. cbn [forallb] in H.
  apply andb_true_iff in H as [H1 H2]. cbn [app u_split_from]. rewrite H1.
  replace (u_isspace 32) with true by reflexivity. rewrite split_from_spaces by exact H2. reflexivity.
Qed.

Lemma split_render (ts : list re_token) (w : ustring) :
  ws_shape ts ->
  u_split_from w (concat (map (tok_render (fun _ => [32%Z])) ts)) =
  u_split_from w (concat (map tok_text ts)).
Proof.
  revert w. induction ts as [|t ts IH]; intros w H; [reflexivity|].
  destruct t as [c|gs m]; cbn [ws_shape] in H; cbn [map concat tok_render tok_text].
  - destruct H as [_ H]. cbn [app u_split_from]. destruct (u_isspace c); [|apply IH, H].
    rewrite !IH by exact H. reflexivity.
  - destruct H as (Hne & Hall & _ & H). rewrite (split_from_space_block w m) by assumption.
    cbn [app u_split_from]. replace (u_isspace 32) with true by reflexivity.
    rewrite !IH by exact H. reflexivity.
Qed.

Lemma join_split_single (r w : ustring) : forallb nonspace w = true -> sp_single r = true ->
  u_join [32%Z] (u_split_from w r) = u_strip (rev w ++ r).
Proof.
  revert w. induction r as [|c r IH]; intros w Hw H.
  - cbn [u_split_from]. rewrite app_nil_r. unfold u_strip.
    rewrite lstrip_nonspace, rstrip_nonspace by now rewrite forallb_rev.
    destruct w; reflexivity.
  - cbn [sp_single] in H. apply andb_true_iff in H as [Hc Hr]. cbn [u_split_from].
    destruct (u_isspace c) eqn:Ec.
    + apply andb_true_iff in Hc as [E32 Hd]. apply Z.eqb_eq in E32. subst c.
      destruct w as [|x w].
      * cbn [ustr_truthy rev app]. rewrite (IH [] eq_refl Hr). unfold u_strip.
        change (32%Z :: r) with ([32%Z] ++ r). rewrite (lstrip_all_space [32%Z] r) by reflexivity. reflexivity.
      * cbn [ustr_truthy].
        set (W := rev (x :: w)).
        assert (HW : forallb nonspace W = true) by (unfold W; now rewrite forallb_rev).
        assert (HWe : existsb nonspace W = true).
        { unfold W. rewrite existsb_rev. cbn in Hw |- *. apply andb_true_iff in Hw as [Hx _].
          now rewrite Hx. }
        unfold u_strip. rewrite lstrip_keep by exact HWe. rewrite (lstrip_nonspace W HW).
        destruct r as [|d r].
        -- cbn [u_split_from ustr_truthy u_join].
           rewrite (rstrip_drop W [32%Z]) by reflexivity. symmetry. apply rstrip_nonspace, HW.
        -- assert (Hd' : u_isspace d = false) by (apply negb_true_iff; exact Hd).
           assert (Hne : u_split_from [] (d :: r) <> []).
           { cbn [u_split_from]. rewrite Hd'. apply split_from_nonempty. discriminate. }
           rewrite join_cons by exact Hne. rewrite (IH [] eq_refl Hr).
           replace (W ++ 32%Z :: d :: r) with ((W ++ [32%Z]) ++ d :: r) by (rewrite <- app_assoc; reflexivity).
           rewrite rstrip_keep by (cbn; unfold nonspace at 1; now rewrite Hd').
           cbn [rev app]. unfold u_strip. rewrite lstrip_nonspace_head by exact Hd'. rewrite <- app_assoc. reflexivity.
    + rewrite (IH (c :: w)); [|cbn; unfold nonspace at 1; rewrite Ec; exact Hw|exact Hr].
      cbn [rev]. rewrite <- app_assoc. reflexivity.
Qed.

Lemma render_single (ts : list re_token) : ws_shape ts ->
  sp_single (concat (map (tok_render (fun _ => [32%Z])) ts)) = true.
Proof.
  induction ts as [|t ts IH]; intros H; [reflexivity|].
  destruct t as [c|gs m]; cbn [ws_shape] in H; cbn [map concat tok_render app sp_single].
  - destruct H as [Hc H]. rewrite Hc, IH by exact H. reflexivity.
  - destruct H as (_ & _ & Hnx & H). replace (u_isspace 32) with true by reflexivity.
    rewrite IH by exact H. rewrite andb_true_r. cbn.
    destruct ts as [|[d|gs' m'] ts']; [reflexivity| |contradiction].
    cbn in H |- *. destruct H as [Hd _]. now rewrite Hd.
Qed.

Lemma collapse_ws (s : ustring) :
  u_strip (re_sub ws_pattern (fun _ => [32%Z]) s) = u_join [32%Z] (u_split s).
Proof.
  destruct (re_scan_spec ws_pattern s) as [Ht Hok].
  pose proof (ws_scan_shape _ _ Hok) as Hsh.
  unfold re_sub. fold (tok_render (fun _ => [32%Z])).
  change (u_strip (rev [] ++ concat (map (tok_render (fun _ => [32%Z])) (re_scan ws_pattern s)))
          = u_join [32%Z] (u_split s)).
  rewrite <- join_split_single by (reflexivity || now apply render_single).
  unfold u_split. rewrite split_render by exact Hsh. rewrite Ht. reflexivity.
Qed.

Lemma class_accept (p : Z -> bool) (mn : nat) (mx : option nat) (prev : option Z) (m : ustring) :
  items_accept [RClass p mn mx] prev m ->
  forallb p m = true /\ mn <= length m /\ match mx with Some x => length m <= x | None => True end.
Proof.
  cbn [items_accept]. intros (a & b & -> & Ha & Hmn & Hmx & ->). rewrite app_nil_r. auto.
Qed.

Lemma re_sub_render (pieces : list re_piece) (repl : list ustring -> ustring) (s : ustring) :
  re_sub pieces repl s = concat (map (tok_render repl) (re_scan pieces s)).
Proof. reflexivity. Qed.

Lemma scan_hits (pieces : list re_piece) (ts : list re_token) : forall prev, scan_ok pieces prev ts ->
  forall gs m, In (Hit gs m) ts -> m <> [] /\ exists prev', pieces_accept pieces prev' m gs.
Proof.
  induction ts as [|t ts IH]; intros prev H gs m Hin; [destruct Hin|].
  destruct Hin as [->|Hin].
  - cbn in H. destruct H as (Hne & Hacc & _). split; [exact Hne|]. eauto.
  - destruct t as [c|gs' m']; cbn in H; [destruct H as [_ H]|destruct H as (_ & _ & _ & H)];
      eapply IH; eauto.
Qed.

(* rendering tokens whose hits are blocks of non-space characters keeps the canonical shape *)
Lemma canon_render (repl : list ustring -> ustring) (ts : list re_token) :
  (forall gs m, In (Hit gs m) ts ->
     m <> [] /\ forallb nonspace m = true /\ repl gs <> [] /\ forallb nonspace (repl gs) = true) ->
  forall st, ws_canon st (concat (map (tok_render repl) ts)) = ws_canon st (concat (map tok_text ts)).
Proof.
  induction ts as [|t ts IH]; intros H st; [reflexivity|].
  assert (H' : forall gs m, In (Hit gs m) ts ->
     m <> [] /\ forallb nonspace m = true /\ repl gs <> [] /\ forallb nonspace (repl gs) = true)
    by (intros; apply H; right; assumption).
  destruct t as [c|gs m]; cbn [map concat tok_render tok_text app].
  - cbn [ws_canon]. rewrite !(IH H'). reflexivity.
  - destruct (H gs m (or_introl eq_refl)) as (Hm & Hmn & Hr & Hrn).
    rewrite !canon_block by assumption. apply IH, H'.
Qed.

(* completeness of the matcher: an accepted prefix is found (the matcher
   may return another, earlier one in its backtracking order) *)
Lemma first_some_complete {A B} (f : A -> option B) (l : list A) (x : A) (b : B) :
  In x l -> f x = Some b -> exists b', first_some f l = Some b'.
Proof.
  induction l as [|y l IH]; intros Hin Hf; [destruct Hin|]. cbn.
  destruct (f y) eqn:E; [eauto|]. destruct Hin as [->|Hin]; [congruence|]. eauto.
Qed.

Lemma run_length_app (p : Z -> bool) (m t : ustring) :
  forallb p m = true -> length m <= run_length p (m ++ t).
Proof.
  induction m as [|c m IH]; cbn; intros H; [lia|].
  apply andb_true_iff in H as [-> H]. specialize (IH H). lia.
Qed.

Lemma u_startswith_self (a t : ustring) : u_startswith a (a ++ t) = true.
Proof.
  unfold u_startswith. apply ustring_eqb_eq'.
  rewrite firstn_app, Nat.sub_diag, firstn_O, app_nil_r. apply firstn_all.
Qed.

Lemma skipn_app_self (a t : ustring) : skipn (length a) (a ++ t) = t.
Proof. rewrite skipn_app, skipn_all, Nat.sub_diag, skipn_O. reflexivity. Qed.

Lemma firstn_app_self (a t : ustring) : firstn (length a) (a ++ t) = a.
Proof. rewrite firstn_app, Nat.sub_diag, firstn_O, app_nil_r. apply firstn_all. Qed.

Lemma match_items_complete {A} (items : list re_item) :
  forall prev m rest (k : option Z -> ustring -> option A) a,
  items_accept items prev m -> k (last_cp prev m) rest = Some a ->
  exists a', match_items items prev (m ++ rest) k = Some a'.
Proof.
  induction items as [|it items IH]; intros prev m rest k a Hacc Hk.
  - cbn in Hacc. subst m. cbn. eauto.
  - destruct it as [p mn mx|alts|p]; cbn [items_accept] in Hacc; cbn [match_items].
    + destruct Hacc as (m1 & m2 & -> & Hp & Hmn & Hmx & Hacc).
      rewrite <- app_assoc. rewrite <- last_cp_app in Hk.
      destruct (IH _ _ _ _ _ Hacc Hk) as [a' Ha'].
      pose proof (run_length_app p m1 (m2 ++ rest) Hp) as Hr.
      apply (first_some_complete _ _ (length m1) a').
      * apply in_rev. rewrite rev_involutive. apply in_seq. destruct mx; lia.
      * rewrite firstn_app_self, skipn_app_self. exact Ha'.
    + destruct Hacc as (x & m2 & Hx & -> & Hacc).
      rewrite <- app_assoc. rewrite <- last_cp_app in Hk.
      destruct (IH _ _ _ _ _ Hacc Hk) as [a' Ha'].
      apply (first_some_complete _ _ x a' Hx).
      rewrite u_startswith_self, skipn_app_self. exact Ha'.
    + destruct Hacc as ((c & -> & Hc) & Hacc). rewrite Hc. eapply IH; eauto.
Qed.

Lemma match_pieces_complete {A} (pieces : list re_piece) :
  forall prev m rest gs (k : list ustring -> option Z -> ustring -> option A) a,
  pieces_accept pieces prev m gs -> k gs (last_cp prev m) rest = Some a ->
  exists a', match_pieces pieces prev (m ++ rest) k = Some a'.
Proof.
  induction pieces as [|pc pieces IH]; intros prev m rest gs k a Hacc Hk.
  - cbn in Hacc. destruct Hacc as [-> ->]. cbn. eauto.
  - destruct pc as [i|items]; cbn [pieces_accept] in Hacc; cbn [match_pieces].
    + destruct Hacc as (m1 & m2 & -> & Hi & Hp). rewrite <- app_assoc.
      rewrite <- last_cp_app in Hk. destruct (IH _ _ _ _ _ _ Hp Hk) as [a' Ha'].
      exact (match_items_complete [i] prev m1 (m2 ++ rest) _ a' Hi Ha').
    + destruct Hacc as (m1 & m2 & gs' & -> & -> & Hi & Hp). rewrite <- app_assoc.
      rewrite <- last_cp_app in Hk.
      destruct (IH (last_cp prev m1) m2 rest gs'
                  (fun gs0 => k (firstn (length (m1 ++ m2 ++ rest) - length (m2 ++ rest))
                                        (m1 ++ m2 ++ rest) :: gs0)) a Hp)
        as [a' Ha'].
      { cbv beta. rewrite firstn_app_diff. exact Hk. }
      exact (match_items_complete items prev m1 (m2 ++ rest) _ a' Hi Ha').
Qed.

Lemma re_match_at_complete (pieces : list re_piece) (prev : option Z) (m rest : ustring) gs :
  pieces_accept pieces prev m gs -> exists r, re_match_at pieces prev (m ++ rest) = Some r.
Proof.
  intros H. unfold re_match_at. exact (match_pieces_complete pieces prev m rest gs _ (gs, rest) H eq_refl).
Qed.

(* in the rendered text, a block of code points that no replacement
   contains sits inside the scanned text, from a code point left alone *)
Lemma render_prefix_text (f : list ustring -> ustring) (ok : Z -> bool) (ts : list re_token) :
  (forall gs m, In (Hit gs m) ts -> f gs <> [] /\ forallb (fun c => negb (ok c)) (f gs) = true) ->
  forall m rest, concat (map (tok_render f) ts) = m ++ rest -> forallb ok m = true ->
  exists r, concat (map tok_text ts) = m ++ r.
Proof.
  induction ts as [|t ts IH]; intros Hh m rest Hr Hm.
  - destruct m as [|x m]; [exists []; reflexivity|discriminate].
  - assert (Hh' : forall gs m, In (Hit gs m) ts -> f gs <> [] /\ forallb (fun c => negb (ok c)) (f gs) = true)
      by (intros gs0 m1 Hin; exact (Hh gs0 m1 (or_intror Hin))).
    destruct m as [|x m]; [exists (concat (map tok_text (t :: ts))); reflexivity|].
    destruct t as [c|gs m0]; cbn [map concat tok_render tok_text app] in Hr |- *.
    + injection Hr as <- Hr. cbn in Hm. apply andb_true_iff in Hm as [_ Hm].
      destruct (IH Hh' m rest Hr Hm) as [r Hr']. rewrite Hr'. exists r. reflexivity.
    + exfalso. destruct (Hh gs m0 (or_introl eq_refl)) as [Hne Hno]. revert Hr Hne Hno.
      generalize (f gs). intros [|y fy] Hr Hne Hno; [congruence|].
      cbn in Hr. injection Hr as <- _. cbn in Hm, Hno. apply andb_true_iff in Hm as [Hx _].
      rewrite Hx in Hno. discriminate.
Qed.

Lemma render_block (f : list ustring -> ustring) (ok : Z -> bool) (ts : list re_token) :
  (forall gs m, In (Hit gs m) ts -> f gs <> [] /\ forallb (fun c => negb (ok c)) (f gs) = true) ->
  forall X m rest, concat (map (tok_render f) ts) = X ++ m ++ rest -> m <> [] -> forallb ok m = true ->
  exists ts1 c ts2 r, ts = ts1 ++ Lit c :: ts2 /\ c :: concat (map tok_text ts2) = m ++ r.
Proof.
  induction ts as [|t ts IH]; intros Hh X m rest Hr Hne Hm.
  - exfalso. apply (f_equal (@length Z)) in Hr. rewrite !length_app in Hr.
    destruct m; [congruence|cbn in Hr; lia].
  - assert (Hh' : forall gs m, In (Hit gs m) ts -> f gs <> [] /\ forallb (fun c => negb (ok c)) (f gs) = true)
      by (intros gs0 m1 Hin; exact (Hh gs0 m1 (or_intror Hin))).
    cbn [map concat] in Hr. apply app_eq_app in Hr as [l [[E1 E2]|[E1 E2]]].
    + destruct l as [|y l].
      * cbn in E2. destruct (IH Hh' [] m rest (eq_sym E2) Hne Hm) as (ts1 & c & ts2 & r & -> & Hc).
        exists (t :: ts1), c, ts2, r. split; [reflexivity|exact Hc].
      * destruct m as [|x m]; [congruence|]. injection E2 as <- E2.
        destruct t as [c|gs m0]; cbn [tok_render] in E1.
        -- destruct X as [|z X]; [|destruct X; discriminate].
           injection E1 as Hc Hl. subst. cbn in Hm. apply andb_true_iff in Hm as [_ Hm].
           destruct (render_prefix_text f ok ts Hh' m rest (eq_sym E2) Hm) as [r Hr].
           exists [], x, ts, r. rewrite Hr. split; reflexivity.
        -- exfalso. destruct (Hh gs m0 (or_introl eq_refl)) as [_ Hno].
           rewrite E1, forallb_app in Hno. apply andb_true_iff in Hno as [_ Hno].
           cbn in Hm, Hno. apply andb_true_iff in Hm as [Hx _].
           rewrite Hx in Hno. discriminate.
    + destruct (IH Hh' l m rest E2 Hne Hm) as (ts1 & c & ts2 & r & -> & Hc).
      exists (t :: ts1), c, ts2, r. split; [reflexivity|exact Hc].
Qed.

Lemma render_block_text (f : list ustring -> ustring) (ok : Z -> bool) (ts : list re_token) :
  (forall gs m, In (Hit gs m) ts -> f gs <> [] /\ forallb (fun c => negb (ok c)) (f gs) = true) ->
  forall X m rest, concat (map (tok_render f) ts) = X ++ m ++ rest -> m <> [] -> forallb ok m = true ->
  exists X' r, concat (map tok_text ts) = X' ++ m ++ r.
Proof.
  intros Hh X m rest Hr Hne Hm.
  destruct (render_block f ok ts Hh X m rest Hr Hne Hm) as (ts1 & c & ts2 & r & -> & Hc).
  exists (concat (map tok_text ts1)), r.
  rewrite map_app, concat_app. cbn [map concat tok_text app]. rewrite Hc. reflexivity.
Qed.

Lemma scan_ok_app (pieces : list re_piece) (ts1 ts2 : list re_token) : forall prev,
  scan_ok pieces prev (ts1 ++ ts2) -> exists prev', scan_ok pieces prev' ts2.
Proof.
  induction ts1 as [|t ts1 IH]; intros prev H; [eauto|].
  destruct t; cbn [app scan_ok] in H; [destruct H as [_ H]|destruct H as (_ & _ & _ & H)]; eauto.
Qed.

(* after a pass whose replacements hold none of the code points its matches
   are made of, no match is left in the rendered text *)
Lemma render_no_accept (pieces : list re_piece) (f : list ustring -> ustring) (ok : Z -> bool)
  (ts : list re_token) (prev : option Z) :
  (forall prev m gs, pieces_accept pieces prev m gs -> m <> [] /\ forallb ok m = true) ->
  (forall prev prev' m gs, pieces_accept pieces prev m gs -> pieces_accept pieces prev' m gs) ->
  (forall gs m, In (Hit gs m) ts -> f gs <> [] /\ forallb (fun c => negb (ok c)) (f gs) = true) ->
  scan_ok pieces prev ts ->
  forall X m rest prev' gs, concat (map (tok_render f) ts) = X ++ m ++ rest ->
  ~ pieces_accept pieces prev' m gs.
Proof.
  intros HA HP Hh Hok X m rest prev' gs Hr Hacc.
  destruct (HA _ _ _ Hacc) as [Hne Hm].
  destruct (render_block f ok ts Hh X m rest Hr Hne Hm) as (ts1 & c & ts2 & r & -> & Hc).
  destruct (scan_ok_app _ _ _ _ Hok) as [p0 Hok2]. cbn [scan_ok] in Hok2. destruct Hok2 as [Hl _].
  destruct (re_match_at_complete pieces p0 m r gs (HP _ _ _ _ Hacc)) as [[gs1 rest1] E].
  rewrite <- Hc in E. pose proof (Hl _ _ E) as Er.
  destruct (re_match_at_sound _ _ _ _ _ E) as (m1 & Hs & Hacc1).
  destruct (HA _ _ _ Hacc1) as [Hne1 _]. rewrite Er in Hs.
  apply (f_equal (@length Z)) in Hs. rewrite length_app in Hs.
  destruct m1; [congruence|cbn in Hs; lia].
Qed.

(* a text where the pattern accepts nothing is left alone by [re.sub] *)
Lemma scan_from_lits (pieces : list re_piece) (s : ustring) :
  (forall X m rest prev gs, s = X ++ m ++ rest -> ~ pieces_accept pieces prev m gs) ->
  forall fuel Y X prev, s = X ++ Y -> re_scan_from fuel pieces prev Y = map Lit Y.
Proof.
  intros Hno fuel. induction fuel as [|fuel IH]; intros Y X prev Hs;
    (destruct Y as [|c Y]; [reflexivity|]); [reflexivity|].
  cbn [re_scan_from]. destruct (re_match_at pieces prev (c :: Y)) as [[gs rest]|] eqn:E.
  - exfalso. destruct (re_match_at_sound _ _ _ _ _ E) as (m & HY & Hacc).
    apply (Hno X m rest prev gs); [rewrite Hs, HY; reflexivity|exact Hacc].
  - cbn [map]. f_equal. apply (IH Y (X ++ [c])). rewrite Hs, <- app_assoc. reflexivity.
Qed.

Lemma re_sub_fixed (pieces : list re_piece) (repl : list ustring -> ustring) (s : ustring) :
  (forall X m rest prev gs, s = X ++ m ++ rest -> ~ pieces_accept pieces prev m gs) ->
  re_sub pieces repl s = s.
Proof.
  intros Hno. rewrite re_sub_render. unfold re_scan.
  rewrite (scan_from_lits pieces s Hno (length s) s [] None eq_refl).
  clear Hno. induction s as [|c s IH]; [reflexivity|]. cbn. f_equal. exact IH.
Qed.

Lemma thai_not_space (c : Z) : is_thai_letter c = true -> u_isspace c = false.
Proof.
  intros H. unfold u_isspace. apply not_true_is_false. intros E.
  apply existsb_exists in E as (w & Hw & E). apply Z.eqb_eq in E. subst w.
  assert (Hall : forallb (fun w => negb (is_thai_letter w)) py_whitespace_cp = true) by (vm_compute; reflexivity).
  rewrite forallb_forall in Hall. specialize (Hall c Hw). rewrite H in Hall. discriminate.
Qed.

Lemma thai_nonspace (u : ustring) : forallb is_thai_letter u = true -> forallb nonspace u = true.
Proof.
  rewrite !forallb_forall. intros H c Hc. unfold nonspace. rewrite thai_not_space by auto. reflexivity.
Qed.

Lemma class_any_prev (p : Z -> bool) (mn : nat) (mx : option nat) (prev prev' : option Z) (m : ustring) :
  items_accept [RClass p mn mx] prev m -> items_accept [RClass p mn mx] prev' m.
Proof.
  cbn [items_accept]. intros (a & b & -> & Ha & H1 & H2 & ->).
  exists a, []. split; [reflexivity|]. split; [exact Ha|]. split; [exact H1|]. split; [exact H2|reflexivity].
Qed.

Lemma forallb_weaken (p q : Z -> bool) (u : ustring) :
  (forall c, p c = true -> q c = true) -> forallb p u = true -> forallb q u = true.
Proof. rewrite !forallb_forall. intros H Hu c Hc. apply H, Hu, Hc. Qed.

Section Digits.
Variable decimal : Z -> option nat.

Lemma number_hit (prev : option Z) (m : ustring) (gs : list ustring) :
  pieces_accept (number_pattern decimal) prev m gs ->
  exists g, gs = [g] /\ m = [8%Z] ++ g ++ [8%Z] /\
    forallb (is_decimal decimal) g = true /\ 1 <= length g <= 3.
Proof.
  cbn [number_pattern pieces_accept].
  intros (m1 & m2 & -> & H1 & m3 & m4 & gs' & -> & -> & Hg & m5 & m6 & -> & H5 & [-> ->]).
  apply class_accept in H1 as (H1 & L1 & L1'). apply class_accept in Hg as (Hg & Lg & Lg').
  apply class_accept in H5 as (H5 & L5 & L5').
  destruct m1 as [|x [|z m1]]; cbn [length] in L1, L1'; try lia.
  destruct m5 as [|y [|z m5]]; cbn [length] in L5, L5'; try lia.
  cbn in H1, H5. rewrite andb_true_r in H1, H5. apply Z.eqb_eq in H1, H5. subst x y.
  exists m3. rewrite app_nil_r. repeat split; auto.
Qed.

Lemma number_any_prev (prev prev' : option Z) (m : ustring) (gs : list ustring) :
  pieces_accept (number_pattern decimal) prev m gs -> pieces_accept (number_pattern decimal) prev' m gs.
Proof.
  cbn [number_pattern pieces_accept].
  intros (m1 & m2 & -> & H1 & m3 & m4 & gs' & -> & -> & Hg & m5 & m6 & -> & H5 & [-> ->]).
  exists m1, (m3 ++ m5 ++ []). split; [reflexivity|]. split; [exact (class_any_prev _ _ _ _ _ _ H1)|].
  exists m3, (m5 ++ []), []. split; [reflexivity|]. split; [reflexivity|].
  split; [exact (class_any_prev _ _ _ _ _ _ Hg)|].
  exists m5, []. split; [reflexivity|]. split; [exact (class_any_prev _ _ _ _ _ _ H5)|]. split; reflexivity.
Qed.

Lemma time_any_prev (prev prev' : option Z) (m : ustring) (gs : list ustring) :
  pieces_accept (time_pattern decimal) prev m gs -> pieces_accept (time_pattern decimal) prev' m gs.
Proof.
  cbn [time_pattern pieces_accept].
  intros (m1 & m2 & gs1 & -> & -> & Ha & m3 & m4 & -> & Hsep & m5 & m6 & gs2 & -> & -> & Hb & [-> ->]).
  exists m1, (m3 ++ m5 ++ []), [m5]. split; [reflexivity|]. split; [reflexivity|].
  split; [exact (class_any_prev _ _ _ _ _ _ Ha)|].
  exists m3, (m5 ++ []). split; [reflexivity|]. split; [exact (class_any_prev _ _ _ _ _ _ Hsep)|].
  exists m5, [], []. split; [reflexivity|]. split; [reflexivity|].
  split; [exact (class_any_prev _ _ _ _ _ _ Hb)|]. split; reflexivity.
Qed.

Lemma time_hit (prev : option Z) (m : ustring) (gs : list ustring) :
  pieces_accept (time_pattern decimal) prev m gs ->
  exists a sep b, gs = [a; b] /\ m = a ++ sep ++ b /\
    forallb (is_decimal decimal) a = true /\ 1 <= length a <= 2 /\
    forallb (fun c => Z.eqb c 46 || Z.eqb c 58) sep = true /\ length sep = 1 /\
    forallb (is_decimal decimal) b = true /\ length b = 2.
Proof.
  cbn [time_pattern pieces_accept].
  intros (m1 & m2 & gs1 & -> & -> & Ha & m3 & m4 & -> & Hsep & m5 & m6 & gs2 & -> & -> & Hb & [-> ->]).
  apply class_accept in Ha as (Ha & Ha1 & Ha2). apply class_accept in Hsep as (Hs & Hs1 & Hs2).
  apply class_accept in Hb as (Hb & Hb1 & Hb2). rewrite app_nil_r.
  exists m1, m3, m5. repeat split; auto; lia.
Qed.

(* what the two patterns match: backspaces, digits, "." and ":" *)
Lemma number_accept_ok (prev : option Z) (m : ustring) (gs : list ustring) :
  pieces_accept (number_pattern decimal) prev m gs ->
  m <> [] /\ forallb (fun c => Z.eqb c 8 || is_decimal decimal c) m = true.
Proof.
  intros H. apply number_hit in H as (g & _ & -> & Hd & _). split; [discriminate|].
  rewrite !forallb_app, (forallb_weaken (is_decimal decimal) _ g (fun c Hc => orb_true_intro _ _ (or_intror Hc)) Hd).
  reflexivity.
Qed.

Lemma time_accept_ok (prev : option Z) (m : ustring) (gs : list ustring) :
  pieces_accept (time_pattern decimal) prev m gs ->
  m <> [] /\ forallb (fun c => is_decimal decimal c || (Z.eqb c 46 || Z.eqb c 58)) m = true.
Proof.
  intros H. apply time_hit in H as (a & sep & b & _ & -> & Ha & Hla & Hs & _ & Hb & _).
  split; [destruct a; [cbn in Hla; lia|discriminate]|].
  rewrite !forallb_app.
  rewrite (forallb_weaken (is_decimal decimal) _ a (fun c Hc => orb_true_intro _ _ (or_introl Hc)) Ha).
  rewrite (forallb_weaken (is_decimal decimal) _ b (fun c Hc => orb_true_intro _ _ (or_introl Hc)) Hb).
  rewrite (forallb_weaken (fun c => Z.eqb c 46 || Z.eqb c 58) _ sep (fun c Hc => orb_true_intro _ _ (or_intror Hc)) Hs).
  reflexivity.
Qed.

Hypothesis Hnd : Nd_model decimal.

Lemma decimal_value_lt (c : Z) : match decimal c with Some v => v | None => 0 end < 10.
Proof.
  destruct Hnd as [H _]. destruct (decimal c) eqn:E; [eapply H; eauto|lia].
Qed.

Lemma py_int_fold_bound (a : ustring) (acc : N) :
  (fold_left (fun acc c => (acc * 10 + N.of_nat (match decimal c with Some v => v | None => 0 end))%N) a acc
   < (acc + 1) * 10 ^ N.of_nat (length a))%N.
Proof.
  revert acc. induction a as [|c a IH]; intros acc; cbn [fold_left length].
  - rewrite N.pow_0_r. lia.
  - eapply N.lt_le_trans; [apply IH|].
    pose proof (decimal_value_lt c) as Hv.
    rewrite Nnat.Nat2N.inj_succ, N.pow_succ_r'.
    set (v := N.of_nat (match decimal c with Some v => v | None => 0 end)).
    assert (v < 10)%N by (unfold v; lia).
    set (P := (10 ^ N.of_nat (length a))%N). nia.
Qed.

Lemma py_int_bound (a : ustring) : (py_int_str decimal a < 10 ^ N.of_nat (length a))%N.
Proof. pose proof (py_int_fold_bound a 0) as H. unfold py_int_str. lia. Qed.

Lemma py_int_lt (a : ustring) (k : nat) : length a <= k -> (py_int_str decimal a < 10 ^ N.of_nat k)%N.
Proof.
  intros Hk. eapply N.lt_le_trans; [apply py_int_bound|]. apply N.pow_le_mono_r; lia.
Qed.

Lemma small_words_not_decimal (n : N) : (n < 1000)%N ->
  _number_to_words n <> [] /\ forallb nonspace (_number_to_words n) = true /\
  forallb (fun c => negb (is_decimal decimal c)) (_number_to_words n) = true.
Proof.
  intros Hn. destruct (words_small n Hn) as [Ht Hth]. split; [destruct (_number_to_words n); discriminate|].
  split; [apply thai_nonspace, Hth|]. rewrite forallb_forall in Hth |- *. intros c Hc.
  destruct Hnd as (_ & _ & H & _). unfold is_decimal. rewrite H by auto. reflexivity.
Qed.

Lemma decimal_nonspace (u : ustring) : forallb (is_decimal decimal) u = true -> forallb nonspace u = true.
Proof.
  destruct Hnd as (_ & H & _). rewrite !forallb_forall. intros Hu c Hc. unfold nonspace.
  rewrite H by auto. reflexivity.
Qed.

Lemma number_pass_canon (s : ustring) (st : ws_state) :
  ws_canon st (re_sub (number_pattern decimal) (number_words decimal) s) = ws_canon st s.
Proof.
  destruct (re_scan_spec (number_pattern decimal) s) as [Ht Hok]. rewrite re_sub_render.
  rewrite canon_render, Ht; [reflexivity|].
  intros gs m Hin. destruct (scan_hits _ _ _ Hok gs m Hin) as (Hne & prev' & Hacc).
  apply number_hit in Hacc as (g & -> & -> & Hd & Hlen). cbn [number_words].
  destruct (small_words_not_decimal (py_int_str decimal g)) as (H1 & H2 & _); [apply (py_int_lt g 3); lia|].
  split; [exact Hne|]. split; [|auto].
  rewrite !forallb_app, (decimal_nonspace g Hd). reflexivity.
Qed.

Lemma time_pass_canon (s : ustring) (st : ws_state) :
  ws_canon st (re_sub (time_pattern decimal) (time_words decimal) s) = ws_canon st s.
Proof.
  destruct (re_scan_spec (time_pattern decimal) s) as [Ht Hok]. rewrite re_sub_render.
  rewrite canon_render, Ht; [reflexivity|].
  intros gs m Hin. destruct (scan_hits _ _ _ Hok gs m Hin) as (Hne & prev' & Hacc).
  apply time_hit in Hacc as (a & sep & b & -> & -> & Ha & Hla & Hs & Hls & Hb & Hlb). cbn [time_words].
  destruct (small_words_not_decimal (py_int_str decimal a)) as (Ha1 & Ha2 & _); [apply (py_int_lt a 3); lia|].
  destruct (small_words_not_decimal (py_int_str decimal b)) as (Hb1 & Hb2 & _); [apply (py_int_lt b 3); lia|].
  split; [exact Hne|]. split.
  - rewrite !forallb_app, (decimal_nonspace a Ha), (decimal_nonspace b Hb).
    destruct sep as [|x [|]]; try discriminate. cbn in Hs. rewrite andb_true_r in Hs.
    apply orb_true_iff in Hs as [E|E]; apply Z.eqb_eq in E; subst x; reflexivity.
  - split.
    + destruct (_number_to_words (py_int_str decimal a)); [congruence|discriminate].
    + rewrite !forallb_app, Ha2, Hb2. reflexivity.
Qed.

(* the replacements are Thai letters: no backspace, digit, "." or ":" *)
Lemma thai_not_number (c : Z) : is_thai_letter c = true -> (Z.eqb c 8 || is_decimal decimal c) = false.
Proof.
  intros H. destruct Hnd as (_ & _ & Hd & _). unfold is_decimal. rewrite (Hd c H).
  unfold is_thai_letter in H. apply andb_true_iff in H as [H _]. apply Z.leb_le in H.
  rewrite (proj2 (Z.eqb_neq c 8)) by lia. reflexivity.
Qed.

Lemma thai_not_time (c : Z) : is_thai_letter c = true -> (is_decimal decimal c || (Z.eqb c 46 || Z.eqb c 58)) = false.
Proof.
  intros H. destruct Hnd as (_ & _ & Hd & _). unfold is_decimal. rewrite (Hd c H).
  unfold is_thai_letter in H. apply andb_true_iff in H as [H _]. apply Z.leb_le in H.
  rewrite (proj2 (Z.eqb_neq c 46)), (proj2 (Z.eqb_neq c 58)) by lia. reflexivity.
Qed.

Lemma number_hit_words (prev : option Z) (m : ustring) (gs : list ustring) :
  pieces_accept (number_pattern decimal) prev m gs ->
  number_words decimal gs <> [] /\ forallb is_thai_letter (number_words decimal gs) = true.
Proof.
  intros H. apply number_hit in H as (g & -> & _ & _ & Hlen). cbn [number_words].
  destruct (words_small (py_int_str decimal g)) as [Ht Hth]; [apply (py_int_lt g 3); lia|].
  split; [destruct (_number_to_words (py_int_str decimal g)); discriminate|exact Hth].
Qed.

Lemma time_hit_words (prev : option Z) (m : ustring) (gs : list ustring) :
  pieces_accept (time_pattern decimal) prev m gs ->
  time_words decimal gs <> [] /\ forallb is_thai_letter (time_words decimal gs) = true.
Proof.
  intros H. apply time_hit in H as (a & sep & b & -> & _ & _ & Hla & _ & _ & _ & Hlb). cbn [time_words].
  destruct (words_small (py_int_str decimal a)) as [Ha Ha']; [apply (py_int_lt a 3); lia|].
  destruct (words_small (py_int_str decimal b)) as [Hb Hb']; [apply (py_int_lt b 3); lia|].
  split; [destruct (_number_to_words (py_int_str decimal a)); discriminate|].
  rewrite !forallb_app, Ha', Hb'. reflexivity.
Qed.

(* after the time pass and the number pass, neither pattern matches anywhere *)
Lemma passes_no_match (t : ustring) :
  forall X m rest prev gs,
  re_sub (number_pattern decimal) (number_words decimal) (re_sub (time_pattern decimal) (time_words decimal) t)
    = X ++ m ++ rest ->
  ~ pieces_accept (time_pattern decimal) prev m gs /\ ~ pieces_accept (number_pattern decimal) prev m gs.
Proof.
  intros X m rest prev gs Ho.
  destruct (re_scan_spec (number_pattern decimal) (re_sub (time_pattern decimal) (time_words decimal) t))
    as [HtN HokN].
  destruct (re_scan_spec (time_pattern decimal) t) as [HtT HokT].
  rewrite (re_sub_render (number_pattern decimal)) in Ho.
  set (tsN := re_scan (number_pattern decimal) (re_sub (time_pattern decimal) (time_words decimal) t)) in *.
  set (tsT := re_scan (time_pattern decimal) t) in *.
  assert (HwN : forall gs0 m0, In (Hit gs0 m0) tsN ->
            number_words decimal gs0 <> [] /\ forallb is_thai_letter (number_words decimal gs0) = true).
  { intros gs0 m0 Hin. destruct (scan_hits _ _ _ HokN gs0 m0 Hin) as (_ & p0 & Hacc0).
    exact (number_hit_words _ _ _ Hacc0). }
  split.
  - intros Hacc. destruct (time_accept_ok _ _ _ Hacc) as [Hne Hm].
    assert (HhN : forall gs0 m0, In (Hit gs0 m0) tsN -> number_words decimal gs0 <> [] /\
              forallb (fun c => negb (is_decimal decimal c || (Z.eqb c 46 || Z.eqb c 58)))
                (number_words decimal gs0) = true).
    { intros gs0 m0 Hin. destruct (HwN gs0 m0 Hin) as [Hne0 Hth]. split; [exact Hne0|].
      exact (forallb_weaken _ _ _ (fun c Hc => f_equal negb (thai_not_time c Hc)) Hth). }
    assert (HhT : forall gs0 m0, In (Hit gs0 m0) tsT -> time_words decimal gs0 <> [] /\
              forallb (fun c => negb (is_decimal decimal c || (Z.eqb c 46 || Z.eqb c 58)))
                (time_words decimal gs0) = true).
    { intros gs0 m0 Hin. destruct (scan_hits _ _ _ HokT gs0 m0 Hin) as (_ & p0 & Hacc0).
      destruct (time_hit_words _ _ _ Hacc0) as [Hne0 Hth]. split; [exact Hne0|].
      exact (forallb_weaken _ _ _ (fun c Hc => f_equal negb (thai_not_time c Hc)) Hth). }
    destruct (render_block_text _ _ _ HhN X m rest Ho Hne Hm) as (X' & r & HT).
    rewrite HtN, re_sub_render in HT.
    exact (render_no_accept _ _ _ _ None time_accept_ok time_any_prev HhT HokT X' m r prev gs HT Hacc).
  - assert (HhN : forall gs0 m0, In (Hit gs0 m0) tsN -> number_words decimal gs0 <> [] /\
              forallb (fun c => negb (Z.eqb c 8 || is_decimal decimal c)) (number_words decimal gs0) = true).
    { intros gs0 m0 Hin. destruct (HwN gs0 m0 Hin) as [Hne0 Hth]. split; [exact Hne0|].
      exact (forallb_weaken _ _ _ (fun c Hc => f_equal negb (thai_not_number c Hc)) Hth). }
    exact (render_no_accept _ _ _ _ None number_accept_ok number_any_prev HhN HokN X m rest prev gs Ho).
Qed.

End Digits.

Lemma canon_collapsed (t : ustring) : ws_canon AtStart (u_join [32%Z] (u_split t)) = true.
Proof. apply canon_join; [apply split_from_words; reflexivity|right; reflexivity]. Qed.

Lemma normalize_first_step (decimal : Z -> option nat) (text language : ustring) :
  normalize_text decimal text language =
  let normalized := u_join [32%Z] (u_split text) in
  if negb (ustr_truthy normalized) then normalized
  else if u_startswith (ustr "th") language then
    re_sub (number_pattern decimal) (number_words decimal)
      (re_sub (time_pattern decimal) (time_words decimal) normalized)
  else normalized.
Proof. unfold normalize_text. rewrite collapse_ws. reflexivity. Qed.

(** X8: for a language that does not start with "th", [normalize_text]
    returns [" ".join(text.split())]: runs of whitespace become one space and
    the ends are stripped; nothing else changes. *)
Theorem X_normalize_collapses_whitespace (decimal : Z -> option nat) (text language : ustring) :
  u_startswith (ustr "th") language = false ->
  normalize_text decimal text language = u_join [32%Z] (u_split text).
Proof.
  intros H. rewrite normalize_first_step. cbv zeta. rewrite H.
  destruct (ustr_truthy _); reflexivity.
Qed.

Lemma normalize_shape_gen (decimal : Z -> option nat) (text language : ustring) :
  Nd_model decimal -> ws_canon AtStart (normalize_text decimal text language) = true.
Proof.
  intros Hnd. rewrite normalize_first_step. cbv zeta.
  destruct (ustr_truthy (u_join [32%Z] (u_split text))) eqn:Et; cbn [negb]; [|apply canon_collapsed].
  destruct (u_startswith (ustr "th") language); [|apply canon_collapsed].
  rewrite number_pass_canon, time_pass_canon by exact Hnd. apply canon_collapsed.
Qed.

Lemma normalize_no_match (decimal : Z -> option nat) (text language : ustring) :
  Nd_model decimal -> u_startswith (ustr "th") language = true ->
  forall X m rest prev gs, normalize_text decimal text language = X ++ m ++ rest ->
  ~ pieces_accept (time_pattern decimal) prev m gs /\ ~ pieces_accept (number_pattern decimal) prev m gs.
Proof.
  intros Hnd Hth X m rest prev gs. rewrite normalize_first_step. cbv zeta. rewrite Hth.
  destruct (ustr_truthy (u_join [32%Z] (u_split text))) eqn:Et; cbn [negb].
  - apply passes_no_match, Hnd.
  - intros Ho. destruct (u_join [32%Z] (u_split text)); [|discriminate].
    destruct m as [|x m]; [|destruct X; discriminate].
    split; intros Hacc; [apply time_accept_ok in Hacc|apply number_accept_ok in Hacc]; tauto.
Qed.

(** X9: the text [normalize_text] returns has the shape [" ".join(words)]
    (no leading, trailing or repeated whitespace, only plain spaces); for a
    language starting with "th", no part of it is matched by the time
    pattern [r"(\d{1,2})[.:](\d{2})"] or by the number pattern of line 73
    (digits between two backspace characters): nothing is left for either
    substitution to rewrite. *)
Theorem X_normalize_shape (decimal : Z -> option nat) (text language : ustring) :
  Nd_model decimal ->
  ws_canon AtStart (normalize_text decimal text language) = true /\
  (u_startswith (ustr "th") language = true ->
   forall X m rest prev gs, normalize_text decimal text language = X ++ m ++ rest ->
   ~ pieces_accept (time_pattern decimal) prev m gs /\ ~ pieces_accept (number_pattern decimal) prev m gs).
Proof.
  intros Hnd. split; [exact (normalize_shape_gen decimal text language Hnd)|].
  intros Hth. exact (normalize_no_match decimal text language Hnd Hth).
Qed.

(** X10: [normalize_text] is idempotent: normalizing its result again, in
    the same language, changes nothing. *)
Theorem X_normalize_idempotent (decimal : Z -> option nat) (text language : ustring) :
  Nd_model decimal ->
  normalize_text decimal (normalize_text decimal text language) language = normalize_text decimal text language.
Proof.
  intros Hnd. pose proof (normalize_shape_gen decimal text language Hnd) as Hc.
  pose proof (normalize_no_match decimal text language Hnd) as Hno.
  set (o := normalize_text decimal text language) in *.
  rewrite normalize_first_step. cbv zeta. rewrite (canon_split_join o Hc).
  destruct (ustr_truthy o) eqn:Eo; cbn [negb]; [|reflexivity].
  destruct (u_startswith (ustr "th") language) eqn:Eth; [|reflexivity].
  specialize (Hno eq_refl).
  rewrite (re_sub_fixed (time_pattern decimal) (time_words decimal) o)
    by (intros X m rest prev gs Ho; exact (proj1 (Hno X m rest prev gs Ho))).
  apply re_sub_fixed. intros X m rest prev gs Ho. exact (proj2 (Hno X m rest prev gs Ho)).
Qed.

Lemma sentence_hit (prev : option Z) (m : ustring) (gs : list ustring) :
  pieces_accept sentence_end_pattern prev m gs -> forallb u_isspace m = true.
Proof.
  cbn [sentence_end_pattern pieces_accept].
  intros (m1 & m2 & -> & (_ & ->) & m3 & m4 & -> & Hc & [-> ->]).
  apply class_accept in Hc as (Hc & _). rewrite app_nil_r. exact Hc.
Qed.

Lemma canon_suffix (st : ws_state) (A B : ustring) :
  ws_canon st (A ++ B) = true -> exists st', ws_canon st' B = true.
Proof.
  revert st. induction A as [|c A IH]; intros st H; [eauto|].
  cbn [app ws_canon] in H. destruct (u_isspace c); [|eauto].
  destruct st; try discriminate. apply andb_true_iff in H as [_ H]. eauto.
Qed.

Lemma canon_space_block (st : ws_state) (m B : ustring) :
  ws_canon st (m ++ B) = true -> m <> [] -> forallb u_isspace m = true -> m = [32%Z].
Proof.
  intros H Hm Hs. destruct m as [|c m]; [congruence|]. cbn [forallb] in Hs.
  apply andb_true_iff in Hs as [Hc Hs]. cbn [app ws_canon] in H. rewrite Hc in H.
  destruct st; try discriminate. apply andb_true_iff in H as [E H]. apply Z.eqb_eq in E. subst c.
  destruct m as [|d m]; [reflexivity|]. cbn in Hs. apply andb_true_iff in Hs as [Hd _].
  cbn [app ws_canon] in H. rewrite Hd in H. discriminate.
Qed.

Lemma render_canon_sp (ts : list re_token) : forall A,
  (forall gs m, In (Hit gs m) ts -> m <> [] /\ forallb u_isspace m = true) ->
  ws_canon AtStart (A ++ concat (map tok_text ts)) = true ->
  concat (map (tok_render (fun _ => [32%Z])) ts) = concat (map tok_text ts).
Proof.
  induction ts as [|t ts IH]; intros A Hh Hc; [reflexivity|].
  assert (Hh' : forall gs m, In (Hit gs m) ts -> m <> [] /\ forallb u_isspace m = true)
    by (intros gs m Hin; apply (Hh gs m); right; exact Hin).
  destruct t as [c|gs m]; cbn [map concat tok_render tok_text app] in Hc |- *.
  - f_equal. apply (IH (A ++ [c]) Hh'). rewrite <- app_assoc. exact Hc.
  - destruct (Hh gs m (or_introl eq_refl)) as [Hm Hs].
    destruct (canon_suffix _ _ _ Hc) as [st Hst].
    pose proof (canon_space_block _ _ _ Hst Hm Hs) as ->.
    cbn [app]. f_equal. apply (IH (A ++ [32%Z]) Hh'). rewrite <- app_assoc. exact Hc.
Qed.

Lemma split_tokens_nonempty (acc : ustring) (ts : list re_token) : split_tokens acc ts <> [].
Proof.
  revert acc. induction ts as [|[c|gs m] ts IH]; intros acc; cbn; [discriminate|apply IH|discriminate].
Qed.

Lemma join_split_tokens (ts : list re_token) : forall acc,
  u_join [32%Z] (split_tokens acc ts) = rev acc ++ concat (map (tok_render (fun _ => [32%Z])) ts).
Proof.
  induction ts as [|[c|gs m] ts IH]; intros acc.
  - cbn. rewrite app_nil_r. reflexivity.
  - cbn [split_tokens]. rewrite IH. cbn [rev map concat tok_render]. rewrite <- app_assoc. reflexivity.
  - cbn [split_tokens]. rewrite join_cons by apply split_tokens_nonempty. rewrite IH. reflexivity.
Qed.

Lemma canon_sep (x J : ustring) : forall st,
  ws_canon st (x ++ 32%Z :: J) = true ->
  ws_canon st x = true /\ (st = AtStart -> x <> []) /\ ws_canon AtStart J = true /\ J <> [].
Proof.
  induction x as [|c x IH]; intros st H.
  - cbn [app ws_canon] in H. replace (u_isspace 32) with true in H by reflexivity.
    destruct st; try discriminate. apply andb_true_iff in H as [_ H].
    split; [reflexivity|]. split; [discriminate|].
    destruct J as [|d J]; [discriminate|]. cbn [ws_canon] in H |- *.
    destruct (u_isspace d); [discriminate|]. split; [exact H|discriminate].
  - cbn [app ws_canon] in H |- *. destruct (u_isspace c) eqn:Ec.
    + destruct st; try discriminate. apply andb_true_iff in H as [E H].
      destruct (IH _ H) as (H1 & _ & H3 & H4). rewrite E, H1. split; [reflexivity|]. split; [discriminate|]. auto.
    + destruct (IH _ H) as (H1 & _ & H3 & H4). split; [exact H1|]. split; [discriminate|]. auto.
Qed.

Lemma canon_pieces (ps : list ustring) :
  ws_canon AtStart (u_join [32%Z] ps) = true -> ps <> [[]] ->
  Forall (fun p => p <> [] /\ ws_canon AtStart p = true) ps.
Proof.
  induction ps as [|x ps IH]; intros H Hne; [constructor|].
  destruct ps as [|y ps].
  - cbn in H. constructor; [|constructor]. split; [|exact H]. intros ->. apply Hne. reflexivity.
  - rewrite join_cons in H by discriminate. cbn [app] in H.
    destruct (canon_sep _ _ _ H) as (H1 & H2 & H3 & H4).
    constructor; [split; [apply H2; reflexivity|exact H1]|].
    apply IH; [exact H3|]. intros E. rewrite E in H4. apply H4. reflexivity.
Qed.

Lemma canon_last_nonspace (x : ustring) (c : Z) : forall st,
  ws_canon st (x ++ [c]) = true -> u_isspace c = false.
Proof.
  induction x as [|a x IH]; intros st H.
  - cbn in H. destruct (u_isspace c); [|reflexivity]. destruct st; try discriminate.
    rewrite andb_false_r in H. discriminate.
  - cbn [app ws_canon] in H. destruct (u_isspace a).
    + destruct st; try discriminate. apply andb_true_iff in H as [_ H]. eauto.
    + eauto.
Qed.

Lemma strip_ends (p : ustring) : p <> [] ->
  (forall c p', p = c :: p' -> u_isspace c = false) ->
  (forall x d, p = x ++ [d] -> u_isspace d = false) -> u_strip p = p.
Proof.
  intros Hne Hh Hl. destruct p as [|c p']; [congruence|].
  unfold u_strip. rewrite lstrip_nonspace_head by (eapply Hh; reflexivity).
  destruct (exists_last (l := c :: p') ltac:(discriminate)) as (x & d & E). rewrite E.
  unfold u_rstrip. rewrite rev_app_distr. cbn [rev app].
  rewrite lstrip_nonspace_head by (eapply Hl; exact E). cbn [rev]. rewrite rev_involutive. reflexivity.
Qed.

Lemma strip_canon (p : ustring) : p <> [] -> ws_canon AtStart p = true -> u_strip p = p.
Proof.
  intros Hne H. apply strip_ends; [exact Hne| |].
  - intros c p' ->. cbn in H. destruct (u_isspace c); [discriminate|reflexivity].
  - intros x d ->. eapply canon_last_nonspace; eauto.
Qed.

Lemma filter_all {A} (f : A -> bool) (l : list A) : Forall (fun x => f x = true) l -> filter f l = l.
Proof. induction 1 as [|x l Hx _ IH]; [reflexivity|]. cbn. rewrite Hx, IH. reflexivity. Qed.

Lemma restore_thai_canon (t : ustring) : ws_canon AtStart t = true -> _restore_thai t = t.
Proof.
  intros Hc. destruct t as [|c0 t0] eqn:Et; [reflexivity|]. rewrite <- Et in Hc |- *.
  assert (Htne : t <> []) by (rewrite Et; discriminate). clear c0 t0 Et.
  destruct (re_scan_spec sentence_end_pattern t) as [Ht Hok].
  assert (Hh : forall gs m, In (Hit gs m) (re_scan sentence_end_pattern t) ->
                 m <> [] /\ forallb u_isspace m = true).
  { intros gs m Hin. destruct (scan_hits _ _ _ Hok gs m Hin) as (Hne & prev' & Hacc).
    split; [exact Hne|]. eapply sentence_hit; eauto. }
  assert (Hj : u_join [32%Z] (re_split sentence_end_pattern t) = t).
  { unfold re_split. rewrite join_split_tokens. cbn [rev app].
    rewrite (render_canon_sp _ [] Hh) by (rewrite Ht; exact Hc). exact Ht. }
  set (ps := re_split sentence_end_pattern t) in *.
  assert (Hps : ps <> [[]]) by (intros E; rewrite E in Hj; cbn in Hj; congruence).
  assert (Hpsne : ps <> []) by apply split_tokens_nonempty.
  rewrite <- Hj in Hc. pose proof (canon_pieces ps Hc Hps) as Hf.
  unfold _restore_thai. fold ps.
  rewrite filter_all.
  2:{ eapply Forall_impl; [|exact Hf]. intros p [Hp Hpc]. rewrite strip_canon by assumption.
      destruct p; [congruence|reflexivity]. }
  rewrite (map_ext_in u_strip (fun p => p)), map_id.
  2:{ intros p Hp. rewrite Forall_forall in Hf. destruct (Hf p Hp). apply strip_canon; assumption. }
  destruct ps as [|p ps']; [congruence|]. cbv beta iota.
  rewrite (map_ext (fun sentence => if negb (u_endswith_any (ustr ".!?ๆ") sentence) then sentence ++ [] else sentence)
                   (fun p => p)), map_id.
  - exact Hj.
  - intros s. destruct (negb _); [apply app_nil_r|reflexivity].
Qed.

(** X11: [_restore_thai] leaves a text of the shape [" ".join(words)]
    unchanged: splitting after sentence ends, stripping and joining again
    gives the same text back. *)
Theorem X_restore_thai_collapsed (t : ustring) :
  _restore_thai (u_join [32%Z] (u_split t)) = u_join [32%Z] (u_split t).
Proof. apply restore_thai_canon, canon_collapsed. Qed.

(** X12: for a language that does not start with "en",
    [restore_punctuation] applied to the output of [normalize_text] (the
    order [_post_process_segment] uses) returns it unchanged. *)
Theorem X_punctuation_after_normalize (decimal : Z -> option nat) (text language : ustring) :
  Nd_model decimal -> u_startswith (ustr "en") language = false ->
  restore_punctuation (normalize_text decimal text language) language = normalize_text decimal text language.
Proof.
  intros Hnd Hen. pose proof (normalize_shape_gen decimal text language Hnd) as Hc.
  unfold restore_punctuation. rewrite Hen.
  destruct (ustr_truthy _); [apply restore_thai_canon, Hc|reflexivity].
Qed.

(* stripping *)

Lemma lstrip_head (s : ustring) (c : Z) (z : ustring) : u_lstrip s = c :: z -> u_isspace c = false.
Proof.
  unfold u_lstrip. induction s as [|a s IH]; cbn [u_lstrip_by]; [discriminate|].
  destruct (u_isspace a) eqn:Ea; [exact IH|]. intros H. injection H as -> _. exact Ea.
Qed.

Lemma rstrip_last (s x : ustring) (d : Z) : u_rstrip s = x ++ [d] -> u_isspace d = false.
Proof.
  unfold u_rstrip. intros H. apply (f_equal (@rev Z)) in H. rewrite rev_involutive, rev_app_distr in H.
  exact (lstrip_head _ _ _ H).
Qed.

Lemma rstrip_head (y : ustring) (c : Z) (y' : ustring) :
  u_isspace c = false -> exists z, u_rstrip (c :: y') = c :: z.
Proof.
  intros Hc. destruct (existsb nonspace y') eqn:E.
  - change (c :: y') with ([c] ++ y'). rewrite rstrip_keep by exact E. eexists; reflexivity.
  - assert (Hall : forallb u_isspace y' = true).
    { apply forallb_forall. intros x Hx. destruct (u_isspace x) eqn:Ex; [reflexivity|].
      assert (existsb nonspace y' = true) by (apply existsb_exists; exists x; unfold nonspace; rewrite Ex; auto).
      congruence. }
    change (c :: y') with ([c] ++ y'). rewrite rstrip_drop by exact Hall.
    rewrite rstrip_nonspace by (cbn; unfold nonspace; rewrite Hc; reflexivity). eexists; reflexivity.
Qed.

Lemma strip_stripped (s : ustring) : stripped (u_strip s).
Proof.
  unfold stripped, u_strip. destruct (u_lstrip s) as [|c y'] eqn:E.
  - left. reflexivity.
  - pose proof (lstrip_head _ _ _ E) as Hc. destruct (rstrip_head y' c y' Hc) as [z Hz].
    rewrite Hz. right. split.
    + intros c' z' H. injection H as <- _. exact Hc.
    + intros x d H. rewrite <- Hz in H. eapply rstrip_last; eauto.
Qed.

Lemma strip_fixed (z : ustring) : stripped z -> u_strip z = z.
Proof.
  intros [->|[Hh Hl]]; [reflexivity|]. destruct z as [|c z']; [reflexivity|].
  apply strip_ends; [discriminate|exact Hh|exact Hl].
Qed.

(** X13: [_restore_english] returns the stripped text, followed by "."
    when the stripped text is non-empty and does not end with ".", "!" or
    "?"; a non-blank result therefore ends with one of them, and applying
    [_restore_english] again changes nothing. *)
Theorem X_restore_english (text : ustring) :
  (exists sfx, _restore_english text = u_strip text ++ sfx /\ (sfx = [] \/ sfx = ustr ".")) /\
  (ustr_truthy (u_strip text) = true -> u_endswith_any (ustr ".!?") (_restore_english text) = true) /\
  _restore_english (_restore_english text) = _restore_english text.
Proof.
  pose proof (strip_stripped text) as Hs. unfold _restore_english. cbv zeta.
  set (z := u_strip text) in *. clearbody z.
  destruct (rev z) as [|c r] eqn:Ez.
  - assert (z = []) by (apply (f_equal (@rev Z)) in Ez; rewrite rev_involutive in Ez; exact Ez).
    rewrite H. split; [exists []; auto|]. split; [discriminate|reflexivity].
  - assert (Hz : z = rev r ++ [c]) by (apply (f_equal (@rev Z)) in Ez; rewrite rev_involutive in Ez; exact Ez).
    destruct (existsb (Z.eqb c) (ustr ".!?")) eqn:Ec; cbn [negb].
    + rewrite strip_fixed by exact Hs. rewrite Ez, Ec. cbn [negb].
      split; [exists []; rewrite app_nil_r; auto|]. split; [|reflexivity].
      intros _. unfold u_endswith_any. rewrite Ez. exact Ec.
    + assert (Hs' : stripped (z ++ ustr ".")).
      { right. destruct Hs as [E|[Hh _]]; [rewrite E in Ez; discriminate|]. split.
        - intros c' z' E. destruct z as [|a l]; [discriminate Ez|]. cbn in E. injection E as <- _.
          exact (Hh a l eq_refl).
        - intros x d E. apply (f_equal (@rev Z)) in E. rewrite !rev_app_distr in E.
          cbn in E. injection E as <- _. reflexivity. }
      rewrite strip_fixed by exact Hs'.
      replace (rev (z ++ ustr ".")) with (46%Z :: rev z) by (rewrite rev_app_distr; reflexivity).
      cbn. split; [eexists; split; [reflexivity|right; reflexivity]|]. split; [|reflexivity].
      intros _. unfold u_endswith_any. rewrite rev_app_distr. reflexivity.
Qed.

Lemma sample_decimal_nd : Nd_model sample_decimal.
Proof.
  unfold Nd_model, is_decimal, sample_decimal. split; [|split; [|split]].
  - intros c v. destruct ((48 <=? c) && (c <=? 57))%Z eqn:E1.
    + intros H. injection H as <-. apply andb_true_iff in E1 as [E1 E2].
      apply Z.leb_le in E1, E2. lia.
    + destruct ((0x0E50 <=? c) && (c <=? 0x0E59))%Z eqn:E2; [|discriminate].
      intros H. injection H as <-. apply andb_true_iff in E2 as [E2 E3].
      apply Z.leb_le in E2, E3. lia.
  - intros c Hc. unfold u_isspace. apply not_true_is_false. intros E.
    apply existsb_exists in E as (w & Hw & E). apply Z.eqb_eq in E. subst w.
    assert (Hall : forallb (fun w => negb (((48 <=? w) && (w <=? 57)) || ((0x0E50 <=? w) && (w <=? 0x0E59))))%Z
                     py_whitespace_cp = true) by (vm_compute; reflexivity).
    rewrite forallb_forall in Hall. specialize (Hall c Hw).
    destruct ((48 <=? c) && (c <=? 57))%Z; [discriminate|].
    destruct ((0x0E50 <=? c) && (c <=? 0x0E59))%Z; discriminate.
  - intros c Hc. unfold is_thai_letter in Hc. apply andb_true_iff in Hc as [H1 H2].
    apply Z.leb_le in H1. apply Z.ltb_lt in H2.
    replace ((48 <=? c) && (c <=? 57))%Z with false by (symmetry; apply andb_false_iff; right; apply Z.leb_gt; lia).
    replace ((0x0E50 <=? c) && (c <=? 0x0E59))%Z with false by (symmetry; apply andb_false_iff; left; apply Z.leb_gt; lia).
    reflexivity.
  - split; reflexivity.
Qed.

Lemma X_normalize_collapses_whitespace_witness : u_startswith (ustr "th") (ustr "en") = false /\
  normalize_text sample_decimal (ustr " hello   world ") (ustr "en") = ustr "hello world".
Proof.
  split; [reflexivity|]. rewrite (X_normalize_collapses_whitespace sample_decimal (ustr " hello   world ") (ustr "en") eq_refl). vm_compute. reflexivity.
Defined.

Lemma X_normalize_shape_witness :
  ws_canon AtStart (normalize_text sample_decimal (ustr " ประชุม  15.30 " ++ [8%Z] ++ ustr "12" ++ [8%Z]) (ustr "th")) = true /\
  (forall X m rest prev gs, normalize_text sample_decimal (ustr " ประชุม  15.30 " ++ [8%Z] ++ ustr "12" ++ [8%Z]) (ustr "th") = X ++ m ++ rest ->
   ~ pieces_accept (time_pattern sample_decimal) prev m gs /\
   ~ pieces_accept (number_pattern sample_decimal) prev m gs).
Proof.
  destruct (X_normalize_shape sample_decimal (ustr " ประชุม  15.30 " ++ [8%Z] ++ ustr "12" ++ [8%Z]) (ustr "th") sample_decimal_nd) as [H1 H2].
  split; [exact H1|]. apply H2. reflexivity.
Defined.

Lemma X_normalize_idempotent_witness :
  normalize_text sample_decimal (normalize_text sample_decimal (ustr "a " ++ [8%Z] ++ ustr "12" ++ [8%Z] ++ ustr " 1234") (ustr "th")) (ustr "th")
  = normalize_text sample_decimal (ustr "a " ++ [8%Z] ++ ustr "12" ++ [8%Z] ++ ustr " 1234") (ustr "th").
Proof. exact (X_normalize_idempotent sample_decimal (ustr "a " ++ [8%Z] ++ ustr "12" ++ [8%Z] ++ ustr " 1234") (ustr "th") sample_decimal_nd). Defined.

Lemma X_punctuation_after_normalize_witness :
  restore_punctuation (normalize_text sample_decimal (ustr "ประชุม  15.30") (ustr "th")) (ustr "th")
  = normalize_text sample_decimal (ustr "ประชุม  15.30") (ustr "th").
Proof. exact (X_punctuation_after_normalize sample_decimal (ustr "ประชุม  15.30") (ustr "th") sample_decimal_nd eq_refl). Defined.

End TextFacts.

Section ItnFacts.
Local Open Scope list_scope.

Lemma render_filter (pieces : list re_piece) (repl : list ustring -> ustring) (q : Z -> bool) :
  (forall prev m gs, pieces_accept pieces prev m gs -> filter q (repl gs) = filter q m) ->
  forall ts prev, scan_ok pieces prev ts ->
  filter q (concat (map (tok_render repl) ts)) = filter q (concat (map tok_text ts)).
Proof.
  intros Hr. induction ts as [|t ts IH]; intros prev Hok; [reflexivity|].
  destruct t as [c|gs m]; cbn [map concat tok_render tok_text]; rewrite !filter_app; cbn [scan_ok] in Hok.
  - destruct Hok as [_ Hok]. erewrite IH by eauto. reflexivity.
  - destruct Hok as (_ & Hacc & _ & Hok). rewrite (Hr _ _ _ Hacc). erewrite IH by eauto. reflexivity.
Qed.

Lemma re_sub_filter (pieces : list re_piece) (repl : list ustring -> ustring) (q : Z -> bool) (s : ustring) :
  (forall prev m gs, pieces_accept pieces prev m gs -> filter q (repl gs) = filter q m) ->
  filter q (re_sub pieces repl s) = filter q s.
Proof.
  intros Hr. destruct (re_scan_spec pieces s) as [Ht Hok]. rewrite re_sub_render.
  rewrite (render_filter pieces repl q Hr _ None Hok), Ht. reflexivity.
Qed.

Lemma currency_hit (decimal : Z -> option nat) (prev : option Z) (m : ustring) (gs : list ustring) :
  pieces_accept (currency_pattern decimal) prev m gs ->
  exists g1 sp a, gs = [g1; a] /\ m = g1 ++ sp ++ a /\ forallb u_isspace sp = true /\
    In a [ustr "บาท"; ustr "฿"].
Proof.
  cbn [currency_pattern pieces_accept].
  intros (m1 & m2 & gs1 & -> & -> & _ & m3 & m4 & -> & Hsp & m5 & m6 & gs2 & -> & -> & Halt & [-> ->]).
  apply class_accept in Hsp as (Hsp & _). cbn [items_accept] in Halt.
  destruct Halt as (a & m7 & Hin & -> & ->). rewrite !app_nil_r.
  exists m1, m3, a. auto.
Qed.

Lemma filter_thai_nil (decimal : Z -> option nat) (u : ustring) : Nd_model decimal ->
  forallb is_thai_letter u = true -> filter (is_decimal decimal) u = [].
Proof.
  intros (_ & _ & H & _) Hu. induction u as [|c u IH]; [reflexivity|].
  cbn [forallb] in Hu. apply andb_true_iff in Hu as [Hc Hu]. cbn [filter]. unfold is_decimal at 1. rewrite H by exact Hc.
  apply IH, Hu.
Qed.

Lemma filter_space_nil (decimal : Z -> option nat) (u : ustring) : Nd_model decimal ->
  forallb u_isspace u = true -> filter (is_decimal decimal) u = [].
Proof.
  intros (_ & H & _) Hu. induction u as [|c u IH]; [reflexivity|].
  cbn [forallb] in Hu. apply andb_true_iff in Hu as [Hc Hu]. cbn [filter].
  destruct (is_decimal decimal c) eqn:E; [rewrite (H c E) in Hc; discriminate|]. apply IH, Hu.
Qed.

(** X14: [inverse_text_normalize] rewrites times ("9:05" becomes
    "9โมง05") and amounts ("12 ฿" becomes "12บาท") but keeps the decimal
    digits: the digits of its result, in order, are those of its input. *)
Theorem X_itn_keeps_digits (decimal : Z -> option nat) (text language : ustring) :
  Nd_model decimal ->
  filter (is_decimal decimal) (inverse_text_normalize decimal text language) = filter (is_decimal decimal) text.
Proof.
  intros Hnd. unfold inverse_text_normalize.
  destruct (ustr_truthy text); cbn [negb]; [|reflexivity].
  destruct (u_startswith (ustr "th") language); [|reflexivity].
  unfold _normalize_currency, _normalize_time.
  rewrite re_sub_filter, re_sub_filter; [reflexivity| |].
  - intros prev m gs H. apply time_hit in H as (a & sep & b & -> & -> & _ & _ & Hs & _).
    cbn [itn_time_words]. rewrite !filter_app.
    rewrite (filter_thai_nil decimal (ustr "โมง") Hnd) by reflexivity.
    replace (filter (is_decimal decimal) sep) with (@nil Z); [reflexivity|].
    destruct Hnd as (_ & _ & _ & H46 & H58).
    induction sep as [|c sep IH]; [reflexivity|]. cbn in Hs. apply andb_true_iff in Hs as [Hc Hs].
    cbn. unfold is_decimal at 1.
    apply orb_true_iff in Hc as [E|E]; apply Z.eqb_eq in E; subst c; [rewrite H46|rewrite H58]; apply IH, Hs.
  - intros prev m gs H. apply currency_hit in H as (g1 & sp & a & -> & -> & Hsp & Ha).
    cbn [currency_words]. rewrite !filter_app.
    rewrite (filter_thai_nil decimal (ustr "บาท") Hnd) by reflexivity.
    rewrite (filter_space_nil decimal sp Hnd Hsp).
    rewrite (filter_thai_nil decimal a Hnd) by (destruct Ha as [<-|[<-|[]]]; reflexivity).
    reflexivity.
Qed.

Lemma X_itn_keeps_digits_witness :
  filter (is_decimal sample_decimal) (inverse_text_normalize sample_decimal (ustr "ราคา 12,5 ฿ เวลา 9:05") (ustr "th"))
  = filter (is_decimal sample_decimal) (ustr "ราคา 12,5 ฿ เวลา 9:05").
Proof. exact (X_itn_keeps_digits sample_decimal (ustr "ราคา 12,5 ฿ เวลา 9:05") (ustr "th") sample_decimal_nd). Defined.

End ItnFacts.

Section DialectFacts.
Local Open Scope list_scope.

Lemma ustring_eqb_refl (a : ustring) : ustring_eqb a a = true.
Proof. apply ustring_eqb_eq. reflexivity. Qed.

Lemma dict_lookup_setitem (d : str_dict) (k k' v : ustring) :
  dict_lookup k (dict_setitem d k' v) = if ustring_eqb k' k then Some v else dict_lookup k d.
Proof.
  induction d as [|[k0 v0] d IH]; cbn [dict_setitem dict_lookup].
  - reflexivity.
  - destruct (ustring_eqb k0 k') eqn:E0.
    + apply ustring_eqb_eq in E0. subst k0. cbn [dict_lookup].
      destruct (ustring_eqb k' k); reflexivity.
    + cbn [dict_lookup]. rewrite IH.
      destruct (ustring_eqb k0 k) eqn:E1; [|reflexivity].
      apply ustring_eqb_eq in E1. subst k0.
      destruct (ustring_eqb k' k) eqn:E2; [|reflexivity].
      apply ustring_eqb_eq in E2. subst k'. rewrite ustring_eqb_refl in E0. discriminate.
Qed.

Lemma dict_lookup_update_notin (d values : str_dict) (k : ustring) :
  ~ In k (map fst values) -> dict_lookup k (dict_update d values) = dict_lookup k d.
Proof.
  unfold dict_update. revert d. induction values as [|[a b] values IH]; intros d Hn; [reflexivity|].
  cbn [fold_left fst snd]. rewrite IH by (intros Hi; apply Hn; right; exact Hi).
  rewrite dict_lookup_setitem.
  destruct (ustring_eqb a k) eqn:E; [|reflexivity].
  apply ustring_eqb_eq in E. subst a. exfalso. apply Hn. left. reflexivity.
Qed.

Lemma dict_lookup_update (d values : str_dict) (src tgt : ustring) :
  NoDup (map fst values) -> In (src, tgt) values -> dict_lookup src (dict_update d values) = Some tgt.
Proof.
  revert d. induction values as [|[a b] values IH]; intros d Hnd Hin; [destruct Hin|].
  cbn [map fst] in Hnd. inversion Hnd as [|? ? Hn Hnd']. subst.
  change (dict_update d ((a, b) :: values)) with (dict_update (dict_setitem d a b) values).
  destruct Hin as [Heq|Hin].
  - injection Heq as <- <-.
    rewrite (dict_lookup_update_notin _ _ _ Hn). rewrite dict_lookup_setitem, ustring_eqb_refl. reflexivity.
  - apply IH; assumption.
Qed.

Lemma store_set_length (h : store) (r : nat) (d : str_dict) : length (store_set h r d) = length h.
Proof.
  revert r. induction h as [|x h IH]; intros [|r]; cbn; [reflexivity|reflexivity|reflexivity|].
  rewrite IH. reflexivity.
Qed.

Lemma store_get_set_same (h : store) (r : nat) (d : str_dict) :
  r < length h -> store_get (store_set h r d) r = d.
Proof.
  unfold store_get. revert r. induction h as [|x h IH]; intros [|r] Hr; cbn in *; try lia.
  - reflexivity.
  - apply IH. lia.
Qed.

Lemma store_get_set_other (h : store) (r i : nat) (d : str_dict) :
  r <> i -> store_get (store_set h r d) i = store_get h i.
Proof.
  unfold store_get. revert r i. induction h as [|x h IH]; intros [|r] [|i] Hri; cbn; try reflexivity.
  - lia.
  - apply IH. lia.
Qed.

Lemma store_get_app (h h' : store) (i : nat) : i < length h -> store_get (h ++ h') i = store_get h i.
Proof. intros Hi. unfold store_get. apply app_nth1. exact Hi. Qed.

Lemma table_get_in (t : table) (key : ustring) (r : nat) :
  table_get t key = Some r -> In (key, r) t.
Proof.
  unfold table_get. destruct (find _ t) as [[k' r']|] eqn:E; [|discriminate].
  intros H. injection H as <-. apply find_some in E as [Hin Heq]. cbn in Heq.
  apply ustring_eqb_eq in Heq. subst k'. exact Hin.
Qed.

Lemma table_get_app (t t' : table) (key : ustring) (r : nat) :
  table_get t key = Some r -> table_get (t ++ t') key = Some r.
Proof.
  unfold table_get. induction t as [|[k0 r0] t IH]; cbn; [discriminate|].
  destruct (ustring_eqb k0 key); [tauto|exact IH].
Qed.

Lemma nodup_snd_same (t : table) (a b : ustring) (r : nat) :
  NoDup (map snd t) -> In (a, r) t -> In (b, r) t -> a = b.
Proof.
  induction t as [|[k0 r0] t IH]; intros Hnd Ha Hb; [destruct Ha|].
  cbn [map snd] in Hnd. inversion Hnd as [|? ? Hn Hnd']. subst.
  destruct Ha as [Ha|Ha]; destruct Hb as [Hb|Hb].
  - injection Ha as <- <-. injection Hb as Hab. exact Hab.
  - injection Ha as -> ->. exfalso. apply Hn. apply (in_map snd) in Hb. exact Hb.
  - injection Hb as -> ->. exfalso. apply Hn. apply (in_map snd) in Ha. exact Ha.
  - apply IH; assumption.
Qed.

Lemma custom_get_cons_other (custom : list (ustring * str_dict)) (key k : ustring) (values : str_dict) :
  key <> k -> custom_get ((key, values) :: custom) k = custom_get custom k.
Proof.
  intros Hne. unfold custom_get. cbn [find fst].
  destruct (ustring_eqb key k) eqn:E; [|reflexivity].
  apply ustring_eqb_eq in E. contradiction.
Qed.

Lemma custom_get_notin (custom : list (ustring * str_dict)) (k : ustring) :
  ~ In k (map fst custom) -> custom_get custom k = None.
Proof.
  induction custom as [|[a v] custom IH]; intros Hn; [reflexivity|].
  rewrite custom_get_cons_other by (intros ->; apply Hn; left; reflexivity).
  apply IH. intros Hi. apply Hn. right. exact Hi.
Qed.

Lemma custom_get_in (custom : list (ustring * str_dict)) (k : ustring) (vs : str_dict) :
  NoDup (map fst custom) -> In (k, vs) custom -> custom_get custom k = Some vs.
Proof.
  induction custom as [|[a v] custom IH]; intros Hnd Hin; [destruct Hin|].
  cbn [map fst] in Hnd. inversion Hnd as [|? ? Hn Hnd']. subst.
  destruct Hin as [Heq|Hin].
  - injection Heq as -> ->. unfold custom_get. cbn [find fst]. rewrite ustring_eqb_refl. reflexivity.
  - rewrite custom_get_cons_other.
    + apply IH; assumption.
    + intros ->. apply Hn. apply (in_map fst) in Hin. exact Hin.
Qed.

(** What [apply_custom] leaves in the cell of a built-in region, while the
    table keeps the built-in regions at their cells and its references are
    distinct cells of the store. *)
Lemma apply_custom_builtin (custom : list (ustring * str_dict)) (t : table) (h : store) (k : ustring) (i : nat) :
  NoDup (map fst custom) ->
  (forall k' i', In (k', i') DEFAULT_MAPPING -> table_get t k' = Some i') ->
  NoDup (map snd t) ->
  (forall r, In r (map snd t) -> r < length h) ->
  In (k, i) DEFAULT_MAPPING ->
  store_get (snd (apply_custom t h custom)) i =
  match custom_get custom k with Some vs => dict_update (store_get h i) vs | None => store_get h i end.
Proof.
  revert t h. induction custom as [|[key values] rest IH]; intros t h Hnd Hdef Hsnd Hlt Hki; [reflexivity|].
  cbn [map fst] in Hnd. inversion Hnd as [|? ? Hn Hnd']. subst.
  pose proof (Hdef k i Hki) as Hti.
  assert (Hil : i < length h) by (apply Hlt; exact (in_map snd _ _ (table_get_in _ _ _ Hti))).
  cbn [apply_custom]. unfold table_setdefault.
  destruct (table_get t key) as [r|] eqn:Eg.
  - rewrite IH; [|exact Hnd'|exact Hdef|exact Hsnd|intros r' Hr'; rewrite store_set_length; apply Hlt, Hr'|exact Hki].
    destruct (ustring_eqb key k) eqn:Ek.
    + apply ustring_eqb_eq in Ek. subst key.
      rewrite Hti in Eg. injection Eg as <-.
      rewrite (custom_get_notin rest k Hn).
      unfold custom_get. cbn [find fst]. rewrite ustring_eqb_refl.
      apply store_get_set_same. exact Hil.
    + assert (Hne : key <> k) by (intros ->; rewrite ustring_eqb_refl in Ek; discriminate).
      rewrite (custom_get_cons_other rest key k values Hne).
      assert (Hri : r <> i).
      { intros ->. apply Hne. apply (nodup_snd_same t key k i Hsnd); apply table_get_in; assumption. }
      rewrite (store_get_set_other _ _ _ _ Hri). reflexivity.
  - assert (Hne : key <> k) by (intros ->; rewrite Hti in Eg; discriminate).
    rewrite IH; [|exact Hnd'| | | |exact Hki].
    + rewrite (custom_get_cons_other rest key k values Hne).
      rewrite store_get_set_other by lia. rewrite store_get_app by exact Hil. reflexivity.
    + intros k' i' Hk'. apply table_get_app. apply Hdef, Hk'.
    + rewrite map_app. apply NoDup_app; [exact Hsnd|repeat constructor; intros []|].
      intros x Hx Hx'. cbn in Hx'. destruct Hx' as [<-|[]]. apply Hlt in Hx. lia.
    + intros r' Hr'. rewrite store_set_length, length_app. cbn [length].
      rewrite map_app, in_app_iff in Hr'. cbn in Hr'. destruct Hr' as [Hr'|[<-|[]]]; [apply Hlt in Hr'; lia|lia].
Qed.

Lemma default_mapping_table (k : ustring) (i : nat) :
  In (k, i) DEFAULT_MAPPING -> table_get DEFAULT_MAPPING k = Some i.
Proof. intros [H|[H|[H|[]]]]; injection H as <- <-; reflexivity. Qed.

Lemma map_text_store_builtin (str_lower : ustring -> ustring) (self : DialectMapper) (h : store)
    (text : ustring) (region : option ustring) (k : ustring) (i : nat) :
  NoDup (map fst (custom_tables self)) -> 3 <= length h -> In (k, i) DEFAULT_MAPPING ->
  store_get (fst (map_text str_lower self h text region)) i =
  match custom_get (custom_tables self) k with Some vs => dict_update (store_get h i) vs | None => store_get h i end.
Proof.
  intros Hnd Hh Hki. unfold map_text.
  pose proof (apply_custom_builtin (custom_tables self) DEFAULT_MAPPING h k i Hnd default_mapping_table) as Hb.
  destruct (apply_custom DEFAULT_MAPPING h (custom_tables self)) as [tables h'] eqn:E.
  cbn [fst]. cbn [snd] in Hb. apply Hb; [|intros r Hr; cbn in Hr; lia|exact Hki].
  cbn. repeat constructor; cbn; lia.
Qed.

(** X15: [map_text] writes a mapper's custom table for a built-in region
    ("north", "isan" or "south") into the inner dict of the module-level
    [DEFAULT_MAPPING] itself (with [update]); a built-in region the mapper
    has no custom table for keeps its dict. *)
Theorem X_dialect_map_text_updates_defaults (str_lower : ustring -> ustring) (self : DialectMapper) (h : store)
    (text : ustring) (region : option ustring) (k : ustring) (i : nat) :
  NoDup (map fst (custom_tables self)) -> 3 <= length h -> In (k, i) DEFAULT_MAPPING ->
  store_get (fst (map_text str_lower self h text region)) i =
  match custom_get (custom_tables self) k with Some vs => dict_update (store_get h i) vs | None => store_get h i end.
Proof. exact (map_text_store_builtin str_lower self h text region k i). Qed.

(** X16: after a mapper with a custom "north" table mapping [src] to a
    non-empty [tgt] has run [map_text] once, a new [DialectMapper()] with no
    custom tables maps the single word [src] to [tgt] when no region is
    given. *)
Theorem X_dialect_custom_entry_leaks (str_lower : ustring -> ustring) (self : DialectMapper) (h : store)
    (text : ustring) (region : option ustring) (vs : str_dict) (src tgt : ustring) :
  NoDup (map fst (custom_tables self)) -> 3 <= length h ->
  In (ustr "north", vs) (custom_tables self) -> NoDup (map fst vs) -> In (src, tgt) vs ->
  ustr_truthy tgt = true -> u_split src = [src] ->
  snd (map_text str_lower (mkDialectMapper []) (fst (map_text str_lower self h text region)) src None) = tgt.
Proof.
  intros Hnd Hh Hin Hndv Hst Ht Hsp.
  pose proof (map_text_store_builtin str_lower self h text region (ustr "north") 0 Hnd Hh (or_introl eq_refl)) as Hs.
  rewrite (custom_get_in _ _ _ Hnd Hin) in Hs.
  destruct (map_text str_lower self h text region) as [h' out]. cbn [fst] in Hs |- *.
  unfold map_text. cbn [custom_tables apply_custom snd]. rewrite Hsp.
  cbn [map_tokens DEFAULT_MAPPING first_some snd].
  rewrite Hs, (dict_lookup_update _ _ _ _ Hndv Hst), Ht. reflexivity.
Qed.

Lemma X_dialect_map_text_updates_defaults_witness :
  store_get (fst (map_text (fun s => s) (mkDialectMapper [(ustr "north", [(ustr "ตัว", ustr "ตน")])])
                   DEFAULT_STORE (ustr "ตัว") None)) 0
  = dict_update (store_get DEFAULT_STORE 0) [(ustr "ตัว", ustr "ตน")].
Proof.
  exact (X_dialect_map_text_updates_defaults (fun s => s) (mkDialectMapper [(ustr "north", [(ustr "ตัว", ustr "ตน")])])
           DEFAULT_STORE (ustr "ตัว") None (ustr "north") 0
           (NoDup_cons _ (@in_nil _ _) (NoDup_nil _)) (le_n 3) (or_introl eq_refl)).
Defined.

Lemma X_dialect_custom_entry_leaks_witness :
  snd (map_text (fun s => s) (mkDialectMapper [])
         (fst (map_text (fun s => s) (mkDialectMapper [(ustr "north", [(ustr "ตัว", ustr "ตน")])])
                DEFAULT_STORE (ustr "ละอ่อน") (Some (ustr "north")))) (ustr "ตัว") None) = ustr "ตน".
Proof.
  exact (X_dialect_custom_entry_leaks (fun s => s) (mkDialectMapper [(ustr "north", [(ustr "ตัว", ustr "ตน")])])
           DEFAULT_STORE (ustr "ละอ่อน") (Some (ustr "north")) [(ustr "ตัว", ustr "ตน")] (ustr "ตัว") (ustr "ตน")
           (NoDup_cons _ (@in_nil _ _) (NoDup_nil _)) (le_n 3) (or_introl eq_refl)
           (NoDup_cons _ (@in_nil _ _) (NoDup_nil _)) (or_introl eq_refl) eq_refl eq_refl).
Defined.

End DialectFacts.
